(** * COLMAP ML extension: model lifecycle, registry and post-processing

    A shallow embedding of [src/colmap/ml]: the four model classes
    (SuperPoint, DISK, SuperGlue, LoFTR), the [MLManager] registry and the
    post-processing helpers ([FilterKeypoints], [ApplySoftNMS],
    [NormalizeDescriptors], [ApplyMutualCheck]).

    Conventions of the embedding
    - [int] is [Z], its arithmetic taken not to overflow; where the source
      converts a possibly negative [int] to [size_t] the wrap-around is
      written out ([size_t_of_int]).
    - [float] values of keypoints, scores and thresholds are the rationals
      they denote ([Q], finite and not NaN); the source only compares them,
      and comparison of finite floats is exact.  Decimal literals stand for
      their decimal value and the dummy-score arithmetic is exact.
    - [Eigen::VectorXf] is the list of its coefficients, finite floats as
      the reals they denote.  [norm()] and the quotient by a scalar are
      [float] operations, which round and underflow: the embedding takes
      them from the [Platform] and fixes nothing about their results.
    - C++ exceptions are an explicit [outcome]; undefined behaviour (an
      out-of-range [operator[]], [% 0]) is [None] in [option].
    - what the C++ and C standard libraries and [Eigen] leave open is a
      [Platform]: [std::stof], the order [std::sort] gives to equivalent
      elements, [Eigen]'s random vectors and its [float] arithmetic.
      [rand()] is a stream [rnd] handed to the function that calls it:
      [rnd k] is what the call number [k] made by that function's own body
      returns.
    - wall-clock fields ([processing_time_ms]) and logging are left out. *)

From Stdlib Require Import ZArith QArith Reals Lra Lia List Permutation Sorted.
From Stdlib Require Import String Ascii.
From stdpp Require Import base option list gmap strings.

Close Scope Q_scope.
Close Scope R_scope.
Close Scope Z_scope.
Open Scope nat_scope.

(** ** Exceptions *)

Inductive exception : Type :=
| invalid_argument
| out_of_range.

Inductive outcome (A : Type) : Type :=
| Normal (a : A)
| Throws (e : exception).
Arguments Normal {A} a.
Arguments Throws {A} e.

Definition obind {A B : Type} (m : outcome A) (k : A -> outcome B) : outcome B :=
  match m with
  | Normal a => k a
  | Throws e => Throws e
  end.

Declare Scope outcome_scope.
Delimit Scope outcome_scope with outcome.
Notation "'do' x <~ m ;; k" := (obind m (fun x => k))
  (at level 10, x name, m at level 100, k at level 200) : outcome_scope.
Open Scope outcome_scope.

Definition returns_normally {A : Type} (m : outcome A) : Prop :=
  exists a, m = Normal a.

(** ** Scalars *)

Definition INT_MIN : Z := (- 2147483648)%Z.
Definition INT_MAX : Z := 2147483647%Z.

(** [static_cast<size_t>(v)] on an LP64 target. *)
Definition size_t_of_int (v : Z) : Z := (v mod 2 ^ 64)%Z.

(** [a < b] on floats. *)
Definition Qlt_bool (a b : Q) : bool := negb (Qle_bool b a).

(** [a >= b] on floats. *)
Definition Qge_bool (a b : Q) : bool := Qle_bool b a.

(** ** [std::stoi]

    [strtol] in base 10: leading white space, an optional sign, then the
    longest run of decimal digits; what follows is ignored.  No digit is
    [std::invalid_argument], a value outside [int] is [std::out_of_range]. *)

Definition isspace (c : ascii) : bool :=
  let n := nat_of_ascii c in
  (n =? 32) || ((9 <=? n) && (n <=? 13)).

Definition digit_of (c : ascii) : option Z :=
  let n := nat_of_ascii c in
  if (48 <=? n) && (n <=? 57) then Some (Z.of_nat (n - 48)) else None.

Fixpoint skip_spaces (s : string) : string :=
  match s with
  | String c r => if isspace c then skip_spaces r else s
  | EmptyString => s
  end.

Fixpoint read_digits (s : string) (acc : option Z) : option Z :=
  match s with
  | String c r =>
      match digit_of c with
      | Some d => read_digits r (Some (10 * default 0%Z acc + d)%Z)
      | None => acc
      end
  | EmptyString => acc
  end.

Definition stoi (s : string) : outcome Z :=
  let s1 := skip_spaces s in
  let '(neg, s2) :=
    match s1 with
    | String "-"%char r => (true, r)
    | String "+"%char r => (false, r)
    | _ => (false, s1)
    end in
  match read_digits s2 None with
  | None => Throws invalid_argument
  | Some n =>
      let v := if (neg : bool) then (- n)%Z else n in
      if ((INT_MIN <=? v) && (v <=? INT_MAX))%Z then Normal v
      else Throws out_of_range
  end.

(** ** Vectors of [Eigen] *)

Definition VectorXf : Type := list R.

(** ** What the standard libraries and [Eigen] leave open *)

Class Platform : Type := {
  (** [std::stof] *)
  stof : string -> outcome Q;
  (** [std::sort(first, last, comp)] on a vector of indices *)
  std_sort : (nat -> nat -> bool) -> list nat -> list nat;
  (** [Eigen::VectorXf::Random(dim)], by the number of the call *)
  VectorXf_Random : Z -> nat -> VectorXf;
  (** [v.norm()]: the [float] that [Eigen] computes for the Euclidean norm
      (finite: a run in which it overflows is outside the embedding) *)
  Eigen_norm : VectorXf -> R;
  (** the [float] quotient of a coefficient by a scalar *)
  float_div : R -> R -> R
}.

(** [v / s]: every coefficient divided by the scalar, in [float]. *)
Definition vdiv `{Platform} (v : VectorXf) (s : R) : VectorXf :=
  List.map (fun c => float_div c s) v.

(** [v.normalize()]: divides by the norm when it is positive. *)
Definition normalize `{Platform} (v : VectorXf) : VectorXf :=
  let n := Eigen_norm v in
  if Rlt_dec 0 n then vdiv v n else v.

(** The contract of [std::sort]: for a comparator that is a strict weak
    order the result is a permutation of the input in which no element is
    ordered before one that stands earlier.  The order of equivalent
    elements is not part of it. *)

Record strict_weak_order (comp : nat -> nat -> bool) : Prop := {
  swo_irrefl : forall a, comp a a = false;
  swo_trans : forall a b c, comp a b = true -> comp b c = true -> comp a c = true;
  swo_incomp : forall a b c,
    comp a b = false -> comp b a = false ->
    comp b c = false -> comp c b = false ->
    comp a c = false /\ comp c a = false
}.

Definition sorted_by (comp : nat -> nat -> bool) (l : list nat) : Prop :=
  forall i j a b, i < j -> l !! i = Some a -> l !! j = Some b -> comp b a = false.

Definition std_sort_conforms (P : Platform) : Prop :=
  forall comp l, strict_weak_order comp ->
    Permutation l (std_sort comp l) /\ sorted_by comp (std_sort comp l).

(** [a] may stand before [b] in a range sorted by [comp]. *)
Definition may_precede (comp : nat -> nat -> bool) (a b : nat) : Prop :=
  comp b a = false.

(** Straight insertion, the algorithm libstdc++ runs on short ranges; it
    gives the instances used to evaluate the model. *)

Fixpoint insert_by (comp : nat -> nat -> bool) (a : nat) (l : list nat) : list nat :=
  match l with
  | [] => [a]
  | b :: r => if comp a b then a :: l else b :: insert_by comp a r
  end.

Definition insertion_sort (comp : nat -> nat -> bool) (l : list nat) : list nat :=
  fold_left (fun acc a => insert_by comp a acc) l [].

(** ** Shared data ([ml_manager.h], [feature/types.h], [sensor/bitmap.h]) *)

Inductive MLModelType : Type :=
| SUPERPONT_DETECTOR
| SUPERGLUE_MATCHER
| LOFTR_MATCHER
| DISK_DETECTOR
| R2D2_DETECTOR
| MVSNET_MVS
| NERF_RENDERER
| INSTANT_NGP.

Inductive MLBackend : Type := PYTORCH | TENSORFLOW | ONNX | OPENVINO.

Inductive MLDevice : Type := CPU | CUDA | OPENCL | VULKAN.

#[global] Instance MLModelType_eq_dec : EqDecision MLModelType.
Proof. solve_decision. Defined.

#[global] Instance MLDevice_eq_dec : EqDecision MLDevice.
Proof. solve_decision. Defined.

(** [static_cast<int>(type)], the key under which a type is hashed. *)
Definition MLModelType_to_nat (t : MLModelType) : nat :=
  match t with
  | SUPERPONT_DETECTOR => 0
  | SUPERGLUE_MATCHER => 1
  | LOFTR_MATCHER => 2
  | DISK_DETECTOR => 3
  | R2D2_DETECTOR => 4
  | MVSNET_MVS => 5
  | NERF_RENDERER => 6
  | INSTANT_NGP => 7
  end.

Definition MLModelType_of_nat (n : nat) : option MLModelType :=
  match n with
  | 0 => Some SUPERPONT_DETECTOR
  | 1 => Some SUPERGLUE_MATCHER
  | 2 => Some LOFTR_MATCHER
  | 3 => Some DISK_DETECTOR
  | 4 => Some R2D2_DETECTOR
  | 5 => Some MVSNET_MVS
  | 6 => Some NERF_RENDERER
  | 7 => Some INSTANT_NGP
  | _ => None
  end.

#[global] Program Instance MLModelType_countable : Countable MLModelType :=
  inj_countable MLModelType_to_nat MLModelType_of_nat _.
Next Obligation. by intros []. Qed.

Record MLModelConfig : Type := {
  model_path : string;
  backend : MLBackend;
  device : MLDevice;
  use_fp16 : bool;
  batch_size : Z;
  confidence_threshold : Q;
  (** the [unordered_map], as the sequence its iteration visits *)
  parameters : list (string * string)
}.

Record FeatureKeypoint : Type := {
  x : Q;
  y : Q;
  a11 : Q;
  a12 : Q;
  a21 : Q;
  a22 : Q
}.

(** Only the dimensions of a [Bitmap] are read by the modelled code. *)
Record Bitmap : Type := {
  Width : Z;
  Height : Z
}.

Definition Vector2f : Type := (Q * Q)%type.

(** [vector::empty()] *)
Definition empty {A : Type} (v : list A) : bool :=
  match v with
  | [] => true
  | _ :: _ => false
  end.

(** [0.5f + 0.5f * (rand() % 100) / 100.0f] and its LoFTR sibling. *)
Definition dummy_score (base scale : Q) (r : Z) : Q :=
  (base + scale * inject_Z (Z.rem r 100) / 100)%Q.

(** [x < margin || x >= width - margin || y < margin || y >= height - margin] *)
Definition outside_border (margin width height : Z) (kp : FeatureKeypoint) : bool :=
  Qlt_bool (x kp) (inject_Z margin)
  || Qge_bool (x kp) (inject_Z (width - margin))
  || Qlt_bool (y kp) (inject_Z margin)
  || Qge_bool (y kp) (inject_Z (height - margin)).

(** [scores[a]] for an index known to be in range. *)
Definition score_at (scores : list Q) (a : nat) : Q := nth a scores 0%Q.

(** The comparator [scores[a] > scores[b]]. *)
Definition by_score_desc (scores : list Q) (a b : nat) : bool :=
  Qlt_bool (score_at scores b) (score_at scores a).

(** [result.push_back(filtered_keypoints[indices[i]])] for [i < num]. *)
Definition gather (filtered : list FeatureKeypoint) (indices : list nat) (num : nat)
  : option (list FeatureKeypoint) :=
  mapM (fun i => filtered !! i) (take num indices).

(** ** SuperPoint ([superpoint_detector.h], [superpoint_detector.cc]) *)

Module SuperPoint.

Record Config : Type := {
  max_keypoints : Z;
  keypoint_threshold : Q;
  remove_borders : bool;
  border_margin : Z;
  use_nms : bool;
  nms_radius : Q;
  compute_descriptors : bool;
  descriptor_dim : Z;
  descriptor_threshold : Q
}.

Definition default_config : Config := {|
  max_keypoints := 1024;
  keypoint_threshold := (5 # 1000)%Q;
  remove_borders := true;
  border_margin := 4;
  use_nms := true;
  nms_radius := 4%Q;
  compute_descriptors := true;
  descriptor_dim := 256;
  descriptor_threshold := (1 # 10)%Q
|}.

Definition with_max_keypoints (v : Z) (c : Config) : Config :=
  {| max_keypoints := v;
     keypoint_threshold := keypoint_threshold c;
     remove_borders := remove_borders c;
     border_margin := border_margin c;
     use_nms := use_nms c;
     nms_radius := nms_radius c;
     compute_descriptors := compute_descriptors c;
     descriptor_dim := descriptor_dim c;
     descriptor_threshold := descriptor_threshold c |}.

Definition with_keypoint_threshold (v : Q) (c : Config) : Config :=
  {| max_keypoints := max_keypoints c;
     keypoint_threshold := v;
     remove_borders := remove_borders c;
     border_margin := border_margin c;
     use_nms := use_nms c;
     nms_radius := nms_radius c;
     compute_descriptors := compute_descriptors c;
     descriptor_dim := descriptor_dim c;
     descriptor_threshold := descriptor_threshold c |}.

Definition with_nms_radius (v : Q) (c : Config) : Config :=
  {| max_keypoints := max_keypoints c;
     keypoint_threshold := keypoint_threshold c;
     remove_borders := remove_borders c;
     border_margin := border_margin c;
     use_nms := use_nms c;
     nms_radius := v;
     compute_descriptors := compute_descriptors c;
     descriptor_dim := descriptor_dim c;
     descriptor_threshold := descriptor_threshold c |}.

Record Result : Type := {
  keypoints : list FeatureKeypoint;
  descriptors : list VectorXf;
  scores : list Q
}.

Definition empty_result : Result :=
  {| keypoints := []; descriptors := []; scores := [] |}.

(** The object; [init_calls] is a ghost counter of the runs of
    [InitializeModel]. *)
Record Detector : Type := {
  loaded_ : bool;
  backend_ : MLBackend;
  device_ : MLDevice;
  config_ : Config;
  model_ptr_ : Z;
  init_calls : nat
}.

Definition new : Detector := {|
  loaded_ := false;
  backend_ := PYTORCH;
  device_ := CPU;
  config_ := default_config;
  model_ptr_ := 0;
  init_calls := 0
|}.

Definition InitializeModel (self : Detector) : bool * Detector :=
  (true,
   {| loaded_ := loaded_ self;
      backend_ := backend_ self;
      device_ := device_ self;
      config_ := config_ self;
      model_ptr_ := 305419896;
      init_calls := S (init_calls self) |}).

(** The loop over [config.parameters]; an exception leaves the values
    already stored in place. *)
Fixpoint store_parameters `{Platform} (params : list (string * string)) (c : Config)
  : outcome unit * Config :=
  match params with
  | [] => (Normal tt, c)
  | (key, value) :: rest =>
      if String.eqb key "max_keypoints" then
        match stoi value with
        | Normal v => store_parameters rest (with_max_keypoints v c)
        | Throws e => (Throws e, c)
        end
      else if String.eqb key "keypoint_threshold" then
        match stof value with
        | Normal v => store_parameters rest (with_keypoint_threshold v c)
        | Throws e => (Throws e, c)
        end
      else if String.eqb key "nms_radius" then
        match stof value with
        | Normal v => store_parameters rest (with_nms_radius v c)
        | Throws e => (Throws e, c)
        end
      else store_parameters rest c
  end.

Definition Load `{Platform} (config : MLModelConfig) (self : Detector)
  : outcome bool * Detector :=
  if loaded_ self then (Normal true, self)
  else
    let '(r, c) := store_parameters (parameters config) (config_ self) in
    let self1 :=
      {| loaded_ := loaded_ self;
         backend_ := backend config;
         device_ := device config;
         config_ := c;
         model_ptr_ := model_ptr_ self;
         init_calls := init_calls self |} in
    match r with
    | Throws e => (Throws e, self1)
    | Normal _ =>
        let '(success, self2) := InitializeModel self1 in
        if success then
          (Normal true,
           {| loaded_ := true;
              backend_ := backend_ self2;
              device_ := device_ self2;
              config_ := config_ self2;
              model_ptr_ := model_ptr_ self2;
              init_calls := init_calls self2 |})
        else (Normal false, self2)
    end.

Definition IsLoaded (self : Detector) : bool := loaded_ self.

Definition Unload (self : Detector) : Detector :=
  if negb (loaded_ self) then self
  else
    {| loaded_ := false;
       backend_ := backend_ self;
       device_ := device_ self;
       config_ := config_ self;
       model_ptr_ := 0;
       init_calls := init_calls self |}.

(** The first loop of [FilterKeypoints], from index [i] on. *)
Fixpoint filter_from (i : nat) (kps : list FeatureKeypoint) (scores : list Q)
    (config : Config) : option (list FeatureKeypoint * list Q) :=
  match kps with
  | [] => Some ([], [])
  | kp :: rest =>
      s ← scores !! i;
      '(fk, fs) ← filter_from (S i) rest scores config;
      if Qge_bool s (keypoint_threshold config) then
        if remove_borders config && outside_border (border_margin config) 640 480 kp
        then Some (fk, fs)
        else Some (kp :: fk, s :: fs)
      else Some (fk, fs)
  end.

Definition FilterKeypoints `{Platform} (keypoints : list FeatureKeypoint)
    (scores : list Q) (config : Config) : option (list FeatureKeypoint) :=
  '(filtered_keypoints, filtered_scores) ← filter_from 0 keypoints scores config;
  let indices :=
    std_sort (by_score_desc filtered_scores) (seq 0 (length filtered_keypoints)) in
  let num_keypoints :=
    Z.to_nat (Z.min (size_t_of_int (max_keypoints config))
                    (Z.of_nat (length indices))) in
  gather filtered_keypoints indices num_keypoints.

(** The dummy keypoints of [Detect]: three calls of [rand()] each. *)
Definition dummy_keypoint (rnd : nat -> Z) (width height : Z) (i : nat)
  : option (FeatureKeypoint * Q) :=
  if ((width =? 0) || (height =? 0))%Z then None
  else
    Some ({| x := inject_Z (Z.rem (rnd (3 * i)) width);
             y := inject_Z (Z.rem (rnd (3 * i + 1)) height);
             a11 := 1; a12 := 0; a21 := 0; a22 := 1 |},
          dummy_score (1 # 2) (1 # 2) (rnd (3 * i + 2))).

Definition Detect `{Platform} (rnd : nat -> Z) (image : Bitmap) (config : Config)
    (self : Detector) : option Result :=
  if negb (loaded_ self) then Some empty_result
  else
    let width := Width image in
    let height := Height image in
    let n := Z.to_nat (Z.min (max_keypoints config) 100) in
    raw ← mapM (dummy_keypoint rnd width height) (seq 0 n);
    kept ← FilterKeypoints (raw.*1) (raw.*2) config;
    (* if (config.use_nms): only a log line *)
    let kept := if use_nms config then kept else kept in
    let descs :=
      if compute_descriptors config
      then List.map (fun i => normalize (VectorXf_Random (descriptor_dim config) i))
             (seq 0 (length kept))
      else [] in
    Some {| keypoints := kept;
            descriptors := descs;
            scores := List.map (fun _ => (8 # 10)%Q) kept |}.

End SuperPoint.

(** ** The regular grid of [ExtractDenseKeypoints] (DISK and LoFTR)

    [for (v = step; v < bound; v += step)] with [step >= 1]; the fuel is the
    image dimension, which the loop cannot exhaust ([grid_line_fuel]). *)

Fixpoint grid_line (fuel : nat) (v step bound : Z) : list Z :=
  match fuel with
  | 0 => []
  | S f => if (v <? bound)%Z then v :: grid_line f (v + step)%Z step bound else []
  end.

Definition grid_step (divisor : Z) (image : Bitmap) : Z :=
  Z.max 1 (Z.quot (Z.min (Width image) (Height image)) divisor).

Definition dense_grid (divisor : Z) (image : Bitmap) : list Vector2f :=
  let width := Width image in
  let height := Height image in
  let step := grid_step divisor image in
  let ys := grid_line (Z.to_nat height) step step (height - step) in
  let xs := grid_line (Z.to_nat width) step step (width - step) in
  flat_map (fun yy => List.map (fun xx => (inject_Z xx, inject_Z yy)) xs) ys.

(** ** DISK ([disk_detector.h], [disk_detector.cc]) *)

Module DISK.

Record Config : Type := {
  max_keypoints : Z;
  keypoint_threshold : Q;
  remove_borders : bool;
  border_margin : Z;
  use_nms : bool;
  nms_radius : Q;
  compute_descriptors : bool;
  descriptor_dim : Z;
  descriptor_threshold : Q;
  soft_threshold : Q;
  patch_size : Z;
  use_rotation_invariance : bool;
  rotation_threshold : Q;
  use_scale_invariance : bool;
  scale_threshold : Q
}.

Definition default_config : Config := {|
  max_keypoints := 2048;
  keypoint_threshold := (5 # 1000)%Q;
  remove_borders := true;
  border_margin := 4;
  use_nms := true;
  nms_radius := 4%Q;
  compute_descriptors := true;
  descriptor_dim := 128;
  descriptor_threshold := (1 # 10)%Q;
  soft_threshold := (1 # 10)%Q;
  patch_size := 32;
  use_rotation_invariance := true;
  rotation_threshold := (1 # 10)%Q;
  use_scale_invariance := true;
  scale_threshold := (1 # 10)%Q
|}.

(** [config_.max_keypoints = v], [config_.keypoint_threshold = v] and
    [config_.descriptor_dim = v]. *)
Definition with_parsed (mk : Z) (kt : Q) (dd : Z) (c : Config) : Config :=
  {| max_keypoints := mk;
     keypoint_threshold := kt;
     remove_borders := remove_borders c;
     border_margin := border_margin c;
     use_nms := use_nms c;
     nms_radius := nms_radius c;
     compute_descriptors := compute_descriptors c;
     descriptor_dim := dd;
     descriptor_threshold := descriptor_threshold c;
     soft_threshold := soft_threshold c;
     patch_size := patch_size c;
     use_rotation_invariance := use_rotation_invariance c;
     rotation_threshold := rotation_threshold c;
     use_scale_invariance := use_scale_invariance c;
     scale_threshold := scale_threshold c |}.

Definition with_max_keypoints (v : Z) (c : Config) : Config :=
  with_parsed v (keypoint_threshold c) (descriptor_dim c) c.

Definition with_keypoint_threshold (v : Q) (c : Config) : Config :=
  with_parsed (max_keypoints c) v (descriptor_dim c) c.

Definition with_descriptor_dim (v : Z) (c : Config) : Config :=
  with_parsed (max_keypoints c) (keypoint_threshold c) v c.

Record Result : Type := {
  keypoints : list FeatureKeypoint;
  descriptors : list VectorXf;
  scores : list Q;
  soft_scores : list R;
  dense_keypoints : list Vector2f;
  dense_descriptors : list VectorXf
}.

Definition empty_result : Result :=
  {| keypoints := []; descriptors := []; scores := []; soft_scores := [];
     dense_keypoints := []; dense_descriptors := [] |}.

Record Detector : Type := {
  loaded_ : bool;
  backend_ : MLBackend;
  device_ : MLDevice;
  config_ : Config;
  model_ptr_ : Z;
  init_calls : nat
}.

Definition new : Detector := {|
  loaded_ := false;
  backend_ := PYTORCH;
  device_ := CPU;
  config_ := default_config;
  model_ptr_ := 0;
  init_calls := 0
|}.

Definition InitializeModel (self : Detector) : bool * Detector :=
  (true,
   {| loaded_ := loaded_ self;
      backend_ := backend_ self;
      device_ := device_ self;
      config_ := config_ self;
      model_ptr_ := 305419896;
      init_calls := S (init_calls self) |}).

Fixpoint store_parameters `{Platform} (params : list (string * string)) (c : Config)
  : outcome unit * Config :=
  match params with
  | [] => (Normal tt, c)
  | (key, value) :: rest =>
      if String.eqb key "max_keypoints" then
        match stoi value with
        | Normal v => store_parameters rest (with_max_keypoints v c)
        | Throws e => (Throws e, c)
        end
      else if String.eqb key "keypoint_threshold" then
        match stof value with
        | Normal v => store_parameters rest (with_keypoint_threshold v c)
        | Throws e => (Throws e, c)
        end
      else if String.eqb key "descriptor_dim" then
        match stoi value with
        | Normal v => store_parameters rest (with_descriptor_dim v c)
        | Throws e => (Throws e, c)
        end
      else store_parameters rest c
  end.

Definition Load `{Platform} (config : MLModelConfig) (self : Detector)
  : outcome bool * Detector :=
  if loaded_ self then (Normal true, self)
  else
    let '(r, c) := store_parameters (parameters config) (config_ self) in
    let self1 :=
      {| loaded_ := loaded_ self;
         backend_ := backend config;
         device_ := device config;
         config_ := c;
         model_ptr_ := model_ptr_ self;
         init_calls := init_calls self |} in
    match r with
    | Throws e => (Throws e, self1)
    | Normal _ =>
        let '(success, self2) := InitializeModel self1 in
        if success then
          (Normal true,
           {| loaded_ := true;
              backend_ := backend_ self2;
              device_ := device_ self2;
              config_ := config_ self2;
              model_ptr_ := model_ptr_ self2;
              init_calls := init_calls self2 |})
        else (Normal false, self2)
    end.

Definition IsLoaded (self : Detector) : bool := loaded_ self.

Definition Unload (self : Detector) : Detector :=
  if negb (loaded_ self) then self
  else
    {| loaded_ := false;
       backend_ := backend_ self;
       device_ := device_ self;
       config_ := config_ self;
       model_ptr_ := 0;
       init_calls := init_calls self |}.

(** The first loop of [FilterKeypoints], from index [i] on; no filtered
    score vector is kept here. *)
Fixpoint filter_from (i : nat) (kps : list FeatureKeypoint) (scores : list Q)
    (config : Config) : option (list FeatureKeypoint) :=
  match kps with
  | [] => Some []
  | kp :: rest =>
      s ← scores !! i;
      fk ← filter_from (S i) rest scores config;
      if Qge_bool s (keypoint_threshold config) then
        if remove_borders config && outside_border (border_margin config) 640 480 kp
        then Some fk
        else Some (kp :: fk)
      else Some fk
  end.

(** The comparator reads [scores], the vector of the unfiltered input, at
    positions of the filtered vector. *)
Definition FilterKeypoints `{Platform} (keypoints : list FeatureKeypoint)
    (scores : list Q) (config : Config) : option (list FeatureKeypoint) :=
  filtered_keypoints ← filter_from 0 keypoints scores config;
  let indices :=
    std_sort (by_score_desc scores) (seq 0 (length filtered_keypoints)) in
  let num_keypoints :=
    Z.to_nat (Z.min (size_t_of_int (max_keypoints config))
                    (Z.of_nat (length indices))) in
  gather filtered_keypoints indices num_keypoints.

(** [desc / norm] where [norm > 0], the descriptor itself elsewhere; the
    norm and the quotient are those of the platform. *)
Definition NormalizeDescriptors `{Platform} (descriptors : list VectorXf)
  : list VectorXf :=
  List.map (fun desc =>
              let n := Eigen_norm desc in
              if Rlt_dec 0 n then vdiv desc n else desc)
           descriptors.

(** Placeholder of the source: every keypoint is returned. *)
Definition ApplySoftNMS (keypoints : list FeatureKeypoint) (scores : list Q)
    (config : Config) : list FeatureKeypoint :=
  keypoints.

Definition ExtractDenseKeypoints (image : Bitmap) (config : Config) : list Vector2f :=
  dense_grid 16 image.

(** [(width / 16) * (height / 16)] normalized random vectors; [first] is the
    number of calls of [Random] made before. *)
Definition ExtractDenseDescriptors `{Platform} (first : nat) (image : Bitmap)
    (config : Config) : list VectorXf :=
  let num_locations :=
    Z.to_nat (Z.quot (Width image) 16 * Z.quot (Height image) 16) in
  List.map (fun i => normalize (VectorXf_Random (descriptor_dim config) (first + i)))
           (seq 0 num_locations).

Definition ComputeSoftScores `{Platform} (descriptors : list VectorXf)
    (config : Config) : list R :=
  List.map (fun desc =>
              let score := Eigen_norm desc in
              if Rlt_dec score (Q2R (soft_threshold config)) then 0%R else score)
           descriptors.

Definition Detect `{Platform} (rnd : nat -> Z) (image : Bitmap) (config : Config)
    (self : Detector) : option Result :=
  if negb (loaded_ self) then Some empty_result
  else
    let dense_kps := ExtractDenseKeypoints image config in
    let dense_descs := ExtractDenseDescriptors 0 image config in
    let keypoints0 :=
      List.map (fun p : Vector2f =>
                  {| x := p.1; y := p.2; a11 := 1; a12 := 0; a21 := 0; a22 := 1 |})
               dense_kps in
    let scores0 :=
      List.map (fun i => dummy_score (1 # 2) (1 # 2) (rnd i))
               (seq 0 (length dense_kps)) in
    kept ← FilterKeypoints keypoints0 scores0 config;
    let kept := if use_nms config then ApplySoftNMS kept scores0 config else kept in
    let descs :=
      if compute_descriptors config
      then NormalizeDescriptors
             (List.map (fun i => normalize (VectorXf_Random (descriptor_dim config)
                                              (length dense_descs + i)))
                       (seq 0 (length kept)))
      else [] in
    Some {| keypoints := kept;
            descriptors := descs;
            scores := List.map (fun _ => (8 # 10)%Q) kept;
            soft_scores := ComputeSoftScores descs config;
            dense_keypoints := dense_kps;
            dense_descriptors := dense_descs |}.

End DISK.

(** ** SuperGlue ([superglue_matcher.h], [superglue_matcher.cc]) *)

Module SuperGlue.

Record Config : Type := {
  match_threshold : Q;
  max_keypoints : Z;
  use_mutual_check : bool;
  mutual_threshold : Q;
  use_ratio_test : bool;
  ratio_threshold : Q;
  sinkhorn_iterations : Z;
  sinkhorn_threshold : Q;
  use_superglue : bool;
  superglue_threshold : Q
}.

Definition default_config : Config := {|
  match_threshold := (2 # 10)%Q;
  max_keypoints := 1024;
  use_mutual_check := true;
  mutual_threshold := (8 # 10)%Q;
  use_ratio_test := false;
  ratio_threshold := (8 # 10)%Q;
  sinkhorn_iterations := 20;
  sinkhorn_threshold := (1 # 10000)%Q;
  use_superglue := true;
  superglue_threshold := (2 # 10)%Q
|}.

Record Result : Type := {
  matches : list (Z * Z);
  match_scores : list Q;
  mutual_matches : list bool;
  num_matches : Z;
  match_ratio : Q
}.

Definition empty_result : Result :=
  {| matches := []; match_scores := []; mutual_matches := [];
     num_matches := 0; match_ratio := 0 |}.

(** [init_calls] is a ghost counter of the runs of the loading block of
    [Load] (this class never calls an [InitializeModel]). *)
Record Matcher : Type := {
  loaded_ : bool;
  backend_ : MLBackend;
  device_ : MLDevice;
  config_ : Config;
  model_ptr_ : Z;
  init_calls : nat
}.

(** The constructor stores 1024 and 0.2, the values of the defaults. *)
Definition new : Matcher := {|
  loaded_ := false;
  backend_ := PYTORCH;
  device_ := CPU;
  config_ := default_config;
  model_ptr_ := 0;
  init_calls := 0
|}.

Definition Load (config : MLModelConfig) (self : Matcher) : outcome bool * Matcher :=
  if loaded_ self then (Normal true, self)
  else
    (Normal true,
     {| loaded_ := true;
        backend_ := backend_ self;
        device_ := device_ self;
        config_ := config_ self;
        model_ptr_ := model_ptr_ self;
        init_calls := S (init_calls self) |}).

(** Modelled from the spec: [SuperGlueMatcher::IsLoaded] is declared in the
    header and has no definition in [superglue_matcher.cc]; it reports the
    load state, as in the three sibling classes. *)
Definition IsLoaded (self : Matcher) : bool := loaded_ self.

Definition Unload (self : Matcher) : Matcher :=
  if negb (loaded_ self) then self
  else
    {| loaded_ := false;
       backend_ := backend_ self;
       device_ := device_ self;
       config_ := config_ self;
       model_ptr_ := model_ptr_ self;
       init_calls := init_calls self |}.

Definition Match (keypoints1 : list FeatureKeypoint) (descriptors1 : list VectorXf)
    (keypoints2 : list FeatureKeypoint) (descriptors2 : list VectorXf)
    (config : Config) (self : Matcher) : Result :=
  if negb (loaded_ self) then empty_result
  else if empty keypoints1 || empty keypoints2
          || empty descriptors1 || empty descriptors2
  then empty_result
  else
    let num := Nat.min (length keypoints1) (length keypoints2) in
    {| matches := List.map (fun i => (Z.of_nat i, Z.of_nat i)) (seq 0 num);
       match_scores := [];
       mutual_matches := [];
       num_matches := 0;
       match_ratio := 0 |}.

End SuperGlue.

(** ** LoFTR ([loftr_matcher.h], [loftr_matcher.cc]) *)

Module LoFTR.

Record Config : Type := {
  match_threshold : Q;
  max_keypoints : Z;
  use_mutual_check : bool;
  mutual_threshold : Q;
  coarse_window_size : Z;
  fine_window_size : Z;
  coarse_level : Z;
  fine_level : Z;
  coarse_threshold : Q;
  fine_threshold : Q;
  num_heads : Z;
  feature_dim : Z;
  use_positional_encoding : bool;
  temperature : Q
}.

Definition default_config : Config := {|
  match_threshold := (2 # 10)%Q;
  max_keypoints := 2048;
  use_mutual_check := true;
  mutual_threshold := (8 # 10)%Q;
  coarse_window_size := 8;
  fine_window_size := 2;
  coarse_level := 4;
  fine_level := 2;
  coarse_threshold := (2 # 10)%Q;
  fine_threshold := (1 # 10)%Q;
  num_heads := 8;
  feature_dim := 256;
  use_positional_encoding := true;
  temperature := (1 # 10)%Q
|}.

Definition with_parsed (mk : Z) (mt ct ft : Q) (c : Config) : Config :=
  {| match_threshold := mt;
     max_keypoints := mk;
     use_mutual_check := use_mutual_check c;
     mutual_threshold := mutual_threshold c;
     coarse_window_size := coarse_window_size c;
     fine_window_size := fine_window_size c;
     coarse_level := coarse_level c;
     fine_level := fine_level c;
     coarse_threshold := ct;
     fine_threshold := ft;
     num_heads := num_heads c;
     feature_dim := feature_dim c;
     use_positional_encoding := use_positional_encoding c;
     temperature := temperature c |}.

Definition with_max_keypoints (v : Z) (c : Config) : Config :=
  with_parsed v (match_threshold c) (coarse_threshold c) (fine_threshold c) c.

Definition with_match_threshold (v : Q) (c : Config) : Config :=
  with_parsed (max_keypoints c) v (coarse_threshold c) (fine_threshold c) c.

Definition with_coarse_threshold (v : Q) (c : Config) : Config :=
  with_parsed (max_keypoints c) (match_threshold c) v (fine_threshold c) c.

Definition with_fine_threshold (v : Q) (c : Config) : Config :=
  with_parsed (max_keypoints c) (match_threshold c) (coarse_threshold c) v c.

Record Result : Type := {
  matches : list (Z * Z);
  match_scores : list Q;
  mutual_matches : list bool;
  keypoints1 : list Vector2f;
  keypoints2 : list Vector2f;
  num_matches : Z;
  match_ratio : Q
}.

Definition empty_result : Result :=
  {| matches := []; match_scores := []; mutual_matches := [];
     keypoints1 := []; keypoints2 := []; num_matches := 0; match_ratio := 0 |}.

Record Matcher : Type := {
  loaded_ : bool;
  backend_ : MLBackend;
  device_ : MLDevice;
  config_ : Config;
  model_ptr_ : Z;
  init_calls : nat
}.

Definition new : Matcher := {|
  loaded_ := false;
  backend_ := PYTORCH;
  device_ := CPU;
  config_ := default_config;
  model_ptr_ := 0;
  init_calls := 0
|}.

Definition InitializeModel (self : Matcher) : bool * Matcher :=
  (true,
   {| loaded_ := loaded_ self;
      backend_ := backend_ self;
      device_ := device_ self;
      config_ := config_ self;
      model_ptr_ := 305419896;
      init_calls := S (init_calls self) |}).

Fixpoint store_parameters `{Platform} (params : list (string * string)) (c : Config)
  : outcome unit * Config :=
  match params with
  | [] => (Normal tt, c)
  | (key, value) :: rest =>
      if String.eqb key "max_keypoints" then
        match stoi value with
        | Normal v => store_parameters rest (with_max_keypoints v c)
        | Throws e => (Throws e, c)
        end
      else if String.eqb key "match_threshold" then
        match stof value with
        | Normal v => store_parameters rest (with_match_threshold v c)
        | Throws e => (Throws e, c)
        end
      else if String.eqb key "coarse_threshold" then
        match stof value with
        | Normal v => store_parameters rest (with_coarse_threshold v c)
        | Throws e => (Throws e, c)
        end
      else if String.eqb key "fine_threshold" then
        match stof value with
        | Normal v => store_parameters rest (with_fine_threshold v c)
        | Throws e => (Throws e, c)
        end
      else store_parameters rest c
  end.

Definition Load `{Platform} (config : MLModelConfig) (self : Matcher)
  : outcome bool * Matcher :=
  if loaded_ self then (Normal true, self)
  else
    let '(r, c) := store_parameters (parameters config) (config_ self) in
    let self1 :=
      {| loaded_ := loaded_ self;
         backend_ := backend config;
         device_ := device config;
         config_ := c;
         model_ptr_ := model_ptr_ self;
         init_calls := init_calls self |} in
    match r with
    | Throws e => (Throws e, self1)
    | Normal _ =>
        let '(success, self2) := InitializeModel self1 in
        if success then
          (Normal true,
           {| loaded_ := true;
              backend_ := backend_ self2;
              device_ := device_ self2;
              config_ := config_ self2;
              model_ptr_ := model_ptr_ self2;
              init_calls := init_calls self2 |})
        else (Normal false, self2)
    end.

Definition IsLoaded (self : Matcher) : bool := loaded_ self.

Definition Unload (self : Matcher) : Matcher :=
  if negb (loaded_ self) then self
  else
    {| loaded_ := false;
       backend_ := backend_ self;
       device_ := device_ self;
       config_ := config_ self;
       model_ptr_ := 0;
       init_calls := init_calls self |}.

(** The loop of [ApplyMutualCheck], from index [i] on: a pair is kept when
    its score reaches [mutual_threshold]. *)
Fixpoint mutual_from (i : nat) (ms : list (Z * Z)) (scores : list Q) (config : Config)
  : option (list (Z * Z)) :=
  match ms with
  | [] => Some []
  | m :: rest =>
      s ← scores !! i;
      kept ← mutual_from (S i) rest scores config;
      if Qge_bool s (mutual_threshold config) then Some (m :: kept) else Some kept
  end.

Definition ApplyMutualCheck (matches : list (Z * Z)) (scores : list Q) (config : Config)
  : option (list (Z * Z)) :=
  mutual_from 0 matches scores config.

Definition ExtractDenseKeypoints (image : Bitmap) (config : Config) : list Vector2f :=
  let keypoints := dense_grid 32 image in
  if (size_t_of_int (max_keypoints config) <? Z.of_nat (length keypoints))%Z
  then take (Z.to_nat (size_t_of_int (max_keypoints config))) keypoints
  else keypoints.

(** The threshold loop of [Match], from index [i] on, over the pairs [ms]
    and the score vector [scores] as they stand at that point. *)
Fixpoint threshold_from (i : nat) (ms : list (Z * Z)) (scores : list Q) (config : Config)
  : option (list (Z * Z) * list Q) :=
  match ms with
  | [] => Some ([], [])
  | m :: rest =>
      s ← scores !! i;
      '(fm, fs) ← threshold_from (S i) rest scores config;
      if Qge_bool s (match_threshold config) then Some (m :: fm, s :: fs)
      else Some (fm, fs)
  end.

Definition Match (rnd : nat -> Z) (image1 image2 : Bitmap) (config : Config)
    (self : Matcher) : option Result :=
  if negb (loaded_ self) then Some empty_result
  else
    let kps1 := ExtractDenseKeypoints image1 config in
    let kps2 := ExtractDenseKeypoints image2 config in
    let num := Nat.min (length kps1) (length kps2) in
    let matches0 := List.map (fun i => (Z.of_nat i, Z.of_nat i)) (seq 0 num) in
    let scores0 :=
      List.map (fun i => dummy_score (8 # 10) (2 # 10) (rnd i)) (seq 0 num) in
    matches1 ←
      (if use_mutual_check config then ApplyMutualCheck matches0 scores0 config
       else Some matches0);
    '(filtered_matches, filtered_scores) ← threshold_from 0 matches1 scores0 config;
    let n := Z.of_nat (length filtered_matches) in
    Some {| matches := filtered_matches;
            match_scores := filtered_scores;
            mutual_matches := [];
            keypoints1 := kps1;
            keypoints2 := kps2;
            num_matches := n;
            match_ratio :=
              if 0 <? length kps1 then (inject_Z n / inject_Z (Z.of_nat (length kps1)))%Q
              else 0%Q |}.

End LoFTR.

(** ** The [MLModel] interface

    The class hierarchy as a tagged variant; the functions below are the
    virtual calls. *)

Inductive MLModel : Type :=
| SuperPointDetector (d : SuperPoint.Detector)
| SuperGlueMatcher (m : SuperGlue.Matcher)
| LoFTRMatcher (m : LoFTR.Matcher)
| DISKDetector (d : DISK.Detector).

Definition Model_Load `{Platform} (config : MLModelConfig) (model : MLModel)
  : outcome bool * MLModel :=
  match model with
  | SuperPointDetector d =>
      let '(r, d') := SuperPoint.Load config d in (r, SuperPointDetector d')
  | SuperGlueMatcher m =>
      let '(r, m') := SuperGlue.Load config m in (r, SuperGlueMatcher m')
  | LoFTRMatcher m =>
      let '(r, m') := LoFTR.Load config m in (r, LoFTRMatcher m')
  | DISKDetector d =>
      let '(r, d') := DISK.Load config d in (r, DISKDetector d')
  end.

Definition Model_IsLoaded (model : MLModel) : bool :=
  match model with
  | SuperPointDetector d => SuperPoint.IsLoaded d
  | SuperGlueMatcher m => SuperGlue.IsLoaded m
  | LoFTRMatcher m => LoFTR.IsLoaded m
  | DISKDetector d => DISK.IsLoaded d
  end.

Definition Model_Unload (model : MLModel) : MLModel :=
  match model with
  | SuperPointDetector d => SuperPointDetector (SuperPoint.Unload d)
  | SuperGlueMatcher m => SuperGlueMatcher (SuperGlue.Unload m)
  | LoFTRMatcher m => LoFTRMatcher (LoFTR.Unload m)
  | DISKDetector d => DISKDetector (DISK.Unload d)
  end.

Definition Model_GetType (model : MLModel) : MLModelType :=
  match model with
  | SuperPointDetector _ => SUPERPONT_DETECTOR
  | SuperGlueMatcher _ => SUPERGLUE_MATCHER
  | LoFTRMatcher _ => LOFTR_MATCHER
  | DISKDetector _ => DISK_DETECTOR
  end.

Definition Model_GetName (model : MLModel) : string :=
  match model with
  | SuperPointDetector _ => "SuperPoint"
  | SuperGlueMatcher _ => "SuperGlue"
  | LoFTRMatcher _ => "LoFTR"
  | DISKDetector _ => "DISK"
  end.

(** Ghost: how often the model-specific initialization has run. *)
Definition Model_init_calls (model : MLModel) : nat :=
  match model with
  | SuperPointDetector d => SuperPoint.init_calls d
  | SuperGlueMatcher m => SuperGlue.init_calls m
  | LoFTRMatcher m => LoFTR.init_calls m
  | DISKDetector d => DISK.init_calls d
  end.

(** ** The registry ([ml_manager.h], [ml_manager.cc])

    A [std::shared_ptr<MLModel>] is the address of a model object, or
    [None] when empty; the objects live in a store next to the manager, so
    that two names bound to one object see the same load state. *)

Abbreviation address := nat (only parsing).
Abbreviation shared_ptr := (option address) (only parsing).

Record MLManager : Type := {
  models_ : gmap string (option address);
  model_type_map_ : gmap MLModelType string;
  cache_directory_ : string;
  download_enabled_ : bool;
  default_device_ : MLDevice
}.

(** The state of [MLManager::Instance()] on first access. *)
Definition MLManager_Instance : MLManager := {|
  models_ := ∅;
  model_type_map_ := ∅;
  cache_directory_ := "";
  download_enabled_ := true;
  default_device_ := CPU
|}.

Record World : Type := {
  objects : gmap address MLModel;
  manager : MLManager
}.

Definition with_manager (m : MLManager) (w : World) : World :=
  {| objects := objects w; manager := m |}.

Definition with_object (p : address) (o : MLModel) (w : World) : World :=
  {| objects := <[p := o]> (objects w); manager := manager w |}.

(** [None] only for an address with no object behind it, which a
    [shared_ptr] never holds. *)
Definition RegisterModel (name : string) (model : shared_ptr) (w : World)
  : option (bool * World) :=
  match model with
  | None => Some (false, w)
  | Some p =>
      obj ← objects w !! p;
      let m := manager w in
      Some (true,
            with_manager
              {| models_ := <[name := model]> (models_ m);
                 model_type_map_ := <[Model_GetType obj := name]> (model_type_map_ m);
                 cache_directory_ := cache_directory_ m;
                 download_enabled_ := download_enabled_ m;
                 default_device_ := default_device_ m |}
              w)
  end.

Definition GetModel (name : string) (m : MLManager) : shared_ptr :=
  match models_ m !! name with
  | None => None
  | Some it => it
  end.

Definition GetModel_by_type (type : MLModelType) (m : MLManager) : shared_ptr :=
  match model_type_map_ m !! type with
  | None => None
  | Some name => GetModel name m
  end.

Definition LoadModel `{Platform} (name : string) (config : MLModelConfig) (w : World)
  : option (outcome bool * World) :=
  match GetModel name (manager w) with
  | None => Some (Normal false, w)
  | Some p =>
      obj ← objects w !! p;
      if Model_IsLoaded obj then Some (Normal true, w)
      else
        let '(success, obj') := Model_Load config obj in
        Some (success, with_object p obj' w)
  end.

Definition UnloadModel (name : string) (w : World) : option (bool * World) :=
  match GetModel name (manager w) with
  | None => Some (false, w)
  | Some p =>
      obj ← objects w !! p;
      if negb (Model_IsLoaded obj) then Some (true, w)
      else Some (true, with_object p (Model_Unload obj) w)
  end.

Definition unload_entry (name : string) (model : option address)
    (acc : option (gmap address MLModel)) : option (gmap address MLModel) :=
  objs ← acc;
  match model with
  | None => Some objs
  | Some p =>
      obj ← objs !! p;
      if Model_IsLoaded obj then Some (<[p := Model_Unload obj]> objs) else Some objs
  end.

Definition UnloadAllModels (w : World) : option World :=
  objs ← map_fold unload_entry (Some (objects w)) (models_ (manager w));
  Some {| objects := objs; manager := manager w |}.

Definition IsModelLoaded (name : string) (w : World) : option bool :=
  match models_ (manager w) !! name with
  | None => Some false
  | Some None => Some false
  | Some (Some p) => obj ← objects w !! p; Some (Model_IsLoaded obj)
  end.

Definition IsModelTypeAvailable (type : MLModelType) (m : MLManager) : bool :=
  bool_decide (is_Some (model_type_map_ m !! type)).

(** [devices = {CPU}; devices.push_back(CUDA)] *)
Definition GetAvailableDevices (m : MLManager) : list MLDevice :=
  [CPU] ++ [CUDA].

(** [std::find(devices.begin(), devices.end(), device) != devices.end()] *)
Definition IsDeviceAvailable (device : MLDevice) (m : MLManager) : bool :=
  existsb (fun d => bool_decide (d = device)) (GetAvailableDevices m).

Definition SetDefaultDevice (device : MLDevice) (m : MLManager) : MLManager :=
  if IsDeviceAvailable device m then
    {| models_ := models_ m;
       model_type_map_ := model_type_map_ m;
       cache_directory_ := cache_directory_ m;
       download_enabled_ := download_enabled_ m;
       default_device_ := device |}
  else m.

Definition GetDefaultDevice (m : MLManager) : MLDevice := default_device_ m.

(** A run of registrations, as a caller would issue them. *)
Fixpoint register_all (regs : list (string * shared_ptr)) (w : World) : option World :=
  match regs with
  | [] => Some w
  | (name, model) :: rest =>
      '(_, w') ← RegisterModel name model w;
      register_all rest w'
  end.

(** ** A platform to evaluate on

    [stof_decimal] covers the plain decimal inputs of [strtof]
    (sign, digits, an optional fraction); the sort is straight insertion;
    [Random] gives the vector of ones. *)

Fixpoint read_fraction (s : string) (num den : Z) : Z * Z :=
  match s with
  | String c r =>
      match digit_of c with
      | Some d => read_fraction r (10 * num + d)%Z (10 * den)%Z
      | None => (num, den)
      end
  | EmptyString => (num, den)
  end.

Fixpoint after_digits (s : string) : string :=
  match s with
  | String c r => match digit_of c with Some _ => after_digits r | None => s end
  | EmptyString => s
  end.

Definition stof_decimal (s : string) : outcome Q :=
  let s1 := skip_spaces s in
  let '(neg, s2) :=
    match s1 with
    | String "-"%char r => (true, r)
    | String "+"%char r => (false, r)
    | _ => (false, s1)
    end in
  match read_digits s2 None with
  | None => Throws invalid_argument
  | Some n =>
      let '(num, den) :=
        match after_digits s2 with
        | String "."%char r => read_fraction r n 1
        | _ => (n, 1%Z)
        end in
      let q := Qmake num (Z.to_pos den) in
      Normal (if (neg : bool) then Qopp q else q)
  end.

(** The Euclidean norm in exact arithmetic. *)
Definition squaredNorm (v : VectorXf) : R :=
  fold_right (fun c acc => (c * c + acc)%R) 0%R v.

Definition norm (v : VectorXf) : R := sqrt (squaredNorm v).

(** A platform to evaluate the model on: decimal [stof], a stable sort,
    constant random vectors and arithmetic without rounding. *)
Definition reference_platform : Platform := {|
  stof := stof_decimal;
  std_sort := insertion_sort;
  VectorXf_Random := fun dim _ => repeat 1%R (Z.to_nat dim);
  Eigen_norm := norm;
  float_div := Rdiv
|}.

(** ** Inputs used to evaluate the model *)

(** Two model objects at addresses 0 and 1 and a fresh registry. *)
Definition two_models : gmap address MLModel :=
  <[0 := SuperPointDetector SuperPoint.new]>
    (<[1 := SuperGlueMatcher SuperGlue.new]> ∅).

Definition fresh_world : World :=
  {| objects := two_models; manager := MLManager_Instance |}.

Definition registered_world : World :=
  default fresh_world
    (register_all [("superpoint"%string, Some 0); ("superglue"%string, Some 1)]
       fresh_world).

(** The configuration of [test_ml_manager.cc], with the given parameters. *)
Definition config_with (params : list (string * string)) : MLModelConfig := {|
  model_path := "dummy_model.pth";
  backend := PYTORCH;
  device := CPU;
  use_fp16 := false;
  batch_size := 1;
  confidence_threshold := (1 # 2)%Q;
  parameters := params
|}.

Definition malformed_config : MLModelConfig :=
  config_with [("max_keypoints"%string, "abc"%string)].

(** A value that does not convert under a key SuperPoint does not read. *)
Definition descriptor_dim_config : MLModelConfig :=
  config_with [("max_keypoints"%string, "512"%string);
               ("descriptor_dim"%string, "abc"%string)].

Definition numeric_config : MLModelConfig :=
  config_with [("max_keypoints"%string, "512"%string);
               ("keypoint_threshold"%string, "0.01"%string);
               ("verbose"%string, "yes"%string)].

(** ** Well-formed parameter values

    The keys some [Load] hands to [std::stoi], respectively [std::stof],
    and the configurations in which each such value converts. *)

Definition int_parameter (key : string) : bool :=
  String.eqb key "max_keypoints" || String.eqb key "descriptor_dim".

Definition float_parameter (key : string) : bool :=
  String.eqb key "keypoint_threshold" || String.eqb key "nms_radius"
  || String.eqb key "match_threshold" || String.eqb key "coarse_threshold"
  || String.eqb key "fine_threshold".

Definition parameter_parses `{Platform} (kv : string * string) : Prop :=
  (int_parameter kv.1 = true -> returns_normally (stoi kv.2))
  /\ (float_parameter kv.1 = true -> returns_normally (stof kv.2)).

Definition well_formed_parameters `{Platform} (config : MLModelConfig) : Prop :=
  Forall parameter_parses (parameters config).

(** ** Notions used to state the properties *)

(** The test of the first loop of [FilterKeypoints] as one predicate: the
    score reaches the threshold and, with border removal on, the keypoint
    lies in the box [margin <= x < width - margin],
    [margin <= y < height - margin]. *)
Definition accepts (threshold : Q) (borders : bool) (margin width height : Z)
    (p : FeatureKeypoint * Q) : bool :=
  Qge_bool p.2 threshold && negb (borders && outside_border margin width height p.1).

(** The keypoints, with their scores, that pass [accepts], in input order. *)
Definition survivors (threshold : Q) (borders : bool) (margin width height : Z)
    (keypoints : list FeatureKeypoint) (scores : list Q) : list (FeatureKeypoint * Q) :=
  List.filter (accepts threshold borders margin width height) (zip keypoints scores).

(** The box of the border rule, for the dimensions [width] and [height]. *)
Definition inside_border (margin width height : Z) (kp : FeatureKeypoint) : Prop :=
  (inject_Z margin <= x kp)%Q /\ (x kp < inject_Z (width - margin))%Q
  /\ (inject_Z margin <= y kp)%Q /\ (y kp < inject_Z (height - margin))%Q.

(** Squared Euclidean pixel distance of two keypoints. *)
Definition squared_distance (k1 k2 : FeatureKeypoint) : Q :=
  ((x k1 - x k2) * (x k1 - x k2) + (y k1 - y k2) * (y k1 - y k2))%Q.

Definition keypoint_at (px py : Z) : FeatureKeypoint :=
  {| x := inject_Z px; y := inject_Z py; a11 := 1; a12 := 0; a21 := 0; a22 := 1 |}.

Definition loaded_superpoint : SuperPoint.Detector :=
  (@SuperPoint.Load reference_platform (config_with []) SuperPoint.new).2.

Definition loaded_disk : DISK.Detector :=
  (@DISK.Load reference_platform (config_with []) DISK.new).2.

Definition loaded_superglue : SuperGlue.Matcher :=
  (SuperGlue.Load (config_with []) SuperGlue.new).2.

Definition loaded_loftr : LoFTR.Matcher :=
  (@LoFTR.Load reference_platform (config_with []) LoFTR.new).2.

(** A 320 x 240 image on which [rand()] places one keypoint at (318, 100),
    two pixels from the right edge, and a 1280 x 960 image on which it
    places one at (700, 500), far from every edge. *)
Definition small_image : Bitmap := {| Width := 320; Height := 240 |}.
Definition large_image : Bitmap := {| Width := 1280; Height := 960 |}.

Definition edge_stream (k : nat) : Z :=
  match k with 0 => 318%Z | 1 => 100%Z | _ => 0%Z end.

Definition centre_stream (k : nat) : Z :=
  match k with 0 => 700%Z | 1 => 500%Z | _ => 0%Z end.

Definition edge_keypoint : FeatureKeypoint := keypoint_at 318 100.
Definition centre_keypoint : FeatureKeypoint := keypoint_at 700 500.

Definition one_keypoint : SuperPoint.Config :=
  SuperPoint.with_max_keypoints 1 SuperPoint.default_config.

(** A 640 x 480 image on which [rand()] places two keypoints one pixel
    apart, (10, 10) and (11, 10), and an 8 x 8 image for the grid of DISK. *)
Definition vga_image : Bitmap := {| Width := 640; Height := 480 |}.
Definition tiny_image : Bitmap := {| Width := 8; Height := 8 |}.

Definition near_stream (k : nat) : Z :=
  match k with 0 => 10%Z | 1 => 10%Z | 3 => 11%Z | 4 => 10%Z | _ => 0%Z end.

Definition zero_stream (k : nat) : Z := 0%Z.

Definition two_keypoints : SuperPoint.Config :=
  SuperPoint.with_max_keypoints 2 SuperPoint.default_config.

(** Three keypoints of which the first fails the threshold 0.5, and the
    configurations that keep the single best survivor. *)
Definition three_keypoints : list FeatureKeypoint :=
  [keypoint_at 10 10; keypoint_at 20 20; keypoint_at 30 30].

Definition three_scores : list Q := [(1 # 10)%Q; (9 # 10)%Q; (6 # 10)%Q].

Definition superpoint_best : SuperPoint.Config :=
  SuperPoint.with_max_keypoints 1
    (SuperPoint.with_keypoint_threshold (1 # 2) SuperPoint.default_config).

Definition disk_best : DISK.Config :=
  DISK.with_max_keypoints 1
    (DISK.with_keypoint_threshold (1 # 2) DISK.default_config).




(** The candidate pairs [Match] hands to [ApplyMutualCheck]:
    (0,0), ..., (n-1,n-1). *)
Definition diagonal (n : nat) : list (Z * Z) :=
  List.map (fun i => (Z.of_nat i, Z.of_nat i)) (seq 0 n).


(** A LoFTR configuration with [mutual_threshold = 0.85], a 4 x 3 image
    (two grid points) and a [rand()] stream giving the scores 0.8 and 0.9. *)
Definition strict_mutual : LoFTR.Config := {|
  LoFTR.match_threshold := (2 # 10)%Q;
  LoFTR.max_keypoints := 2048;
  LoFTR.use_mutual_check := true;
  LoFTR.mutual_threshold := (85 # 100)%Q;
  LoFTR.coarse_window_size := 8;
  LoFTR.fine_window_size := 2;
  LoFTR.coarse_level := 4;
  LoFTR.fine_level := 2;
  LoFTR.coarse_threshold := (2 # 10)%Q;
  LoFTR.fine_threshold := (1 # 10)%Q;
  LoFTR.num_heads := 8;
  LoFTR.feature_dim := 256;
  LoFTR.use_positional_encoding := true;
  LoFTR.temperature := (1 # 10)%Q
|}.

Definition strip_image : Bitmap := {| Width := 4; Height := 3 |}.

Definition pair_stream (k : nat) : Z :=
  match k with 1 => 50%Z | _ => 0%Z end.

Definition unit_descriptor : VectorXf := [1%R].

(** The descriptor (3, 4) and the zero descriptor. *)
Definition sample_descriptors : list VectorXf := [[3%R; 4%R]; [0%R; 0%R]].

(** ** Proof automation *)

(** One branch of a [store_parameters] loop whose value converts. *)
Ltac parse_step Hkv IH :=
  match goal with
  | |- context [String.eqb ?k ?lit] =>
      let E := fresh "E" in
      destruct (String.eqb k lit) eqn:E;
      [ let Hp := fresh "Hp" in
        first
          [ destruct (proj1 Hkv) as [? Hp];
            [ unfold int_parameter; simpl; rewrite E; simpl;
              rewrite ?orb_true_r; reflexivity
            | simpl in Hp; rewrite Hp; apply IH ]
          | destruct (proj2 Hkv) as [? Hp];
            [ unfold float_parameter; simpl; rewrite E; simpl;
              rewrite ?orb_true_r; reflexivity
            | simpl in Hp; rewrite Hp; apply IH ] ]
      | ]
  end.

(** [Load] on an unloaded, respectively a loaded, object. *)
Ltac load_twice Hok :=
  match goal with
  | |- context [if ?b then _ else _] =>
      let E := fresh "E" in
      destruct b eqn:E;
      [ eexists; split; [reflexivity|]; rewrite E;
        repeat split; auto with arith
      | destruct Hok as [c' Hc]; rewrite Hc; simpl;
        eexists; split; [reflexivity|]; simpl;
        repeat split; auto; lia ]
  end.

Ltac load_again Hl :=
  rewrite Hl; eexists; split; [reflexivity|]; rewrite Hl;
  repeat split; auto with arith.


(** ** Further parts of the interface and the registry *)

Definition Model_GetBackend (model : MLModel) : MLBackend :=
  match model with
  | SuperPointDetector d => SuperPoint.backend_ d
  | SuperGlueMatcher m => SuperGlue.backend_ m
  | LoFTRMatcher m => LoFTR.backend_ m
  | DISKDetector d => DISK.backend_ d
  end.

Definition Model_GetDevice (model : MLModel) : MLDevice :=
  match model with
  | SuperPointDetector d => SuperPoint.device_ d
  | SuperGlueMatcher m => SuperGlue.device_ m
  | LoFTRMatcher m => LoFTR.device_ m
  | DISKDetector d => DISK.device_ d
  end.

(** The names, in the order the iteration over [models_] visits them. *)
Definition GetAvailableModels (m : MLManager) : list string :=
  (map_to_list (models_ m)).*1.

Definition GetAvailableModelTypes (m : MLManager) : list MLModelType :=
  (map_to_list (model_type_map_ m)).*1.

(** Some name of the table is bound to the address [q]. *)
Definition bound_address (table : gmap string (option address)) (q : address) : Prop :=
  exists name, table !! name = Some (Some q).

(** Every address the table holds has an object behind it. *)
Definition all_live (table : gmap string (option address))
    (objs : gmap address MLModel) : Prop :=
  forall name p, table !! name = Some (Some p) -> is_Some (objs !! p).

(** No name of the table is bound to an empty pointer. *)
Definition no_empty_binding (table : gmap string (option address)) : Prop :=
  forall name, table !! name <> Some None.

(** Two SuperPoint detectors, one of them loaded, and a fresh registry. *)
Definition twin_world : World :=
  {| objects :=
       <[0 := SuperPointDetector SuperPoint.new]>
         (<[1 := SuperPointDetector loaded_superpoint]> ∅);
     manager := MLManager_Instance |}.

(** The registered world after one more name for the first model and an
    attempt to register an empty pointer. *)
Definition aliased_registry : World :=
  default fresh_world
    (register_all [("features"%string, Some 0); ("nothing"%string, None)]
       registered_world).

(** One model object registered under two names. *)
Definition aliased_world : World :=
  default fresh_world
    (register_all [("detector"%string, Some 0); ("features"%string, Some 0)]
       fresh_world).

(** A world in which both registered models are loaded. *)
Definition loaded_world : World :=
  {| objects :=
       <[0 := SuperPointDetector loaded_superpoint]>
         (<[1 := SuperGlueMatcher loaded_superglue]> ∅);
     manager := manager registered_world |}.

(** Two models of one class hold the same configuration. *)
Definition Model_same_config (a b : MLModel) : Prop :=
  match a, b with
  | SuperPointDetector x, SuperPointDetector y => SuperPoint.config_ x = SuperPoint.config_ y
  | SuperGlueMatcher x, SuperGlueMatcher y => SuperGlue.config_ x = SuperGlue.config_ y
  | LoFTRMatcher x, LoFTRMatcher y => LoFTR.config_ x = LoFTR.config_ y
  | DISKDetector x, DISKDetector y => DISK.config_ x = DISK.config_ y
  | _, _ => False
  end.

(** The value bound to [key] in a parameter sequence. *)
Fixpoint parameter (key : string) (params : list (string * string)) : option string :=
  match params with
  | [] => None
  | (k, v) :: rest => if String.eqb k key then Some v else parameter key rest
  end.

(** A configuration whose second parameter does not convert. *)
Definition half_malformed_config : MLModelConfig := {|
  model_path := "dummy_model.pth";
  backend := ONNX;
  device := CUDA;
  use_fp16 := false;
  batch_size := 1;
  confidence_threshold := (1 # 2)%Q;
  parameters := [("max_keypoints"%string, "64"%string);
                 ("keypoint_threshold"%string, "high"%string)]
|}.

(** A configuration with parameters no model reads. *)
Definition foreign_config : MLModelConfig :=
  config_with [("verbose"%string, "yes"%string); ("seed"%string, "abc"%string)].

(** SuperPoint and DISK configurations that filter and cap alike. *)
Definition same_filter (sc : SuperPoint.Config) (dc : DISK.Config) : Prop :=
  SuperPoint.keypoint_threshold sc = DISK.keypoint_threshold dc
  /\ SuperPoint.remove_borders sc = DISK.remove_borders dc
  /\ SuperPoint.border_margin sc = DISK.border_margin dc
  /\ SuperPoint.max_keypoints sc = DISK.max_keypoints dc.


(** A keypoint has integer coordinates inside a [width] x [height] image
    and the identity shape. *)
Definition pixel_of_image (width height : Z) (kp : FeatureKeypoint) : Prop :=
  exists px py : Z,
    (0 <= px < width)%Z /\ (0 <= py < height)%Z /\ kp = keypoint_at px py.

Definition empty_image : Bitmap := {| Width := 0; Height := 480 |}.


(** ** The tensor side of DISK and LoFTR

    [PreprocessImage], [PreprocessImages] and [PostprocessOutput] of
    [disk_detector.cc] and [loftr_matcher.cc].  A [std::vector<float>] is a
    list of rationals; [operator[]] out of range is undefined. *)

Module Tensor.

(** [BitmapColor<uint8_t>] *)
Record BitmapColor : Type := {
  r : Z;
  g : Z;
  b : Z
}.

(** The pixel data of a bitmap: what [image.GetPixel(x, y, &color)] leaves
    in [color]. *)
Class PixelData : Type := {
  GetPixel : Bitmap -> Z -> Z -> BitmapColor
}.

(** [v.resize(n)]: the first [n] elements are kept, new ones are zero. *)
Definition resize (n : nat) (v : list Q) : list Q :=
  take n v ++ replicate (n - length v) 0%Q.

(** [v[idx] = c] *)
Definition store (idx : Z) (c : Q) (v : list Q) : option (list Q) :=
  if ((0 <=? idx) && (idx <? Z.of_nat (length v)))%Z
  then Some (<[Z.to_nat idx := c]> v)
  else None.

(** [for (int i = 0; i < n; ++i) body] over a state that may become undefined. *)
Fixpoint for_each {S : Type} (body : nat -> S -> option S) (l : list nat) (s : S)
  : option S :=
  match l with
  | [] => Some s
  | i :: rest => s' ← body i s; for_each body rest s'
  end.

(** The body of the inner loop. *)
Definition write_pixel `{PixelData} (image : Bitmap) (width y x : Z) (tensor : list Q)
  : option (list Q) :=
  let color := GetPixel image x y in
  let idx := ((y * width + x) * 3)%Z in
  t ← store idx (inject_Z (r color) / 255)%Q tensor;
  t ← store (idx + 1) (inject_Z (g color) / 255)%Q t;
  store (idx + 2) (inject_Z (b color) / 255)%Q t.

(** The two nested loops over [y] and [x]. *)
Definition fill_pixels `{PixelData} (image : Bitmap) (tensor : list Q)
  : option (list Q) :=
  let width := Width image in
  let height := Height image in
  for_each (fun y t =>
              for_each (fun x t => write_pixel image width (Z.of_nat y) (Z.of_nat x) t)
                       (seq 0 (Z.to_nat width)) t)
           (seq 0 (Z.to_nat height)) tensor.

(** [input_tensor.resize(width * height * channels)] *)
Definition resize_for (image : Bitmap) (tensor : list Q) : list Q :=
  resize (Z.to_nat (size_t_of_int (Width image * Height image * 3))) tensor.

Definition DISK_PreprocessImage `{PixelData} (image : Bitmap) (input_tensor : list Q)
  : option (bool * list Q) :=
  t ← fill_pixels image (resize_for image input_tensor);
  Some (true, t).

Definition LoFTR_PreprocessImages `{PixelData} (image1 image2 : Bitmap)
    (input_tensor1 input_tensor2 : list Q) : option (bool * list Q * list Q) :=
  let tensor1 := resize_for image1 input_tensor1 in
  let tensor2 := resize_for image2 input_tensor2 in
  t1 ← fill_pixels image1 tensor1;
  t2 ← fill_pixels image2 tensor2;
  Some (true, t1, t2).

(** [std::min(static_cast<size_t>(config.max_keypoints), static_cast<size_t>(1000))] *)
Definition placeholder_count (max_keypoints : Z) : nat :=
  Z.to_nat (Z.min (size_t_of_int max_keypoints) (size_t_of_int 1000)).

(** [output_tensor] is not read; two calls of [rand()] for each keypoint. *)
Definition DISK_PostprocessOutput `{Platform} (rnd : nat -> Z) (output_tensor : list Q)
    (config : DISK.Config) (result : DISK.Result) : bool * DISK.Result :=
  let num_keypoints := placeholder_count (DISK.max_keypoints config) in
  let keypoints :=
    List.map (fun i => {| x := inject_Z (Z.rem (rnd (2 * i)) 640);
                          y := inject_Z (Z.rem (rnd (2 * i + 1)) 480);
                          a11 := 1; a12 := 0; a21 := 0; a22 := 1 |})
             (seq 0 num_keypoints) in
  let descriptors :=
    if DISK.compute_descriptors config
    then List.map (fun i => normalize (VectorXf_Random (DISK.descriptor_dim config) i))
                  (seq 0 (length keypoints))
    else [] in
  (true,
   {| DISK.keypoints := keypoints;
      DISK.descriptors := descriptors;
      DISK.scores := DISK.scores result;
      DISK.soft_scores := DISK.soft_scores result;
      DISK.dense_keypoints := DISK.dense_keypoints result;
      DISK.dense_descriptors := DISK.dense_descriptors result |}).

(** [output_tensor] is not read; one call of [rand()] for each match. *)
Definition LoFTR_PostprocessOutput (rnd : nat -> Z) (output_tensor : list Q)
    (config : LoFTR.Config) (result : LoFTR.Result) : bool * LoFTR.Result :=
  let num_matches := placeholder_count (LoFTR.max_keypoints config) in
  (true,
   {| LoFTR.matches :=
        List.map (fun i => (Z.of_nat i, Z.of_nat i)) (seq 0 num_matches);
      LoFTR.match_scores :=
        List.map (fun i => dummy_score (7 # 10) (3 # 10) (rnd i)) (seq 0 num_matches);
      LoFTR.mutual_matches := LoFTR.mutual_matches result;
      LoFTR.keypoints1 := LoFTR.keypoints1 result;
      LoFTR.keypoints2 := LoFTR.keypoints2 result;
      LoFTR.num_matches := LoFTR.num_matches result;
      LoFTR.match_ratio := LoFTR.match_ratio result |}).

(** What [PreprocessImage] must have written for the pixel [(x, y)]. *)
Definition pixel_written `{PixelData} (image : Bitmap) (tensor : list Q) (y x : Z)
  : Prop :=
  let color := GetPixel image x y in
  let idx := Z.to_nat ((y * Width image + x) * 3) in
  tensor !! idx = Some (inject_Z (r color) / 255)%Q
  /\ tensor !! (idx + 1) = Some (inject_Z (g color) / 255)%Q
  /\ tensor !! (idx + 2) = Some (inject_Z (b color) / 255)%Q.

(** The same by the number [p] of the pixel, rows counted first. *)
Definition holds_pixel (tensor : list Q) (p : nat) (color : BitmapColor) : Prop :=
  tensor !! (3 * p) = Some (inject_Z (r color) / 255)%Q
  /\ tensor !! (3 * p + 1) = Some (inject_Z (g color) / 255)%Q
  /\ tensor !! (3 * p + 2) = Some (inject_Z (b color) / 255)%Q.

(** Every channel of every pixel of the image is an 8-bit value. *)
Definition eight_bit `{PixelData} (image : Bitmap) : Prop :=
  forall x y,
    (0 <= x < Width image)%Z -> (0 <= y < Height image)%Z ->
    (0 <= r (GetPixel image x y) <= 255)%Z
    /\ (0 <= g (GetPixel image x y) <= 255)%Z
    /\ (0 <= b (GetPixel image x y) <= 255)%Z.

(** The dimensions of a bitmap are not negative, and the number of tensor
    entries is an [int]. *)
Definition well_sized (image : Bitmap) : Prop :=
  (0 <= Width image)%Z /\ (0 <= Height image)%Z
  /\ (Width image * Height image * 3 <= INT_MAX)%Z.

Definition channel (c : nat) (color : BitmapColor) : Z :=
  match c with
  | 0 => r color
  | 1 => g color
  | _ => b color
  end.

(** Entry [i] of the interleaved layout: channel [i mod 3] of the pixel
    number [i / 3], pixels counted row by row. *)
Definition interleaved `{PixelData} (image : Bitmap) (i : nat) : Q :=
  let pixel := i / 3 in
  let w := Z.to_nat (Width image) in
  let color := GetPixel image (Z.of_nat (pixel mod w)) (Z.of_nat (pixel / w)) in
  (inject_Z (channel (i mod 3) color) / 255)%Q.

Definition interleaved_tensor `{PixelData} (image : Bitmap) : list Q :=
  List.map (interleaved image)
           (seq 0 (Z.to_nat (Width image * Height image * 3))).

(** The outcome of the placeholder count for an [int] cap. *)
Definition capped_count (max_keypoints : Z) : nat :=
  if ((0 <=? max_keypoints) && (max_keypoints <=? 1000))%Z
  then Z.to_nat max_keypoints
  else 1000.

Definition two_by_two : Bitmap := {| Width := 2; Height := 2 |}.

(** A 2 x 2 test card. *)
Definition test_card : PixelData := {|
  GetPixel := fun _ x y => {| r := 255 * x; g := 255 * y; b := 51 * (x + y) |}
|}.

End Tensor.
(** * Properties *)

(** ** The library models on sample inputs *)

Example stoi_plain : stoi "512" = Normal 512%Z.
Proof. reflexivity. Qed.

Example stoi_prefix : stoi "  -12abc" = Normal (-12)%Z.
Proof. reflexivity. Qed.

Example stoi_no_digit : stoi "abc" = Throws invalid_argument.
Proof. reflexivity. Qed.

Example stoi_empty : stoi "" = Throws invalid_argument.
Proof. reflexivity. Qed.

Example stoi_too_large : stoi "2147483648" = Throws out_of_range.
Proof. reflexivity. Qed.

Example stoi_int_max : stoi "2147483647" = Normal INT_MAX.
Proof. reflexivity. Qed.

Example stof_decimal_fraction : stof_decimal "0.01" = Normal (1 # 100)%Q.
Proof. reflexivity. Qed.

Example insertion_sort_ties :
  insertion_sort (by_score_desc [(1 # 2)%Q; (9 # 10)%Q; (1 # 2)%Q; (9 # 10)%Q])
    [0; 1; 2; 3]
  = [1; 3; 0; 2].
Proof. reflexivity. Qed.

Example size_t_of_negative : size_t_of_int (-1) = 18446744073709551615%Z.
Proof. reflexivity. Qed.

Example dense_grid_strip :
  dense_grid 32 strip_image = [(inject_Z 1, inject_Z 1); (inject_Z 2, inject_Z 1)].
Proof. reflexivity. Qed.

(** The grid loops stop by their test: any fuel from the distance to the
    bound on gives the same line. *)
Lemma grid_line_fuel step bound :
  (1 <= step)%Z ->
  forall f1 f2 v,
    Z.to_nat (bound - v) <= f1 -> Z.to_nat (bound - v) <= f2 ->
    grid_line f1 v step bound = grid_line f2 v step bound.
Proof.
  intros Hstep. induction f1 as [|f1 IH]; intros f2 v H1 H2.
  - destruct f2 as [|f2]; simpl; [reflexivity|].
    destruct (Z.ltb_spec v bound); [lia|reflexivity].
  - destruct f2 as [|f2]; simpl.
    + destruct (Z.ltb_spec v bound); [lia|reflexivity].
    + destruct (Z.ltb_spec v bound); [|reflexivity].
      f_equal. apply IH; lia.
Qed.

Lemma dense_grid_fuel divisor image extra :
  let step := grid_step divisor image in
  grid_line (Z.to_nat (Width image) + extra) step step (Width image - step)
  = grid_line (Z.to_nat (Width image)) step step (Width image - step)
  /\ grid_line (Z.to_nat (Height image) + extra) step step (Height image - step)
     = grid_line (Z.to_nat (Height image)) step step (Height image - step).
Proof.
  intros step. assert (1 <= step)%Z as Hstep by (unfold step, grid_step; lia).
  split; apply grid_line_fuel; lia.
Qed.

(** ** Registry *)

Section Registry.

Implicit Types (w : World) (m : MLManager) (name : string) (p : address).

Lemma RegisterModel_empty name w : RegisterModel name None w = Some (false, w).
Proof. reflexivity. Qed.

Lemma RegisterModel_live name p obj w :
  objects w !! p = Some obj ->
  exists w', RegisterModel name (Some p) w = Some (true, w')
    /\ objects w' = objects w
    /\ models_ (manager w') = <[name := Some p]> (models_ (manager w))
    /\ model_type_map_ (manager w')
       = <[Model_GetType obj := name]> (model_type_map_ (manager w)).
Proof.
  intros Hobj. unfold RegisterModel. rewrite Hobj. simpl.
  eexists. split; [reflexivity|]. simpl. auto.
Qed.

Lemma RegisterModel_result name model w r w' :
  RegisterModel name model w = Some (r, w') -> (r = false <-> model = None).
Proof.
  unfold RegisterModel. destruct model as [p|]; simpl.
  - destruct (objects w !! p); simpl; [|discriminate].
    intros [= <- _]. split; discriminate.
  - intros [= <- _]. split; reflexivity.
Qed.

Lemma RegisterModel_other name name' model w r w' :
  name <> name' ->
  RegisterModel name model w = Some (r, w') ->
  models_ (manager w') !! name' = models_ (manager w) !! name'
  /\ objects w' = objects w.
Proof.
  intros Hne. unfold RegisterModel. destruct model as [p|]; simpl.
  - destruct (objects w !! p); simpl; [|discriminate].
    intros [= _ <-]. simpl. split; [|reflexivity].
    by rewrite lookup_insert_ne.
  - intros [= _ <-]. auto.
Qed.

Lemma GetModel_unbound name m : models_ m !! name = None -> GetModel name m = None.
Proof. unfold GetModel. by intros ->. Qed.

Lemma register_all_other regs : forall w name,
  Forall (fun r : string * shared_ptr => r.1 <> name) regs ->
  Forall (fun r : string * shared_ptr =>
            forall p, r.2 = Some p -> is_Some (objects w !! p)) regs ->
  exists w', register_all regs w = Some w'
    /\ objects w' = objects w
    /\ models_ (manager w') !! name = models_ (manager w) !! name.
Proof.
  induction regs as [|[n model] rest IH]; intros w name Hn Hl; simpl.
  - eauto.
  - inversion Hn as [|? ? Hn1 Hn2]; subst. inversion Hl as [|? ? Hl1 Hl2]; subst.
    simpl in Hn1, Hl1.
    assert (exists r w1, RegisterModel n model w = Some (r, w1)) as (r & w1 & Hreg).
    { destruct model as [p|].
      - destruct (Hl1 p eq_refl) as [obj Hobj].
        destruct (RegisterModel_live n p obj w Hobj) as (w1 & H1 & _). eauto.
      - eexists _, _. apply RegisterModel_empty. }
    rewrite Hreg. simpl.
    destruct (RegisterModel_other n name model w r w1 Hn1 Hreg) as [Hm Ho].
    destruct (IH w1 name Hn2) as (w' & Hw' & Ho' & Hm').
    { rewrite Ho. exact Hl2. }
    exists w'. split; [exact Hw'|]. split; congruence.
Qed.

(** C8. [RegisterModel] returns false exactly for the empty reference;
    two different live models registered under one name both succeed and
    the name is then bound to the second; a name no registration has used
    since the registry was created is answered by the empty reference. *)
Theorem RegisterModel_GetModel_contract
    (w : World) (name : string) (p1 p2 : address) (o1 o2 : MLModel)
    (objs : gmap address MLModel) (regs : list (string * shared_ptr)) :
  p1 <> p2 ->
  objects w !! p1 = Some o1 ->
  objects w !! p2 = Some o2 ->
  Forall (fun r : string * shared_ptr => r.1 <> name) regs ->
  Forall (fun r : string * shared_ptr =>
            forall p, r.2 = Some p -> is_Some (objs !! p)) regs ->
  RegisterModel name None w = Some (false, w)
  /\ (forall model r w',
        RegisterModel name model w = Some (r, w') -> (r = false <-> model = None))
  /\ (exists w1 w2,
        RegisterModel name (Some p1) w = Some (true, w1)
        /\ RegisterModel name (Some p2) w1 = Some (true, w2)
        /\ GetModel name (manager w2) = Some p2
        /\ GetModel name (manager w2) <> Some p1)
  /\ (exists w',
        register_all regs {| objects := objs; manager := MLManager_Instance |}
        = Some w'
        /\ GetModel name (manager w') = None).
Proof.
  intros Hne H1 H2 Hnames Hlive. split; [|split; [|split]].
  - reflexivity.
  - intros model r w'. apply RegisterModel_result.
  - destruct (RegisterModel_live name p1 o1 w H1) as (w1 & Hreg1 & Ho1 & _).
    assert (objects w1 !! p2 = Some o2) as H2' by (by rewrite Ho1).
    destruct (RegisterModel_live name p2 o2 w1 H2') as (w2 & Hreg2 & _ & Hm2 & _).
    exists w1, w2. split; [exact Hreg1|]. split; [exact Hreg2|].
    assert (GetModel name (manager w2) = Some p2) as Hget.
    { unfold GetModel. rewrite Hm2. by rewrite lookup_insert_eq. }
    split; [exact Hget|]. rewrite Hget. congruence.
  - destruct (register_all_other regs
                {| objects := objs; manager := MLManager_Instance |} name
                Hnames Hlive) as (w' & Hrun & _ & Hm).
    exists w'. split; [exact Hrun|]. apply GetModel_unbound. rewrite Hm. reflexivity.
Qed.

Lemma RegisterModel_GetModel_contract_witness :
  (0 <> 1
   /\ objects fresh_world !! 0 = Some (SuperPointDetector SuperPoint.new)
   /\ objects fresh_world !! 1 = Some (SuperGlueMatcher SuperGlue.new)
   /\ Forall (fun r : string * shared_ptr => r.1 <> "superpoint"%string)
        [("superglue"%string, Some 1)]
   /\ Forall (fun r : string * shared_ptr =>
                forall p, r.2 = Some p -> is_Some (two_models !! p))
        [("superglue"%string, Some 1)])
  /\ (exists w1 w2,
        RegisterModel "superpoint" (Some 0) fresh_world = Some (true, w1)
        /\ RegisterModel "superpoint" (Some 1) w1 = Some (true, w2)
        /\ GetModel "superpoint" (manager w2) = Some 1
        /\ GetModel "superpoint" (manager w2) <> Some 0).
Proof.
  assert (H0 : 0 <> 1) by lia.
  assert (H1 : objects fresh_world !! 0 = Some (SuperPointDetector SuperPoint.new))
    by reflexivity.
  assert (H2 : objects fresh_world !! 1 = Some (SuperGlueMatcher SuperGlue.new))
    by reflexivity.
  assert (H3 : Forall (fun r : string * shared_ptr => r.1 <> "superpoint"%string)
                 [("superglue"%string, Some 1)]).
  { constructor; [simpl; discriminate | constructor]. }
  assert (H4 : Forall (fun r : string * shared_ptr =>
                         forall p, r.2 = Some p -> is_Some (two_models !! p))
                 [("superglue"%string, Some 1)]).
  { constructor; [|constructor]. simpl. intros p [= <-]. eexists. reflexivity. }
  split; [auto|].
  exact (proj1 (proj2 (proj2
           (RegisterModel_GetModel_contract fresh_world "superpoint" 0 1 _ _
              two_models _ H0 H1 H2 H3 H4)))).
Defined.

(** C10. The device list is the constant [[CPU; CUDA]]: whatever the
    registry holds (no runtime probe is consulted), CUDA is reported
    available and [SetDefaultDevice CUDA] makes it the default. *)
Theorem GetAvailableDevices_constant (m : MLManager) :
  GetAvailableDevices m = [CPU; CUDA]
  /\ IsDeviceAvailable CUDA m = true
  /\ GetDefaultDevice (SetDefaultDevice CUDA m) = CUDA.
Proof. repeat split. Qed.

End Registry.

(** ** Model lifecycle *)

Section Lifecycle.

Context `{P : Platform}.

Lemma SuperPoint_store_parameters_ok params : forall c,
  Forall parameter_parses params ->
  exists c', SuperPoint.store_parameters params c = (Normal tt, c').
Proof.
  induction params as [|[key value] rest IH]; intros c Hwf; simpl.
  - eauto.
  - inversion Hwf as [|? ? Hkv Hrest]; subst.
    repeat parse_step Hkv IH; auto.
Qed.

Lemma DISK_store_parameters_ok params : forall c,
  Forall parameter_parses params ->
  exists c', DISK.store_parameters params c = (Normal tt, c').
Proof.
  induction params as [|[key value] rest IH]; intros c Hwf; simpl.
  - eauto.
  - inversion Hwf as [|? ? Hkv Hrest]; subst.
    repeat parse_step Hkv IH; auto.
Qed.

Lemma LoFTR_store_parameters_ok params : forall c,
  Forall parameter_parses params ->
  exists c', LoFTR.store_parameters params c = (Normal tt, c').
Proof.
  induction params as [|[key value] rest IH]; intros c Hwf; simpl.
  - eauto.
  - inversion Hwf as [|? ? Hkv Hrest]; subst.
    repeat parse_step Hkv IH; auto.
Qed.

Lemma SuperPoint_Load_twice config self :
  Forall parameter_parses (parameters config) \/ SuperPoint.loaded_ self = true ->
  exists s1, SuperPoint.Load config self = (Normal true, s1)
    /\ SuperPoint.Load config s1 = (Normal true, s1)
    /\ SuperPoint.loaded_ s1 = true
    /\ SuperPoint.init_calls s1
       = SuperPoint.init_calls self + (if SuperPoint.loaded_ self then 0 else 1).
Proof.
  intros [Hwf|Hl].
  - pose proof (SuperPoint_store_parameters_ok _ (SuperPoint.config_ self) Hwf) as Hok.
    unfold SuperPoint.Load. load_twice Hok.
  - unfold SuperPoint.Load. load_again Hl.
Qed.

Lemma DISK_Load_twice config self :
  Forall parameter_parses (parameters config) \/ DISK.loaded_ self = true ->
  exists s1, DISK.Load config self = (Normal true, s1)
    /\ DISK.Load config s1 = (Normal true, s1)
    /\ DISK.loaded_ s1 = true
    /\ DISK.init_calls s1
       = DISK.init_calls self + (if DISK.loaded_ self then 0 else 1).
Proof.
  intros [Hwf|Hl].
  - pose proof (DISK_store_parameters_ok _ (DISK.config_ self) Hwf) as Hok.
    unfold DISK.Load. load_twice Hok.
  - unfold DISK.Load. load_again Hl.
Qed.

Lemma LoFTR_Load_twice config self :
  Forall parameter_parses (parameters config) \/ LoFTR.loaded_ self = true ->
  exists s1, LoFTR.Load config self = (Normal true, s1)
    /\ LoFTR.Load config s1 = (Normal true, s1)
    /\ LoFTR.loaded_ s1 = true
    /\ LoFTR.init_calls s1
       = LoFTR.init_calls self + (if LoFTR.loaded_ self then 0 else 1).
Proof.
  intros [Hwf|Hl].
  - pose proof (LoFTR_store_parameters_ok _ (LoFTR.config_ self) Hwf) as Hok.
    unfold LoFTR.Load. load_twice Hok.
  - unfold LoFTR.Load. load_again Hl.
Qed.

Lemma SuperGlue_Load_twice config self :
  exists s1, SuperGlue.Load config self = (Normal true, s1)
    /\ SuperGlue.Load config s1 = (Normal true, s1)
    /\ SuperGlue.loaded_ s1 = true
    /\ SuperGlue.init_calls s1
       = SuperGlue.init_calls self + (if SuperGlue.loaded_ self then 0 else 1).
Proof.
  unfold SuperGlue.Load. destruct (SuperGlue.loaded_ self) eqn:E.
  - exists self. rewrite E. repeat split; auto with arith.
  - eexists. split; [reflexivity|]. simpl. repeat split; lia.
Qed.

Lemma Model_Unload_unloaded model :
  Model_IsLoaded model = false -> Model_Unload model = model.
Proof.
  destruct model as [d|m|m|d]; simpl;
    unfold SuperPoint.IsLoaded, SuperPoint.Unload, SuperGlue.IsLoaded, SuperGlue.Unload,
      LoFTR.IsLoaded, LoFTR.Unload, DISK.IsLoaded, DISK.Unload;
    intros ->; reflexivity.
Qed.

Lemma Model_Unload_not_loaded model : Model_IsLoaded (Model_Unload model) = false.
Proof.
  destruct model as [d|m|m|d]; simpl;
    unfold SuperPoint.IsLoaded, SuperPoint.Unload, SuperGlue.IsLoaded, SuperGlue.Unload,
      LoFTR.IsLoaded, LoFTR.Unload, DISK.IsLoaded, DISK.Unload;
    match goal with |- context [negb ?b] => destruct b eqn:E end; simpl; auto.
Qed.

(** [Load] that returns, on an unloaded or a loaded object. *)
Lemma SuperPoint_Load_returning config self :
  returns_normally (SuperPoint.Load config self).1 ->
  exists s1, SuperPoint.Load config self = (Normal true, s1)
    /\ SuperPoint.Load config s1 = (Normal true, s1)
    /\ SuperPoint.loaded_ s1 = true
    /\ SuperPoint.init_calls s1
       = SuperPoint.init_calls self + (if SuperPoint.loaded_ self then 0 else 1).
Proof.
  intros [a Ha]. revert Ha. unfold SuperPoint.Load.
  destruct (SuperPoint.loaded_ self) eqn:E.
  - intros _. exists self. rewrite E. repeat split; auto with arith.
  - destruct (SuperPoint.store_parameters _ _) as [[[]|e] c']; simpl;
      [|discriminate].
    intros _. eexists. split; [reflexivity|]. simpl. repeat split; lia.
Qed.

Lemma DISK_Load_returning config self :
  returns_normally (DISK.Load config self).1 ->
  exists s1, DISK.Load config self = (Normal true, s1)
    /\ DISK.Load config s1 = (Normal true, s1)
    /\ DISK.loaded_ s1 = true
    /\ DISK.init_calls s1
       = DISK.init_calls self + (if DISK.loaded_ self then 0 else 1).
Proof.
  intros [a Ha]. revert Ha. unfold DISK.Load.
  destruct (DISK.loaded_ self) eqn:E.
  - intros _. exists self. rewrite E. repeat split; auto with arith.
  - destruct (DISK.store_parameters _ _) as [[[]|e] c']; simpl; [|discriminate].
    intros _. eexists. split; [reflexivity|]. simpl. repeat split; lia.
Qed.

Lemma LoFTR_Load_returning config self :
  returns_normally (LoFTR.Load config self).1 ->
  exists s1, LoFTR.Load config self = (Normal true, s1)
    /\ LoFTR.Load config s1 = (Normal true, s1)
    /\ LoFTR.loaded_ s1 = true
    /\ LoFTR.init_calls s1
       = LoFTR.init_calls self + (if LoFTR.loaded_ self then 0 else 1).
Proof.
  intros [a Ha]. revert Ha. unfold LoFTR.Load.
  destruct (LoFTR.loaded_ self) eqn:E.
  - intros _. exists self. rewrite E. repeat split; auto with arith.
  - destruct (LoFTR.store_parameters _ _) as [[[]|e] c']; simpl; [|discriminate].
    intros _. eexists. split; [reflexivity|]. simpl. repeat split; lia.
Qed.

Lemma Model_Load_result config model :
  (Model_Load config model).1
  = match model with
    | SuperPointDetector d => (SuperPoint.Load config d).1
    | SuperGlueMatcher m => (SuperGlue.Load config m).1
    | LoFTRMatcher m => (LoFTR.Load config m).1
    | DISKDetector d => (DISK.Load config d).1
    end.
Proof.
  destruct model as [d|m|m|d]; simpl;
    match goal with |- context [let '(_, _) := ?x in _] => by destruct x end.
Qed.

(** C7. Whenever the first [Load] returns instead of ending by an
    exception, [Load] called twice in a row with the same configuration
    returns true both times, the second call leaves the object as the first
    left it, and the model-specific initialization has run once (not at
    all when the model was loaded before).  [Unload] of an unloaded model
    changes nothing, and a second [Unload] changes nothing either. *)
Theorem Load_Unload_idempotent_when_returning
    (model : MLModel) (config : MLModelConfig) :
  (returns_normally (Model_Load config model).1 ->
   exists m1,
     Model_Load config model = (Normal true, m1)
     /\ Model_Load config m1 = (Normal true, m1)
     /\ Model_IsLoaded m1 = true
     /\ Model_init_calls m1
        = Model_init_calls model + (if Model_IsLoaded model then 0 else 1))
  /\ (Model_IsLoaded model = false -> Model_Unload model = model)
  /\ Model_Unload (Model_Unload model) = Model_Unload model.
Proof.
  split; [|split].
  - rewrite Model_Load_result. intros Hret.
    destruct model as [d|m|m|d]; simpl in *.
    + destruct (SuperPoint_Load_returning config d Hret) as (s1 & H1 & H2 & H3 & H4).
      exists (SuperPointDetector s1). simpl. rewrite H1, H2. auto.
    + destruct (SuperGlue_Load_twice config m) as (s1 & H1 & H2 & H3 & H4).
      exists (SuperGlueMatcher s1). simpl. rewrite H1, H2. auto.
    + destruct (LoFTR_Load_returning config m Hret) as (s1 & H1 & H2 & H3 & H4).
      exists (LoFTRMatcher s1). simpl. rewrite H1, H2. auto.
    + destruct (DISK_Load_returning config d Hret) as (s1 & H1 & H2 & H3 & H4).
      exists (DISKDetector s1). simpl. rewrite H1, H2. auto.
  - apply Model_Unload_unloaded.
  - apply Model_Unload_unloaded, Model_Unload_not_loaded.
Qed.

End Lifecycle.

Lemma Load_Unload_idempotent_when_returning_witness :
  returns_normally
    (@Model_Load reference_platform descriptor_dim_config
       (SuperPointDetector SuperPoint.new)).1
  /\ exists m1,
       @Model_Load reference_platform descriptor_dim_config
         (SuperPointDetector SuperPoint.new) = (Normal true, m1)
       /\ @Model_Load reference_platform descriptor_dim_config m1 = (Normal true, m1)
       /\ Model_IsLoaded m1 = true
       /\ Model_init_calls m1 = 1.
Proof.
  assert (Hret : returns_normally
                   (@Model_Load reference_platform descriptor_dim_config
                      (SuperPointDetector SuperPoint.new)).1)
    by (exists true; reflexivity).
  split; [exact Hret|].
  exact (proj1 (@Load_Unload_idempotent_when_returning reference_platform
                  (SuperPointDetector SuperPoint.new) descriptor_dim_config) Hret).
Defined.

(** With a parameter value that [std::stoi] rejects the first [Load] does
    not return true: it ends by [std::invalid_argument]. *)
Lemma Load_twice_not_true :
  (@Model_Load reference_platform malformed_config
     (SuperPointDetector SuperPoint.new)).1 = Throws invalid_argument
  /\ ~ exists m1,
        @Model_Load reference_platform malformed_config
          (SuperPointDetector SuperPoint.new) = (Normal true, m1).
Proof.
  split; [reflexivity|]. intros [m1 H]. discriminate H.
Qed.

(** C5. A non-numeric ["max_keypoints"] makes [std::stoi] throw inside
    [Load]; nothing catches it, so [Load] of SuperPoint, DISK and LoFTR and
    [MLManager::LoadModel] above them end by [std::invalid_argument], with
    the model left unloaded. *)
Theorem Load_propagates_invalid_argument (P : Platform) :
  (SuperPoint.Load malformed_config SuperPoint.new).1 = Throws invalid_argument
  /\ (DISK.Load malformed_config DISK.new).1 = Throws invalid_argument
  /\ (LoFTR.Load malformed_config LoFTR.new).1 = Throws invalid_argument
  /\ GetModel "superpoint" (manager registered_world) = Some 0
  /\ exists w',
       LoadModel "superpoint" malformed_config registered_world
       = Some (Throws invalid_argument, w')
       /\ IsModelLoaded "superpoint" w' = Some false.
Proof.
  repeat split. eexists. split; reflexivity.
Qed.

(** ** Comparisons and sorting *)

Lemma Qge_bool_le a b : Qge_bool a b = true <-> (b <= a)%Q.
Proof. unfold Qge_bool. apply Qle_bool_iff. Qed.

Lemma Qlt_bool_lt a b : Qlt_bool a b = true <-> (a < b)%Q.
Proof.
  unfold Qlt_bool. rewrite negb_true_iff. split.
  - intros H. apply Qnot_le_lt. intros Hle.
    apply Qle_bool_iff in Hle. congruence.
  - intros H. destruct (Qle_bool b a) eqn:E; [|reflexivity].
    apply Qle_bool_iff in E. exfalso. exact (Qlt_not_le _ _ H E).
Qed.

Lemma Qlt_bool_ge a b : Qlt_bool a b = false <-> (b <= a)%Q.
Proof.
  unfold Qlt_bool. rewrite negb_false_iff. apply Qle_bool_iff.
Qed.

Lemma by_score_desc_swo scores : strict_weak_order (by_score_desc scores).
Proof.
  unfold by_score_desc. split.
  - intros a. apply Qlt_bool_ge. apply Qle_refl.
  - intros a b c. rewrite !Qlt_bool_lt. intros H1 H2.
    exact (Qlt_trans _ _ _ H2 H1).
  - intros a b c. rewrite !Qlt_bool_ge. intros H1 H2 H3 H4.
    split; eapply Qle_trans; eauto.
Qed.

Section Sorting.

Variable comp : nat -> nat -> bool.
Hypothesis comp_swo : strict_weak_order comp.

Local Abbreviation precedes := (may_precede comp).

Lemma comp_asym a b : comp a b = true -> comp b a = false.
Proof.
  intros H. destruct (comp b a) eqn:E; [|reflexivity].
  pose proof (swo_trans comp comp_swo a b a H E) as Haa.
  rewrite (swo_irrefl comp comp_swo a) in Haa. discriminate.
Qed.

Lemma may_precede_trans a b c :
  precedes a b -> precedes b c -> precedes a c.
Proof.
  unfold may_precede. intros Hba Hcb.
  destruct (comp c a) eqn:Hca; [exfalso|reflexivity].
  destruct (comp b c) eqn:Hbc.
  { pose proof (swo_trans comp comp_swo b c a Hbc Hca). congruence. }
  destruct (comp a b) eqn:Hab.
  { pose proof (swo_trans comp comp_swo c a b Hca Hab). congruence. }
  destruct (swo_incomp comp comp_swo c b a Hcb Hbc Hba Hab) as [H _].
  congruence.
Qed.

Lemma insert_by_perm a l : Permutation (a :: l) (insert_by comp a l).
Proof.
  induction l as [|b r IH]; simpl; [reflexivity|].
  destruct (comp a b); [reflexivity|].
  rewrite perm_swap. by constructor.
Qed.

Lemma insert_by_sorted a l :
  StronglySorted precedes l -> StronglySorted precedes (insert_by comp a l).
Proof.
  induction 1 as [|b r Hs IH Hall]; simpl.
  - repeat constructor.
  - destruct (comp a b) eqn:E.
    + constructor; [by constructor|].
      assert (precedes a b) as Hab by (by apply comp_asym).
      constructor; [exact Hab|].
      eapply Forall_impl; [exact Hall|].
      intros c Hbc. simpl in Hbc. by eapply may_precede_trans.
    + constructor; [exact IH|].
      eapply Permutation_Forall; [apply insert_by_perm|].
      constructor; [exact E | exact Hall].
Qed.

Lemma insertion_fold_perm l : forall acc,
  Permutation (acc ++ l) (fold_left (fun acc a => insert_by comp a acc) l acc).
Proof.
  induction l as [|a r IH]; intros acc; simpl.
  - by rewrite app_nil_r.
  - rewrite <- IH. rewrite <- insert_by_perm.
    by rewrite <- Permutation_middle.
Qed.

Lemma insertion_fold_sorted l : forall acc,
  StronglySorted precedes acc ->
  StronglySorted precedes (fold_left (fun acc a => insert_by comp a acc) l acc).
Proof.
  induction l as [|a r IH]; intros acc Hs; simpl; [exact Hs|].
  apply IH. by apply insert_by_sorted.
Qed.

Lemma StronglySorted_sorted_by l : StronglySorted precedes l -> sorted_by comp l.
Proof.
  induction 1 as [|a r Hs IH Hall]; intros i j u v Hij Hi Hj.
  - by rewrite lookup_nil in Hi.
  - destruct j as [|j]; [lia|]. simpl in Hj.
    destruct i as [|i]; simpl in Hi.
    + injection Hi as <-.
      rewrite Forall_forall in Hall. apply Hall.
      by eapply list_elem_of_lookup_2.
    + eapply IH; [|exact Hi|exact Hj]. lia.
Qed.

Lemma sorted_by_StronglySorted l : sorted_by comp l -> StronglySorted precedes l.
Proof.
  induction l as [|a r IH]; intros Hs; constructor.
  - apply IH. intros i j u v Hij Hi Hj.
    apply (Hs (S i) (S j) u v); [lia|exact Hi|exact Hj].
  - apply Forall_forall. intros b Hb.
    apply list_elem_of_lookup in Hb. destruct Hb as [j Hj].
    apply (Hs 0 (S j) a b); [lia|reflexivity|exact Hj].
Qed.

Lemma insertion_sort_sorted l : sorted_by comp (insertion_sort comp l).
Proof.
  apply StronglySorted_sorted_by, insertion_fold_sorted. constructor.
Qed.

Lemma insertion_sort_perm l : Permutation l (insertion_sort comp l).
Proof. exact (insertion_fold_perm l []). Qed.

End Sorting.

Lemma reference_platform_conforms : std_sort_conforms reference_platform.
Proof.
  intros comp l Hswo. split.
  - apply insertion_sort_perm.
  - by apply insertion_sort_sorted.
Qed.

Lemma conforming_sort_perm (P : Platform) scores l :
  std_sort_conforms P -> Permutation l (std_sort (by_score_desc scores) l).
Proof. intros H. apply H, by_score_desc_swo. Qed.

Lemma conforming_sort_sorted (P : Platform) scores l :
  std_sort_conforms P ->
  sorted_by (by_score_desc scores) (std_sort (by_score_desc scores) l).
Proof. intros H. apply H, by_score_desc_swo. Qed.

Lemma conforming_sort_one (P : Platform) scores a :
  std_sort_conforms P -> std_sort (by_score_desc scores) [a] = [a].
Proof.
  intros H. apply Permutation_length_1_inv.
  by apply conforming_sort_perm.
Qed.

Lemma conforming_sort_two (P : Platform) scores a b :
  std_sort_conforms P ->
  by_score_desc scores b a = true ->
  std_sort (by_score_desc scores) [a; b] = [b; a].
Proof.
  intros H Hba.
  pose proof (conforming_sort_perm P scores [a; b] H) as Hp.
  pose proof (conforming_sort_sorted P scores [a; b] H) as Hs.
  apply Permutation_length_2_inv in Hp. destruct Hp as [Hp|Hp]; [|exact Hp].
  rewrite Hp in Hs. specialize (Hs 0 1 a b).
  rewrite Hs in Hba; [discriminate|lia|reflexivity..].
Qed.

(** ** Gathering the selected keypoints *)

Lemma gather_elem filtered indices num res :
  gather filtered indices num = Some res ->
  forall kp, kp ∈ res -> kp ∈ filtered.
Proof.
  unfold gather. intros Hm kp Hkp. apply mapM_Some_1 in Hm.
  apply list_elem_of_lookup in Hkp. destruct Hkp as [j Hj].
  destruct (Forall2_lookup_r _ _ _ _ _ Hm Hj) as (i & _ & Hi).
  by eapply list_elem_of_lookup_2.
Qed.

Lemma gather_length filtered indices num res :
  gather filtered indices num = Some res ->
  length res = Nat.min num (length indices).
Proof.
  unfold gather. intros Hm. apply mapM_Some_1, Forall2_length in Hm.
  rewrite <- Hm. apply length_take.
Qed.

Lemma gather_total filtered indices num :
  Forall (fun i => i < length filtered) indices ->
  exists res, gather filtered indices num = Some res
    /\ Forall2 (fun i kp => filtered !! i = Some kp) (take num indices) res.
Proof.
  intros Hall. unfold gather.
  assert (is_Some (mapM (fun i => filtered !! i) (take num indices))) as [res Hres].
  { apply mapM_is_Some. apply Forall_take. eapply Forall_impl; [exact Hall|].
    intros i Hi. simpl. by apply lookup_lt_is_Some. }
  exists res. split; [exact Hres|]. by apply mapM_Some_1.
Qed.

Lemma lookup_all_seq {A} (l : list A) :
  Forall2 (fun i a => l !! i = Some a) (seq 0 (length l)) l.
Proof.
  apply Forall2_same_length_lookup_2; [by rewrite length_seq|].
  intros i j a Hj Ha. apply lookup_seq in Hj. destruct Hj as [-> _]. exact Ha.
Qed.

Lemma Forall2_lookup_perm {A} (l : list A) idx idx' res :
  Permutation idx idx' ->
  Forall2 (fun i a => l !! i = Some a) idx res ->
  exists res', Permutation res res' /\ Forall2 (fun i a => l !! i = Some a) idx' res'.
Proof.
  intros Hp. revert res. induction Hp as [|i idx idx' Hp IH|i j idx|i1 i2 i3 H12 IH12 H23 IH23];
    intros res HF.
  - inversion HF; subst. exists []. split; constructor.
  - inversion HF as [|? a ? r Ha Hr]; subst.
    destruct (IH r Hr) as (r' & Hpr & Hr').
    exists (a :: r'). split; by constructor.
  - inversion HF as [|? a ? r Ha Hr]; subst.
    inversion Hr as [|? b ? r2 Hb Hr2]; subst.
    exists (b :: a :: r2). split; [apply perm_swap|by repeat constructor].
  - destruct (IH12 res HF) as (r2 & Hp2 & HF2).
    destruct (IH23 r2 HF2) as (r3 & Hp3 & HF3).
    exists r3. split; [by etrans|exact HF3].
Qed.

Lemma gather_perm filtered indices num :
  Permutation (seq 0 (length filtered)) indices ->
  length indices <= num ->
  exists res, gather filtered indices num = Some res /\ Permutation filtered res.
Proof.
  intros Hp Hlen.
  destruct (Forall2_lookup_perm filtered _ _ _ Hp (lookup_all_seq filtered))
    as (res & Hpr & HF).
  exists res. split; [|exact Hpr].
  unfold gather. rewrite firstn_all2 by exact Hlen.
  by apply mapM_Some_2.
Qed.

(** ** The first loop of [FilterKeypoints] *)

Lemma SuperPoint_filter_from_eq config scores kps : forall i,
  i + length kps <= length scores ->
  let sv := List.filter
              (accepts (SuperPoint.keypoint_threshold config)
                 (SuperPoint.remove_borders config)
                 (SuperPoint.border_margin config) 640 480)
              (zip kps (drop i scores)) in
  SuperPoint.filter_from i kps scores config = Some (sv.*1, sv.*2).
Proof.
  induction kps as [|kp rest IH]; intros i Hlen; simpl in *; [reflexivity|].
  destruct (lookup_lt_is_Some_2 scores i ltac:(lia)) as [s Hs].
  rewrite Hs. simpl. rewrite (drop_S _ _ _ Hs). simpl.
  rewrite (IH (S i)) by lia.
  remember (List.filter _ (zip rest (drop (S i) scores))) as sv' eqn:Hsv'.
  clear Hsv'. unfold accepts. simpl.
  destruct (Qge_bool s _); simpl; [|reflexivity].
  destruct (SuperPoint.remove_borders config && outside_border _ 640 480 kp);
    reflexivity.
Qed.

Lemma DISK_filter_from_eq config scores kps : forall i,
  i + length kps <= length scores ->
  let sv := List.filter
              (accepts (DISK.keypoint_threshold config)
                 (DISK.remove_borders config)
                 (DISK.border_margin config) 640 480)
              (zip kps (drop i scores)) in
  DISK.filter_from i kps scores config = Some (sv.*1).
Proof.
  induction kps as [|kp rest IH]; intros i Hlen; simpl in *; [reflexivity|].
  destruct (lookup_lt_is_Some_2 scores i ltac:(lia)) as [s Hs].
  rewrite Hs. simpl. rewrite (drop_S _ _ _ Hs). simpl.
  rewrite (IH (S i)) by lia.
  remember (List.filter _ (zip rest (drop (S i) scores))) as sv' eqn:Hsv'.
  clear Hsv'. unfold accepts. simpl.
  destruct (Qge_bool s _); simpl; [|reflexivity].
  destruct (DISK.remove_borders config && outside_border _ 640 480 kp);
    reflexivity.
Qed.

Lemma SuperPoint_filter_from_survivors config keypoints scores :
  length keypoints <= length scores ->
  let sv := survivors (SuperPoint.keypoint_threshold config)
              (SuperPoint.remove_borders config)
              (SuperPoint.border_margin config) 640 480 keypoints scores in
  SuperPoint.filter_from 0 keypoints scores config = Some (sv.*1, sv.*2).
Proof. intros Hlen. apply (SuperPoint_filter_from_eq config scores keypoints 0 Hlen). Qed.

Lemma DISK_filter_from_survivors config keypoints scores :
  length keypoints <= length scores ->
  let sv := survivors (DISK.keypoint_threshold config)
              (DISK.remove_borders config)
              (DISK.border_margin config) 640 480 keypoints scores in
  DISK.filter_from 0 keypoints scores config = Some (sv.*1).
Proof. intros Hlen. apply (DISK_filter_from_eq config scores keypoints 0 Hlen). Qed.

Lemma Qge_bool_lt a b : Qge_bool a b = false <-> (a < b)%Q.
Proof.
  rewrite <- Qlt_bool_lt. unfold Qlt_bool, Qge_bool.
  destruct (Qle_bool b a); simpl; split; congruence.
Qed.

Lemma outside_border_false margin w h kp :
  outside_border margin w h kp = false <-> inside_border margin w h kp.
Proof.
  unfold outside_border, inside_border.
  rewrite !orb_false_iff, !Qlt_bool_ge, !Qge_bool_lt. tauto.
Qed.

(** A surviving keypoint reaches the threshold and, with border removal
    on, lies in the box of the dimensions the filter was run with. *)
Lemma survivors_inside threshold borders margin w h keypoints scores p :
  p ∈ survivors threshold borders margin w h keypoints scores ->
  (threshold <= p.2)%Q /\ (borders = true -> inside_border margin w h p.1).
Proof.
  unfold survivors. rewrite list_elem_of_In, filter_In. intros [_ Hacc].
  unfold accepts in Hacc. apply andb_true_iff in Hacc. destruct Hacc as [Hs Hb].
  apply Qge_bool_le in Hs. split; [exact Hs|].
  intros ->. simpl in Hb. apply negb_true_iff in Hb.
  by apply outside_border_false.
Qed.

(** ** [FilterKeypoints] *)

Lemma selection_count max_keypoints (indices : list nat) n :
  length indices = n ->
  (Z.of_nat n <= size_t_of_int max_keypoints)%Z ->
  length indices
  <= Z.to_nat (Z.min (size_t_of_int max_keypoints) (Z.of_nat (length indices))).
Proof. intros -> Hle. lia. Qed.

(** With room for every survivor, a conforming sort only reorders them. *)
Lemma SuperPoint_FilterKeypoints_all (P : Platform) keypoints scores config :
  std_sort_conforms P ->
  length keypoints <= length scores ->
  let sv := survivors (SuperPoint.keypoint_threshold config)
              (SuperPoint.remove_borders config)
              (SuperPoint.border_margin config) 640 480 keypoints scores in
  (Z.of_nat (length sv) <= size_t_of_int (SuperPoint.max_keypoints config))%Z ->
  exists res, SuperPoint.FilterKeypoints keypoints scores config = Some res
    /\ Permutation (sv.*1) res.
Proof.
  intros Hconf Hlen sv Hroom. unfold SuperPoint.FilterKeypoints.
  rewrite (SuperPoint_filter_from_survivors config keypoints scores Hlen).
  fold sv. simpl.
  pose proof (conforming_sort_perm P (sv.*2) (seq 0 (length (sv.*1))) Hconf) as Hp.
  apply gather_perm; [exact Hp|].
  apply selection_count with (n := length sv); [|exact Hroom].
  rewrite <- (Permutation_length Hp), length_seq. apply length_fmap.
Qed.

Lemma DISK_FilterKeypoints_all (P : Platform) keypoints scores config :
  std_sort_conforms P ->
  length keypoints <= length scores ->
  let sv := survivors (DISK.keypoint_threshold config)
              (DISK.remove_borders config)
              (DISK.border_margin config) 640 480 keypoints scores in
  (Z.of_nat (length sv) <= size_t_of_int (DISK.max_keypoints config))%Z ->
  exists res, DISK.FilterKeypoints keypoints scores config = Some res
    /\ Permutation (sv.*1) res.
Proof.
  intros Hconf Hlen sv Hroom. unfold DISK.FilterKeypoints.
  rewrite (DISK_filter_from_survivors config keypoints scores Hlen).
  fold sv. simpl.
  pose proof (conforming_sort_perm P scores (seq 0 (length (sv.*1))) Hconf) as Hp.
  apply gather_perm; [exact Hp|].
  apply selection_count with (n := length sv); [|exact Hroom].
  rewrite <- (Permutation_length Hp), length_seq. apply length_fmap.
Qed.

(** Whatever the sort does, a keypoint that comes out of the filter passed
    the threshold and the border test, and that test is against the box of
    a 640 x 480 image. *)
Lemma SuperPoint_FilterKeypoints_default_box (P : Platform) keypoints scores config res :
  length keypoints <= length scores ->
  SuperPoint.remove_borders config = true ->
  SuperPoint.FilterKeypoints keypoints scores config = Some res ->
  forall kp, kp ∈ res -> inside_border (SuperPoint.border_margin config) 640 480 kp.
Proof.
  intros Hlen Hb. unfold SuperPoint.FilterKeypoints.
  rewrite (SuperPoint_filter_from_survivors config keypoints scores Hlen). simpl.
  intros Hg kp Hkp. apply (gather_elem _ _ _ _ Hg) in Hkp.
  apply list_elem_of_fmap in Hkp. destruct Hkp as (p & -> & Hp).
  apply survivors_inside in Hp. destruct Hp as [_ Hin]. by apply Hin.
Qed.

Lemma DISK_FilterKeypoints_default_box (P : Platform) keypoints scores config res :
  length keypoints <= length scores ->
  DISK.remove_borders config = true ->
  DISK.FilterKeypoints keypoints scores config = Some res ->
  forall kp, kp ∈ res -> inside_border (DISK.border_margin config) 640 480 kp.
Proof.
  intros Hlen Hb. unfold DISK.FilterKeypoints.
  rewrite (DISK_filter_from_survivors config keypoints scores Hlen). simpl.
  intros Hg kp Hkp. apply (gather_elem _ _ _ _ Hg) in Hkp.
  apply list_elem_of_fmap in Hkp. destruct Hkp as (p & -> & Hp).
  apply survivors_inside in Hp. destruct Hp as [_ Hin]. by apply Hin.
Qed.

(** [Detect] hands back what [FilterKeypoints] returned: the branch on
    [use_nms] removes nothing. *)
Lemma SuperPoint_Detect_keypoints (P : Platform) rnd image config self raw kept :
  SuperPoint.loaded_ self = true ->
  mapM (SuperPoint.dummy_keypoint rnd (Width image) (Height image))
       (seq 0 (Z.to_nat (Z.min (SuperPoint.max_keypoints config) 100))) = Some raw ->
  SuperPoint.FilterKeypoints (raw.*1) (raw.*2) config = Some kept ->
  exists r, SuperPoint.Detect rnd image config self = Some r
    /\ SuperPoint.keypoints r = kept.
Proof.
  intros Hl Hraw Hkept. unfold SuperPoint.Detect.
  rewrite Hl. simpl. rewrite Hraw. simpl. rewrite Hkept. simpl.
  eexists. split; [reflexivity|]. simpl. by destruct (SuperPoint.use_nms config).
Qed.

(** ** Border removal *)

Lemma singleton_survivor (sv : list (FeatureKeypoint * Q)) kp res :
  sv.*1 = [kp] -> Permutation (sv.*1) res -> res = [kp].
Proof. intros ->. apply Permutation_length_1_inv. Qed.

(** C1. The border test of [FilterKeypoints] is made against 640 x 480
    whatever image [Detect] was given.  On a 320 x 240 image the keypoint
    (318, 100), two pixels from the right edge, is retained under
    [border_margin = 4], by SuperPoint's [Detect] and by DISK's filter; on a
    1280 x 960 image the keypoint (700, 500), which is inside the margin
    box of that image, is discarded. *)
Theorem border_filter_uses_default_dimensions (P : Platform) :
  std_sort_conforms P ->
  (exists r,
      SuperPoint.Detect edge_stream small_image one_keypoint loaded_superpoint = Some r
      /\ SuperPoint.keypoints r = [edge_keypoint])
  /\ DISK.FilterKeypoints [edge_keypoint] [(1 # 2)%Q] DISK.default_config
     = Some [edge_keypoint]
  /\ ~ inside_border (SuperPoint.border_margin one_keypoint)
         (Width small_image) (Height small_image) edge_keypoint
  /\ (exists r,
        SuperPoint.Detect centre_stream large_image one_keypoint loaded_superpoint
        = Some r
        /\ SuperPoint.keypoints r = [])
  /\ inside_border (SuperPoint.border_margin one_keypoint)
       (Width large_image) (Height large_image) centre_keypoint.
Proof.
  intros Hconf. split; [|split; [|split; [|split]]].
  - eapply SuperPoint_Detect_keypoints; [reflexivity|reflexivity|].
    destruct (SuperPoint_FilterKeypoints_all P
                [edge_keypoint] [dummy_score (1 # 2) (1 # 2) 0] one_keypoint Hconf)
      as (res & Hres & Hperm); [simpl; lia|vm_compute; discriminate|].
    apply singleton_survivor with (kp := edge_keypoint) in Hperm; [|reflexivity].
    subst res. exact Hres.
  - destruct (DISK_FilterKeypoints_all P
                [edge_keypoint] [(1 # 2)%Q] DISK.default_config Hconf)
      as (res & Hres & Hperm); [simpl; lia|vm_compute; discriminate|].
    apply singleton_survivor with (kp := edge_keypoint) in Hperm; [|reflexivity].
    subst res. exact Hres.
  - intros (_ & Hx & _). vm_compute in Hx. discriminate.
  - eapply SuperPoint_Detect_keypoints; [reflexivity|reflexivity|].
    destruct (SuperPoint_FilterKeypoints_all P
                [centre_keypoint] [dummy_score (1 # 2) (1 # 2) 0] one_keypoint Hconf)
      as (res & Hres & Hperm); [simpl; lia|vm_compute; discriminate|].
    apply Permutation_nil in Hperm. subst res. exact Hres.
  - repeat split; vm_compute; congruence.
Qed.

Lemma border_filter_uses_default_dimensions_witness :
  std_sort_conforms reference_platform
  /\ @DISK.FilterKeypoints reference_platform [edge_keypoint] [(1 # 2)%Q]
       DISK.default_config = Some [edge_keypoint].
Proof.
  split; [exact reference_platform_conforms|].
  exact (proj1 (proj2 (border_filter_uses_default_dimensions reference_platform
                         reference_platform_conforms))).
Defined.

(** ** Non-maximum suppression *)

Lemma DISK_Detect_keypoints (P : Platform) rnd image config self kept :
  DISK.loaded_ self = true ->
  DISK.FilterKeypoints
    (List.map (fun p : Vector2f =>
                 {| x := p.1; y := p.2; a11 := 1; a12 := 0; a21 := 0; a22 := 1 |})
              (DISK.ExtractDenseKeypoints image config))
    (List.map (fun i => dummy_score (1 # 2) (1 # 2) (rnd i))
              (seq 0 (length (DISK.ExtractDenseKeypoints image config))))
    config = Some kept ->
  exists r, DISK.Detect rnd image config self = Some r
    /\ DISK.keypoints r = kept.
Proof.
  intros Hl Hkept. unfold DISK.Detect.
  rewrite Hl. simpl. rewrite Hkept. simpl.
  eexists. split; [reflexivity|]. simpl.
  by destruct (DISK.use_nms config).
Qed.

(** C3. No suppression takes place.  With [use_nms] on and
    [nms_radius = 4], SuperPoint's [Detect] returns both (10, 10) and
    (11, 10), one pixel apart; DISK's [ApplySoftNMS] returns its input
    whatever it is, and DISK's [Detect] on an 8 x 8 image returns the grid
    neighbours (4, 4) and (5, 4). *)
Theorem nms_keeps_close_keypoints (P : Platform) :
  std_sort_conforms P ->
  (SuperPoint.use_nms two_keypoints = true
   /\ (0 < SuperPoint.nms_radius two_keypoints)%Q
   /\ exists r,
       SuperPoint.Detect near_stream vga_image two_keypoints loaded_superpoint = Some r
       /\ keypoint_at 10 10 ∈ SuperPoint.keypoints r
       /\ keypoint_at 11 10 ∈ SuperPoint.keypoints r
       /\ (squared_distance (keypoint_at 10 10) (keypoint_at 11 10)
           < SuperPoint.nms_radius two_keypoints * SuperPoint.nms_radius two_keypoints)%Q)
  /\ (forall keypoints scores config,
        DISK.ApplySoftNMS keypoints scores config = keypoints)
  /\ (DISK.use_nms DISK.default_config = true
      /\ (0 < DISK.nms_radius DISK.default_config)%Q
      /\ exists r,
          DISK.Detect zero_stream tiny_image DISK.default_config loaded_disk = Some r
          /\ keypoint_at 4 4 ∈ DISK.keypoints r
          /\ keypoint_at 5 4 ∈ DISK.keypoints r
          /\ (squared_distance (keypoint_at 4 4) (keypoint_at 5 4)
              < DISK.nms_radius DISK.default_config
                * DISK.nms_radius DISK.default_config)%Q).
Proof.
  intros Hconf. split; [|split].
  - split; [reflexivity|]. split; [reflexivity|].
    destruct (SuperPoint_FilterKeypoints_all P
                [keypoint_at 10 10; keypoint_at 11 10]
                [dummy_score (1 # 2) (1 # 2) 0; dummy_score (1 # 2) (1 # 2) 0]
                two_keypoints Hconf)
      as (res & Hres & Hperm); [simpl; lia|vm_compute; discriminate|].
    destruct (SuperPoint_Detect_keypoints P near_stream vga_image two_keypoints
                loaded_superpoint _ res eq_refl eq_refl Hres) as (r & Hr & Hk).
    exists r. split; [exact Hr|]. rewrite Hk.
    split; [|split; [|reflexivity]].
    + rewrite <- Hperm. apply list_elem_of_lookup. exists 0. reflexivity.
    + rewrite <- Hperm. apply list_elem_of_lookup. exists 1. reflexivity.
  - reflexivity.
  - split; [reflexivity|]. split; [reflexivity|].
    destruct (DISK_FilterKeypoints_all P
      (List.map (fun p : Vector2f =>
                 {| x := p.1; y := p.2; a11 := 1; a12 := 0; a21 := 0; a22 := 1 |})
              (DISK.ExtractDenseKeypoints tiny_image DISK.default_config))
      (List.map (fun i => dummy_score (1 # 2) (1 # 2) (zero_stream i))
              (seq 0 (length (DISK.ExtractDenseKeypoints tiny_image DISK.default_config))))
      DISK.default_config Hconf)
      as (res & Hres & Hperm); [vm_compute; lia|vm_compute; discriminate|].
    destruct (DISK_Detect_keypoints P zero_stream tiny_image DISK.default_config
                loaded_disk res eq_refl Hres) as (r & Hr & Hk).
    exists r. split; [exact Hr|]. rewrite Hk.
    split; [|split; [|reflexivity]].
    + rewrite <- Hperm. apply list_elem_of_lookup. exists 0. vm_compute. reflexivity.
    + rewrite <- Hperm. apply list_elem_of_lookup. exists 1. vm_compute. reflexivity.
Qed.

Lemma nms_keeps_close_keypoints_witness :
  std_sort_conforms reference_platform
  /\ exists r,
      @SuperPoint.Detect reference_platform near_stream vga_image two_keypoints
        loaded_superpoint = Some r
      /\ keypoint_at 10 10 ∈ SuperPoint.keypoints r
      /\ keypoint_at 11 10 ∈ SuperPoint.keypoints r
      /\ (squared_distance (keypoint_at 10 10) (keypoint_at 11 10)
          < SuperPoint.nms_radius two_keypoints * SuperPoint.nms_radius two_keypoints)%Q.
Proof.
  split; [exact reference_platform_conforms|].
  exact (proj2 (proj2 (proj1 (nms_keeps_close_keypoints reference_platform
                                reference_platform_conforms)))).
Defined.

(** ** Top-K selection *)

Lemma conforming_sort_two_kept (P : Platform) scores a b :
  std_sort_conforms P ->
  by_score_desc scores a b = true ->
  std_sort (by_score_desc scores) [a; b] = [a; b].
Proof.
  intros H Hab.
  pose proof (conforming_sort_perm P scores [a; b] H) as Hp.
  pose proof (conforming_sort_sorted P scores [a; b] H) as Hs.
  apply Permutation_length_2_inv in Hp. destruct Hp as [Hp|Hp]; [exact Hp|].
  rewrite Hp in Hs. specialize (Hs 0 1 b a).
  rewrite Hs in Hab; [discriminate|lia|reflexivity..].
Qed.

(** C4. DISK's [FilterKeypoints] orders the filtered keypoints by the
    scores found at the same positions of the unfiltered score vector.
    With scores 0.1, 0.9, 0.6, threshold 0.5 and [max_keypoints = 1] the
    survivors are the second and third keypoint and DISK returns the third
    (score 0.6); SuperPoint, which sorts by the filtered scores, returns
    the second (score 0.9). *)
Theorem DISK_top_k_reads_unfiltered_scores (P : Platform) :
  std_sort_conforms P ->
  survivors (1 # 2) true 4 640 480 three_keypoints three_scores
  = [(keypoint_at 20 20, (9 # 10)%Q); (keypoint_at 30 30, (6 # 10)%Q)]
  /\ DISK.FilterKeypoints three_keypoints three_scores disk_best
     = Some [keypoint_at 30 30]
  /\ SuperPoint.FilterKeypoints three_keypoints three_scores superpoint_best
     = Some [keypoint_at 20 20].
Proof.
  intros Hconf. split; [reflexivity|]. split.
  - unfold DISK.FilterKeypoints.
    rewrite DISK_filter_from_survivors by (simpl; lia).
    change (survivors _ _ _ 640 480 three_keypoints three_scores)
      with [(keypoint_at 20 20, (9 # 10)%Q); (keypoint_at 30 30, (6 # 10)%Q)].
    simpl. rewrite (conforming_sort_two P three_scores 0 1 Hconf eq_refl).
    reflexivity.
  - unfold SuperPoint.FilterKeypoints.
    rewrite SuperPoint_filter_from_survivors by (simpl; lia).
    change (survivors _ _ _ 640 480 three_keypoints three_scores)
      with [(keypoint_at 20 20, (9 # 10)%Q); (keypoint_at 30 30, (6 # 10)%Q)].
    simpl.
    rewrite (conforming_sort_two_kept P [(9 # 10)%Q; (6 # 10)%Q] 0 1 Hconf eq_refl).
    reflexivity.
Qed.

Lemma DISK_top_k_reads_unfiltered_scores_witness :
  std_sort_conforms reference_platform
  /\ @DISK.FilterKeypoints reference_platform three_keypoints three_scores disk_best
     = Some [keypoint_at 30 30]
  /\ @SuperPoint.FilterKeypoints reference_platform three_keypoints three_scores
       superpoint_best
     = Some [keypoint_at 20 20].
Proof.
  split; [exact reference_platform_conforms|].
  exact (proj2 (DISK_top_k_reads_unfiltered_scores reference_platform
                  reference_platform_conforms)).
Defined.

Lemma size_t_of_int_nonneg v : (0 <= v <= INT_MAX)%Z -> size_t_of_int v = v.
Proof.
  unfold size_t_of_int, INT_MAX. intros Hv. apply Z.mod_small. lia.
Qed.

(** For a non-negative [max_keypoints] neither filter returns more than
    [max_keypoints] keypoints, however the platform sorts. *)
Lemma SuperPoint_FilterKeypoints_at_most (P : Platform) keypoints scores config res :
  (0 <= SuperPoint.max_keypoints config <= INT_MAX)%Z ->
  SuperPoint.FilterKeypoints keypoints scores config = Some res ->
  (Z.of_nat (length res) <= SuperPoint.max_keypoints config)%Z.
Proof.
  intros Hmax. unfold SuperPoint.FilterKeypoints.
  destruct (SuperPoint.filter_from 0 keypoints scores config) as [[fk fs]|];
    simpl; [|discriminate].
  intros Hg. apply gather_length in Hg.
  rewrite size_t_of_int_nonneg in Hg by exact Hmax. lia.
Qed.

Lemma DISK_FilterKeypoints_at_most (P : Platform) keypoints scores config res :
  (0 <= DISK.max_keypoints config <= INT_MAX)%Z ->
  DISK.FilterKeypoints keypoints scores config = Some res ->
  (Z.of_nat (length res) <= DISK.max_keypoints config)%Z.
Proof.
  intros Hmax. unfold DISK.FilterKeypoints.
  destruct (DISK.filter_from 0 keypoints scores config) as [fk|];
    simpl; [|discriminate].
  intros Hg. apply gather_length in Hg.
  rewrite size_t_of_int_nonneg in Hg by exact Hmax. lia.
Qed.

(** SuperPoint's selection under a conforming sort: the result lists the
    survivors at the first [num] sorted positions, in descending score, and
    no survivor left out scores higher than one that was taken. *)
Lemma SuperPoint_FilterKeypoints_top (P : Platform) keypoints scores config :
  std_sort_conforms P ->
  length keypoints <= length scores ->
  let sv := survivors (SuperPoint.keypoint_threshold config)
              (SuperPoint.remove_borders config)
              (SuperPoint.border_margin config) 640 480 keypoints scores in
  exists idx res,
    SuperPoint.FilterKeypoints keypoints scores config = Some res
    /\ Forall2 (fun i kp => sv.*1 !! i = Some kp) idx res
    /\ NoDup idx
    /\ length res
       = Z.to_nat (Z.min (size_t_of_int (SuperPoint.max_keypoints config))
                         (Z.of_nat (length sv)))
    /\ sorted_by (by_score_desc (sv.*2)) idx
    /\ (forall i j, i ∈ idx -> j < length sv -> j ∉ idx ->
          (score_at (sv.*2) j <= score_at (sv.*2) i)%Q).
Proof.
  intros Hconf Hlen sv. unfold SuperPoint.FilterKeypoints.
  rewrite (SuperPoint_filter_from_survivors config keypoints scores Hlen).
  fold sv. simpl.
  set (sorted := std_sort (by_score_desc (sv.*2)) (seq 0 (length (sv.*1)))).
  pose proof (conforming_sort_perm P (sv.*2) (seq 0 (length (sv.*1))) Hconf) as Hp.
  pose proof (conforming_sort_sorted P (sv.*2) (seq 0 (length (sv.*1))) Hconf) as Hs.
  fold sorted in Hp, Hs.
  assert (Hlsorted : length sorted = length sv).
  { rewrite <- (Permutation_length Hp), length_seq. apply length_fmap. }
  set (num := Z.to_nat (Z.min (size_t_of_int (SuperPoint.max_keypoints config))
                              (Z.of_nat (length sorted)))).
  assert (Hin : forall i, i ∈ sorted <-> i < length sv).
  { intros i. rewrite <- Hp, elem_of_seq, length_fmap. lia. }
  destruct (gather_total (sv.*1) sorted num) as (res & Hres & HF).
  { apply Forall_forall. intros i Hi. apply Hin in Hi. by rewrite length_fmap. }
  exists (take num sorted), res. split; [exact Hres|]. split; [exact HF|].
  split; [|split; [|split]].
  - eapply sublist_NoDup; [|apply sublist_take].
    rewrite <- Hp. apply NoDup_seq.
  - rewrite (gather_length _ _ _ _ Hres). unfold num. rewrite Hlsorted. lia.
  - intros i j a b Hij Ha Hb.
    apply lookup_take_Some in Ha. apply lookup_take_Some in Hb.
    eapply Hs; [exact Hij| apply Ha | apply Hb].
  - intros i j Hi Hj Hnj.
    apply list_elem_of_lookup in Hi. destruct Hi as [a Ha].
    apply lookup_take_Some in Ha. destruct Ha as [Ha Hanum].
    apply Hin in Hj. apply list_elem_of_lookup in Hj. destruct Hj as [b Hb].
    assert (num <= b) as Hb'.
    { destruct (le_lt_dec num b) as [?|Hlt]; [assumption|]. exfalso. apply Hnj.
      apply list_elem_of_lookup. exists b. apply lookup_take_Some. auto. }
    apply Qlt_bool_ge. apply (Hs a b i j); [lia|exact Ha|exact Hb].
Qed.

(** ** Matching *)

Lemma LoFTR_mutual_from_eq config scores ms : forall i,
  i + length ms <= length scores ->
  LoFTR.mutual_from i ms scores config
  = Some ((List.filter (fun p : Z * Z * Q =>
                          Qge_bool p.2 (LoFTR.mutual_threshold config))
                       (zip ms (drop i scores))).*1).
Proof.
  induction ms as [|m rest IH]; intros i Hlen; simpl in *; [reflexivity|].
  destruct (lookup_lt_is_Some_2 scores i ltac:(lia)) as [s Hs].
  rewrite Hs. simpl. rewrite (drop_S _ _ _ Hs). simpl.
  rewrite (IH (S i)) by lia. simpl.
  destruct (Qge_bool s _); reflexivity.
Qed.

(** What [ApplyMutualCheck] computes: the pairs whose score reaches
    [mutual_threshold], and nothing about partners. *)
Lemma ApplyMutualCheck_is_threshold matches scores config :
  length matches <= length scores ->
  LoFTR.ApplyMutualCheck matches scores config
  = Some ((List.filter (fun p : Z * Z * Q =>
                          Qge_bool p.2 (LoFTR.mutual_threshold config))
                       (zip matches scores)).*1).
Proof. intros H. apply (LoFTR_mutual_from_eq config scores matches 0 H). Qed.

Lemma sublist_fmap_list {A B} (f : A -> B) (l1 l2 : list A) :
  l1 `sublist_of` l2 -> (f <$> l1) `sublist_of` (f <$> l2).
Proof.
  induction 1; simpl; [constructor|by constructor|by constructor].
Qed.

Lemma LoFTR_mutual_from_sublist config scores ms : forall i kept,
  LoFTR.mutual_from i ms scores config = Some kept -> kept `sublist_of` ms.
Proof.
  induction ms as [|m rest IH]; intros i kept; simpl.
  - intros [= <-]. constructor.
  - destruct (scores !! i) as [s|]; simpl; [|discriminate].
    destruct (LoFTR.mutual_from (S i) rest scores config) as [k|] eqn:E;
      simpl; [|discriminate].
    specialize (IH _ _ E).
    destruct (Qge_bool s _); intros [= <-]; by constructor.
Qed.

Lemma diagonal_length n : length (diagonal n) = n.
Proof. unfold diagonal. by rewrite length_map, length_seq. Qed.

Lemma diagonal_elem n a b :
  (a, b) ∈ diagonal n -> a = b /\ (0 <= a < Z.of_nat n)%Z.
Proof.
  unfold diagonal. intros H. apply list_elem_of_In, in_map_iff in H.
  destruct H as (i & [= <- <-] & Hi). apply in_seq in Hi. split; [reflexivity|lia].
Qed.

Lemma diagonal_NoDup n : NoDup ((diagonal n).*1) /\ NoDup ((diagonal n).*2).
Proof.
  assert (Heq : forall g : Z * Z -> Z, (forall i, g (Z.of_nat i, Z.of_nat i) = Z.of_nat i) ->
            g <$> diagonal n = Z.of_nat <$> seq 0 n).
  { intros g Hg. unfold diagonal.
    induction (seq 0 n) as [|i l IH]; [reflexivity|].
    change (g (Z.of_nat i, Z.of_nat i)
              :: (g <$> List.map (fun i => (Z.of_nat i, Z.of_nat i)) l)
            = Z.of_nat i :: (Z.of_nat <$> l)).
    f_equal; [apply Hg|exact IH]. }
  split; (rewrite Heq by reflexivity; apply NoDup_fmap_2; [apply _|apply NoDup_seq]).
Qed.






Lemma LoFTR_threshold_from_lengths config scores ms : forall i fm fs,
  LoFTR.threshold_from i ms scores config = Some (fm, fs) ->
  length fm = length fs.
Proof.
  induction ms as [|m rest IH]; intros i fm fs; simpl.
  - by intros [= <- <-].
  - destruct (scores !! i) as [s|]; simpl; [|discriminate].
    destruct (LoFTR.threshold_from (S i) rest scores config) as [[fm' fs']|] eqn:E;
      simpl; [|discriminate].
    specialize (IH _ _ _ E).
    destruct (Qge_bool s _); intros [= <- <-]; simpl; congruence.
Qed.

(** LoFTR's result vectors have one length. *)
Lemma LoFTR_Match_lengths rnd image1 image2 config self r :
  LoFTR.Match rnd image1 image2 config self = Some r ->
  length (LoFTR.matches r) = length (LoFTR.match_scores r).
Proof.
  unfold LoFTR.Match. destruct (negb (LoFTR.loaded_ self)).
  - by intros [= <-].
  - match goal with
    | |- context [mbind _ ?m] => destruct m as [matches1|]; simpl; [|discriminate]
    end.
    match goal with
    | |- context [LoFTR.threshold_from 0 matches1 ?sc config] =>
        destruct (LoFTR.threshold_from 0 matches1 sc config) as [[fm fs]|] eqn:E;
        simpl; [|discriminate]
    end.
    intros [= <-]. simpl. by eapply LoFTR_threshold_from_lengths.
Qed.

(** SuperGlue never stores a score. *)
Lemma SuperGlue_Match_scores keypoints1 descriptors1 keypoints2 descriptors2 config self :
  SuperGlue.loaded_ self = true ->
  keypoints1 <> [] -> keypoints2 <> [] -> descriptors1 <> [] -> descriptors2 <> [] ->
  let r := SuperGlue.Match keypoints1 descriptors1 keypoints2 descriptors2 config self in
  length (SuperGlue.matches r) = Nat.min (length keypoints1) (length keypoints2)
  /\ 0 < length (SuperGlue.matches r)
  /\ SuperGlue.match_scores r = [].
Proof.
  intros Hl H1 H2 H3 H4. unfold SuperGlue.Match. rewrite Hl. simpl.
  destruct keypoints1, keypoints2, descriptors1, descriptors2; try congruence.
  simpl. rewrite length_map, length_seq. repeat split; lia.
Qed.

(** C6. SuperGlue's [Match] fills [matches] and leaves [match_scores]
    empty: for one keypoint on each side the result has one pair and no
    score.  LoFTR's [Match] replaces [matches] by the output of the mutual
    check and keeps reading the unfiltered score vector from position 0:
    with scores 0.8 for (0,0) and 0.9 for (1,1) and
    [mutual_threshold = 0.85] the result is the pair (1,1) with the score
    of (0,0). *)
Theorem match_scores_not_parallel :
  (SuperGlue.matches
     (SuperGlue.Match [edge_keypoint] [unit_descriptor] [edge_keypoint] [unit_descriptor]
        SuperGlue.default_config loaded_superglue) = [(0, 0)%Z]
   /\ SuperGlue.match_scores
        (SuperGlue.Match [edge_keypoint] [unit_descriptor] [edge_keypoint]
           [unit_descriptor] SuperGlue.default_config loaded_superglue) = [])
  /\ (exists r,
        LoFTR.Match pair_stream strip_image strip_image strict_mutual loaded_loftr
        = Some r
        /\ LoFTR.matches r = [(1, 1)%Z]
        /\ LoFTR.match_scores r = [dummy_score (8 # 10) (2 # 10) (pair_stream 0)]
        /\ (dummy_score (8 # 10) (2 # 10) (pair_stream 0) == 8 # 10)%Q
        /\ (dummy_score (8 # 10) (2 # 10) (pair_stream 1) == 9 # 10)%Q).
Proof.
  split; [split; reflexivity|].
  eexists. split; [reflexivity|]. repeat split.
Qed.

(** ** Lookups in mapped lists *)

Lemma lookup_map {A B} (f : A -> B) (l : list A) k :
  List.map f l !! k = f <$> l !! k.
Proof.
  revert k. induction l as [|a l IH]; intros [|k]; simpl; auto.
Qed.

(** * Further properties of the code *)

(** ** Registry: loading and unloading through names *)

Lemma Model_Load_succeeds `{P : Platform} config model :
  well_formed_parameters config \/ Model_IsLoaded model = true ->
  exists m1, Model_Load config model = (Normal true, m1)
    /\ Model_IsLoaded m1 = true
    /\ Model_GetType m1 = Model_GetType model.
Proof.
  intros Hpre. destruct model as [d|m|m|d]; simpl in *.
  - destruct (SuperPoint_Load_twice config d Hpre) as (s1 & H1 & _ & H3 & _).
    exists (SuperPointDetector s1). by rewrite H1.
  - destruct (SuperGlue_Load_twice config m) as (s1 & H1 & _ & H3 & _).
    exists (SuperGlueMatcher s1). by rewrite H1.
  - destruct (LoFTR_Load_twice config m Hpre) as (s1 & H1 & _ & H3 & _).
    exists (LoFTRMatcher s1). by rewrite H1.
  - destruct (DISK_Load_twice config d Hpre) as (s1 & H1 & _ & H3 & _).
    exists (DISKDetector s1). by rewrite H1.
Qed.

Lemma GetModel_Some name m p :
  GetModel name m = Some p <-> models_ m !! name = Some (Some p).
Proof.
  unfold GetModel. destruct (models_ m !! name) as [[q|]|]; split; congruence.
Qed.

Lemma IsModelLoaded_bound name w p obj :
  GetModel name (manager w) = Some p ->
  objects w !! p = Some obj ->
  IsModelLoaded name w = Some (Model_IsLoaded obj).
Proof.
  intros Hg Ho. apply GetModel_Some in Hg. unfold IsModelLoaded.
  rewrite Hg, Ho. reflexivity.
Qed.

Lemma LoadModel_live `{P : Platform} name config w p obj :
  GetModel name (manager w) = Some p ->
  objects w !! p = Some obj ->
  well_formed_parameters config \/ Model_IsLoaded obj = true ->
  exists obj',
    LoadModel name config w
    = Some (Normal true, {| objects := <[p := obj']> (objects w); manager := manager w |})
    /\ Model_IsLoaded obj' = true
    /\ Model_GetType obj' = Model_GetType obj.
Proof.
  intros Hg Ho Hpre. unfold LoadModel. rewrite Hg, Ho. simpl.
  destruct (Model_Load_succeeds config obj Hpre) as (m1 & H1 & H2 & H3).
  destruct (Model_IsLoaded obj) eqn:Hl.
  - exists obj. rewrite insert_id by exact Ho. by destruct w.
  - rewrite H1. exists m1. auto.
Qed.

Lemma UnloadModel_live name w p obj :
  GetModel name (manager w) = Some p ->
  objects w !! p = Some obj ->
  UnloadModel name w
  = Some (true, {| objects := <[p := Model_Unload obj]> (objects w);
                   manager := manager w |}).
Proof.
  intros Hg Ho. unfold UnloadModel. rewrite Hg, Ho. simpl.
  destruct (Model_IsLoaded obj) eqn:Hl; simpl; [reflexivity|].
  rewrite (Model_Unload_unloaded obj Hl), insert_id by exact Ho. by destruct w.
Qed.

(** X1. [LoadModel] on a bound name whose parameters convert returns true,
    after which [IsModelLoaded] answers true for that name; bindings, the
    other objects and the type of the model are as before.  On a name that
    is not bound it returns false and changes nothing. *)
Theorem LoadModel_then_IsModelLoaded `{P : Platform} name config w p obj :
  GetModel name (manager w) = Some p ->
  objects w !! p = Some obj ->
  well_formed_parameters config \/ Model_IsLoaded obj = true ->
  (exists w',
      LoadModel name config w = Some (Normal true, w')
      /\ IsModelLoaded name w' = Some true
      /\ manager w' = manager w
      /\ (forall q, q <> p -> objects w' !! q = objects w !! q)
      /\ (Model_GetType <$> objects w' !! p) = Some (Model_GetType obj))
  /\ (forall other, GetModel other (manager w) = None ->
        LoadModel other config w = Some (Normal false, w)).
Proof.
  intros Hg Ho Hpre. split.
  - destruct (LoadModel_live name config w p obj Hg Ho Hpre) as (obj' & HL & Hl & Ht).
    eexists. split; [exact HL|]. simpl.
    split; [|split; [reflexivity|split]].
    + erewrite IsModelLoaded_bound; [|exact Hg|simpl; apply lookup_insert_eq].
      by rewrite Hl.
    + intros q Hq. by rewrite lookup_insert_ne.
    + rewrite lookup_insert_eq. simpl. by rewrite Ht.
  - intros other Hnone. unfold LoadModel. by rewrite Hnone.
Qed.

Lemma LoadModel_then_IsModelLoaded_witness :
  (GetModel "superpoint" (manager registered_world) = Some 0
   /\ objects registered_world !! 0 = Some (SuperPointDetector SuperPoint.new)
   /\ (@well_formed_parameters reference_platform numeric_config
       \/ Model_IsLoaded (SuperPointDetector SuperPoint.new) = true))
  /\ exists w',
      @LoadModel reference_platform "superpoint" numeric_config registered_world
      = Some (Normal true, w')
      /\ IsModelLoaded "superpoint" w' = Some true.
Proof.
  assert (H1 : GetModel "superpoint" (manager registered_world) = Some 0)
    by reflexivity.
  assert (H2 : objects registered_world !! 0 = Some (SuperPointDetector SuperPoint.new))
    by reflexivity.
  assert (Hwf : @well_formed_parameters reference_platform numeric_config).
  { unfold well_formed_parameters, parameter_parses. simpl.
    repeat constructor; simpl; intros; try discriminate; eexists; reflexivity. }
  split; [auto|].
  destruct (proj1 (@LoadModel_then_IsModelLoaded reference_platform "superpoint"
                     numeric_config registered_world 0 _ H1 H2 (or_introl Hwf)))
    as (w' & Hl & Hi & _).
  exists w'. auto.
Defined.

(** X2. [UnloadModel] on a bound name returns true, after which
    [IsModelLoaded] answers false for that name, whether the model was
    loaded or not; bindings and the other objects are as before.  On a name
    that is not bound it returns false and changes nothing. *)
Theorem UnloadModel_then_not_loaded name w p obj :
  GetModel name (manager w) = Some p ->
  objects w !! p = Some obj ->
  (exists w',
      UnloadModel name w = Some (true, w')
      /\ IsModelLoaded name w' = Some false
      /\ manager w' = manager w
      /\ (forall q, q <> p -> objects w' !! q = objects w !! q))
  /\ (forall other, GetModel other (manager w) = None ->
        UnloadModel other w = Some (false, w)).
Proof.
  intros Hg Ho. split.
  - eexists. split; [exact (UnloadModel_live name w p obj Hg Ho)|]. simpl.
    split; [|split; [reflexivity|]].
    + erewrite IsModelLoaded_bound; [|exact Hg|simpl; apply lookup_insert_eq].
      by rewrite Model_Unload_not_loaded.
    + intros q Hq. by rewrite lookup_insert_ne.
  - intros other Hnone. unfold UnloadModel. by rewrite Hnone.
Qed.

Lemma UnloadModel_then_not_loaded_witness :
  (GetModel "superglue" (manager registered_world) = Some 1
   /\ objects registered_world !! 1 = Some (SuperGlueMatcher SuperGlue.new))
  /\ exists w',
      UnloadModel "superglue" registered_world = Some (true, w')
      /\ IsModelLoaded "superglue" w' = Some false.
Proof.
  assert (H1 : GetModel "superglue" (manager registered_world) = Some 1)
    by reflexivity.
  assert (H2 : objects registered_world !! 1 = Some (SuperGlueMatcher SuperGlue.new))
    by reflexivity.
  split; [auto|].
  destruct (proj1 (UnloadModel_then_not_loaded "superglue" registered_world 1 _ H1 H2))
    as (w' & Hu & Hi & _).
  exists w'. auto.
Defined.

Lemma Model_Unload_idem model : Model_Unload (Model_Unload model) = Model_Unload model.
Proof. apply Model_Unload_unloaded, Model_Unload_not_loaded. Qed.

Lemma unload_entry_live name p objs obj :
  objs !! p = Some obj ->
  unload_entry name (Some p) (Some objs) = Some (<[p := Model_Unload obj]> objs).
Proof.
  intros Ho. unfold unload_entry. simpl. rewrite Ho. simpl.
  destruct (Model_IsLoaded obj) eqn:Hl; [reflexivity|].
  by rewrite (Model_Unload_unloaded obj Hl), insert_id.
Qed.

Lemma bound_address_insert table name x q :
  table !! name = None ->
  bound_address (<[name := x]> table) q <-> (x = Some q \/ bound_address table q).
Proof.
  intros Hfresh. unfold bound_address. split.
  - intros [n Hn]. destruct (decide (name = n)) as [->|Hne].
    + rewrite lookup_insert_eq in Hn. left. congruence.
    + rewrite lookup_insert_ne in Hn by exact Hne. right. eauto.
  - intros [->|[n Hn]].
    + exists name. by rewrite lookup_insert_eq.
    + exists n. rewrite lookup_insert_ne; [exact Hn|]. congruence.
Qed.

(** The loop of [UnloadAllModels] over a table whose addresses are live:
    it unloads the objects the table holds and leaves the others. *)
Lemma unload_fold_spec objs0 table :
  all_live table objs0 ->
  exists objs,
    map_fold unload_entry (Some objs0) table = Some objs
    /\ (forall q, bound_address table q -> objs !! q = Model_Unload <$> objs0 !! q)
    /\ (forall q, ~ bound_address table q -> objs !! q = objs0 !! q).
Proof.
  revert table.
  enough (forall table,
             all_live table objs0 ->
             exists objs,
               map_fold unload_entry (Some objs0) table = Some objs
               /\ (forall q, bound_address table q ->
                     objs !! q = Model_Unload <$> objs0 !! q)
               /\ (forall q, ~ bound_address table q -> objs !! q = objs0 !! q)
               /\ (forall q, objs !! q = Model_Unload <$> objs0 !! q
                             \/ objs !! q = objs0 !! q)) as Hgen.
  { intros table Hlive. destruct (Hgen table Hlive) as (objs & H1 & H2 & H3 & _).
    eauto. }
  apply (map_fold_weak_ind
           (fun r table =>
              all_live table objs0 ->
              exists objs, r = Some objs
                /\ (forall q, bound_address table q ->
                      objs !! q = Model_Unload <$> objs0 !! q)
                /\ (forall q, ~ bound_address table q -> objs !! q = objs0 !! q)
                /\ (forall q, objs !! q = Model_Unload <$> objs0 !! q
                              \/ objs !! q = objs0 !! q))).
  - intros _. exists objs0. split; [reflexivity|]. split; [|auto].
    intros q [n Hn]. by rewrite lookup_empty in Hn.
  - intros name x table r Hfresh IH Hlive.
    destruct IH as (objs & -> & Hb & Hnb & Hor).
    { intros n p Hn. apply (Hlive n p). rewrite lookup_insert_ne; [exact Hn|].
      congruence. }
    destruct x as [p|].
    + destruct (Hlive name p) as [o0 Ho0]; [by rewrite lookup_insert_eq|].
      assert (exists obj, objs !! p = Some obj /\ Model_Unload obj = Model_Unload o0)
        as (obj & Ho & Hu).
      { destruct (Hor p) as [Hp|Hp]; rewrite Ho0 in Hp; simpl in Hp.
        - exists (Model_Unload o0). split; [exact Hp|apply Model_Unload_idem].
        - exists o0. auto. }
      rewrite (unload_entry_live name p objs obj Ho).
      eexists. split; [reflexivity|]. split; [|split].
      * intros q Hq. apply bound_address_insert in Hq; [|exact Hfresh].
        destruct (decide (q = p)) as [->|Hne].
        -- rewrite lookup_insert_eq, Ho0, Hu. reflexivity.
        -- rewrite lookup_insert_ne by congruence.
           destruct Hq as [Hq|Hq]; [congruence|by apply Hb].
      * intros q Hq. rewrite bound_address_insert in Hq by exact Hfresh.
        rewrite lookup_insert_ne; [apply Hnb; tauto|].
        intros ->. tauto.
      * intros q. destruct (decide (q = p)) as [->|Hne].
        -- left. rewrite lookup_insert_eq, Ho0, Hu. reflexivity.
        -- rewrite lookup_insert_ne by congruence. apply Hor.
    + exists objs. split; [reflexivity|]. split; [|split; [|exact Hor]].
      * intros q Hq. apply bound_address_insert in Hq; [|exact Hfresh].
        destruct Hq as [Hq|Hq]; [discriminate|by apply Hb].
      * intros q Hq. apply Hnb. rewrite bound_address_insert in Hq by exact Hfresh.
        tauto.
Qed.

(** X3. After [UnloadAllModels], [IsModelLoaded] answers false for every
    name, bound or not; the bindings are as before, every object a name is
    bound to is the unloaded form of what it was, and objects no name is
    bound to are untouched. *)
Theorem UnloadAllModels_unloads_every_name w :
  all_live (models_ (manager w)) (objects w) ->
  exists w',
    UnloadAllModels w = Some w'
    /\ manager w' = manager w
    /\ (forall name, IsModelLoaded name w' = Some false)
    /\ (forall q, bound_address (models_ (manager w)) q ->
          objects w' !! q = Model_Unload <$> objects w !! q)
    /\ (forall q, ~ bound_address (models_ (manager w)) q ->
          objects w' !! q = objects w !! q).
Proof.
  intros Hlive.
  destruct (unload_fold_spec (objects w) (models_ (manager w)) Hlive)
    as (objs & Hfold & Hb & Hnb).
  unfold UnloadAllModels. rewrite Hfold. simpl.
  eexists. split; [reflexivity|]. simpl. split; [reflexivity|].
  split; [|split; assumption].
  intros name. unfold IsModelLoaded. simpl.
  destruct (models_ (manager w) !! name) as [[p|]|] eqn:Hn; try reflexivity.
  rewrite (Hb p) by (by exists name).
  destruct (Hlive name p Hn) as [o Ho]. rewrite Ho. simpl.
  by rewrite Model_Unload_not_loaded.
Qed.

Lemma UnloadAllModels_unloads_every_name_witness :
  all_live (models_ (manager loaded_world)) (objects loaded_world)
  /\ IsModelLoaded "superpoint" loaded_world = Some true
  /\ exists w',
      UnloadAllModels loaded_world = Some w'
      /\ forall name, IsModelLoaded name w' = Some false.
Proof.
  assert (Hlive : all_live (models_ (manager loaded_world)) (objects loaded_world)).
  { intros name p Hn.
    assert (p = 0 \/ p = 1) as [-> | ->]; [|eexists; reflexivity..].
    change (models_ (manager loaded_world))
      with (<["superglue"%string := Some 1]>
              (<["superpoint"%string := Some 0]> (∅ : gmap string (option address))))
      in Hn.
    destruct (decide ("superglue"%string = name)) as [<-|H1].
    - rewrite lookup_insert_eq in Hn. right. congruence.
    - rewrite lookup_insert_ne in Hn by exact H1.
      destruct (decide ("superpoint"%string = name)) as [<-|H2].
      + rewrite lookup_insert_eq in Hn. left. congruence.
      + rewrite lookup_insert_ne, lookup_empty in Hn by exact H2. discriminate. }
  split; [exact Hlive|]. split; [reflexivity|].
  destruct (UnloadAllModels_unloads_every_name loaded_world Hlive)
    as (w' & Hu & _ & Hall & _).
  exists w'. auto.
Defined.

(** X4. Two names bound to one model object share its load state: a
    successful [LoadModel] through one name makes [IsModelLoaded] true for
    the other, and [UnloadModel] through one makes it false for the other. *)
Theorem aliases_share_load_state `{P : Platform} n1 n2 config w p obj :
  GetModel n1 (manager w) = Some p ->
  GetModel n2 (manager w) = Some p ->
  objects w !! p = Some obj ->
  well_formed_parameters config \/ Model_IsLoaded obj = true ->
  (exists w', LoadModel n1 config w = Some (Normal true, w')
      /\ IsModelLoaded n2 w' = Some true
      /\ exists w'', UnloadModel n2 w' = Some (true, w'')
           /\ IsModelLoaded n1 w'' = Some false).
Proof.
  intros H1 H2 Ho Hpre.
  destruct (LoadModel_live n1 config w p obj H1 Ho Hpre) as (obj' & HL & Hl & _).
  eexists. split; [exact HL|]. split.
  - erewrite IsModelLoaded_bound; [|exact H2|simpl; apply lookup_insert_eq].
    by rewrite Hl.
  - eexists. split.
    + apply (UnloadModel_live n2 _ p obj'); [exact H2|simpl; apply lookup_insert_eq].
    + erewrite IsModelLoaded_bound; [|exact H1|simpl; apply lookup_insert_eq].
      by rewrite Model_Unload_not_loaded.
Qed.

Lemma aliases_share_load_state_witness :
  (GetModel "detector" (manager aliased_world) = Some 0
   /\ GetModel "features" (manager aliased_world) = Some 0
   /\ objects aliased_world !! 0 = Some (SuperPointDetector SuperPoint.new)
   /\ (@well_formed_parameters reference_platform (config_with [])
       \/ Model_IsLoaded (SuperPointDetector SuperPoint.new) = true))
  /\ exists w',
      @LoadModel reference_platform "detector" (config_with []) aliased_world
      = Some (Normal true, w')
      /\ IsModelLoaded "features" w' = Some true.
Proof.
  assert (H1 : GetModel "detector" (manager aliased_world) = Some 0) by reflexivity.
  assert (H2 : GetModel "features" (manager aliased_world) = Some 0) by reflexivity.
  assert (H3 : objects aliased_world !! 0 = Some (SuperPointDetector SuperPoint.new))
    by reflexivity.
  assert (Hwf : @well_formed_parameters reference_platform (config_with []))
    by constructor.
  split; [auto|].
  destruct (@aliases_share_load_state reference_platform "detector" "features"
              (config_with []) aliased_world 0 _ H1 H2 H3 (or_introl Hwf))
    as (w' & Hl & Hi & _).
  exists w'. auto.
Defined.

(** ** Registry: lookup by type, enumeration, devices *)

Lemma GetModel_by_type_bound type name m p :
  model_type_map_ m !! type = Some name ->
  models_ m !! name = Some (Some p) ->
  GetModel_by_type type m = Some p.
Proof.
  intros Ht Hn. unfold GetModel_by_type. rewrite Ht. by apply GetModel_Some.
Qed.

(** X5. After a model is registered, [GetModel(type)] for its type returns
    that model and [IsModelTypeAvailable] is true; when a second model of
    the same type is registered, under any name, the lookup by type returns
    the second. *)
Theorem GetModel_by_type_last_registration n1 n2 w p1 p2 o1 o2 :
  objects w !! p1 = Some o1 ->
  objects w !! p2 = Some o2 ->
  Model_GetType o1 = Model_GetType o2 ->
  exists w1 w2,
    RegisterModel n1 (Some p1) w = Some (true, w1)
    /\ GetModel_by_type (Model_GetType o1) (manager w1) = Some p1
    /\ IsModelTypeAvailable (Model_GetType o1) (manager w1) = true
    /\ RegisterModel n2 (Some p2) w1 = Some (true, w2)
    /\ GetModel_by_type (Model_GetType o1) (manager w2) = Some p2.
Proof.
  intros H1 H2 Ht.
  destruct (RegisterModel_live n1 p1 o1 w H1) as (w1 & Hr1 & Ho1 & Hm1 & Ht1).
  assert (objects w1 !! p2 = Some o2) as H2' by (by rewrite Ho1).
  destruct (RegisterModel_live n2 p2 o2 w1 H2') as (w2 & Hr2 & _ & Hm2 & Ht2).
  exists w1, w2. split; [exact Hr1|]. split; [|split; [|split; [exact Hr2|]]].
  - apply GetModel_by_type_bound with n1.
    + rewrite Ht1. apply lookup_insert_eq.
    + rewrite Hm1. apply lookup_insert_eq.
  - unfold IsModelTypeAvailable. apply bool_decide_eq_true.
    rewrite Ht1, lookup_insert_eq. eauto.
  - apply GetModel_by_type_bound with n2.
    + rewrite Ht2, Ht. apply lookup_insert_eq.
    + rewrite Hm2. apply lookup_insert_eq.
Qed.

Lemma GetModel_by_type_last_registration_witness :
  (objects twin_world !! 0 = Some (SuperPointDetector SuperPoint.new)
   /\ objects twin_world !! 1 = Some (SuperPointDetector loaded_superpoint)
   /\ Model_GetType (SuperPointDetector SuperPoint.new)
      = Model_GetType (SuperPointDetector loaded_superpoint))
  /\ exists w1 w2,
      RegisterModel "a" (Some 0) twin_world = Some (true, w1)
      /\ GetModel_by_type SUPERPONT_DETECTOR (manager w1) = Some 0
      /\ IsModelTypeAvailable SUPERPONT_DETECTOR (manager w1) = true
      /\ RegisterModel "b" (Some 1) w1 = Some (true, w2)
      /\ GetModel_by_type SUPERPONT_DETECTOR (manager w2) = Some 1.
Proof.
  assert (H1 : objects twin_world !! 0 = Some (SuperPointDetector SuperPoint.new))
    by reflexivity.
  assert (H2 : objects twin_world !! 1 = Some (SuperPointDetector loaded_superpoint))
    by reflexivity.
  split; [auto|].
  exact (GetModel_by_type_last_registration "a" "b" twin_world 0 1 _ _ H1 H2 eq_refl).
Defined.

(** X6. The type table is not cleaned when a name is rebound: after a
    model of one type and then a model of another type are registered
    under the same name, [GetModel(type)] for the first type still finds
    the name and returns the second model, whose type is the other one. *)
Theorem GetModel_by_type_stale_binding name w p1 p2 o1 o2 :
  objects w !! p1 = Some o1 ->
  objects w !! p2 = Some o2 ->
  Model_GetType o1 <> Model_GetType o2 ->
  exists w1 w2,
    RegisterModel name (Some p1) w = Some (true, w1)
    /\ RegisterModel name (Some p2) w1 = Some (true, w2)
    /\ GetModel_by_type (Model_GetType o1) (manager w2) = Some p2
    /\ (Model_GetType <$> objects w2 !! p2) = Some (Model_GetType o2).
Proof.
  intros H1 H2 Hne.
  destruct (RegisterModel_live name p1 o1 w H1) as (w1 & Hr1 & Ho1 & Hm1 & Ht1).
  assert (objects w1 !! p2 = Some o2) as H2' by (by rewrite Ho1).
  destruct (RegisterModel_live name p2 o2 w1 H2') as (w2 & Hr2 & Ho2 & Hm2 & Ht2).
  exists w1, w2. split; [exact Hr1|]. split; [exact Hr2|]. split.
  - apply GetModel_by_type_bound with name.
    + rewrite Ht2, lookup_insert_ne by congruence.
      rewrite Ht1. apply lookup_insert_eq.
    + rewrite Hm2. apply lookup_insert_eq.
  - by rewrite Ho2, H2'.
Qed.

Lemma GetModel_by_type_stale_binding_witness :
  (objects fresh_world !! 0 = Some (SuperPointDetector SuperPoint.new)
   /\ objects fresh_world !! 1 = Some (SuperGlueMatcher SuperGlue.new)
   /\ Model_GetType (SuperPointDetector SuperPoint.new)
      <> Model_GetType (SuperGlueMatcher SuperGlue.new))
  /\ exists w1 w2,
      RegisterModel "m" (Some 0) fresh_world = Some (true, w1)
      /\ RegisterModel "m" (Some 1) w1 = Some (true, w2)
      /\ GetModel_by_type SUPERPONT_DETECTOR (manager w2) = Some 1
      /\ (Model_GetType <$> objects w2 !! 1) = Some SUPERGLUE_MATCHER.
Proof.
  assert (H1 : objects fresh_world !! 0 = Some (SuperPointDetector SuperPoint.new))
    by reflexivity.
  assert (H2 : objects fresh_world !! 1 = Some (SuperGlueMatcher SuperGlue.new))
    by reflexivity.
  assert (H3 : Model_GetType (SuperPointDetector SuperPoint.new)
               <> Model_GetType (SuperGlueMatcher SuperGlue.new)) by discriminate.
  split; [auto|].
  exact (GetModel_by_type_stale_binding "m" fresh_world 0 1 _ _ H1 H2 H3).
Defined.

Lemma elem_of_GetAvailableModels name m :
  name ∈ GetAvailableModels m <-> is_Some (models_ m !! name).
Proof.
  unfold GetAvailableModels. rewrite list_elem_of_fmap. split.
  - intros ([n x] & -> & Hin). apply elem_of_map_to_list in Hin. simpl. eauto.
  - intros [x Hx]. exists (name, x). split; [reflexivity|].
    by apply elem_of_map_to_list.
Qed.

Lemma RegisterModel_no_empty_binding name model w r w' :
  no_empty_binding (models_ (manager w)) ->
  RegisterModel name model w = Some (r, w') ->
  no_empty_binding (models_ (manager w')).
Proof.
  intros Hinv. unfold RegisterModel. destruct model as [p|].
  - destruct (objects w !! p) as [obj|]; simpl; [|discriminate].
    intros [= <- <-]. simpl. intros n.
    destruct (decide (name = n)) as [->|Hne].
    + rewrite lookup_insert_eq. discriminate.
    + rewrite lookup_insert_ne by exact Hne. apply Hinv.
  - by intros [= <- <-].
Qed.

Lemma register_all_no_empty_binding regs : forall w w',
  no_empty_binding (models_ (manager w)) ->
  register_all regs w = Some w' ->
  no_empty_binding (models_ (manager w')).
Proof.
  induction regs as [|[name model] rest IH]; intros w w' Hinv; simpl.
  - by intros [= <-].
  - destruct (RegisterModel name model w) as [[r w1]|] eqn:E; simpl; [|discriminate].
    apply IH. exact (RegisterModel_no_empty_binding _ _ _ _ _ Hinv E).
Qed.

(** X7. [GetAvailableModels] lists exactly the bound names, each once, and
    as many as there are bindings; registering a model adds its name and
    keeps the names listed before; a name [IsModelLoaded] reports loaded is
    in the list.  [RegisterModel] never binds a name to an empty pointer: in
    the empty registry and after any run of registrations from a registry
    without such a binding, [GetModel] of every listed name is not empty. *)
Theorem GetAvailableModels_lists_bound_names name w p obj :
  objects w !! p = Some obj ->
  (forall n, n ∈ GetAvailableModels (manager w) <-> is_Some (models_ (manager w) !! n))
  /\ NoDup (GetAvailableModels (manager w))
  /\ length (GetAvailableModels (manager w)) = size (models_ (manager w))
  /\ (forall n, IsModelLoaded n w = Some true -> n ∈ GetAvailableModels (manager w))
  /\ (exists w',
        RegisterModel name (Some p) w = Some (true, w')
        /\ (forall n, n ∈ GetAvailableModels (manager w')
                      <-> n = name \/ n ∈ GetAvailableModels (manager w))
        /\ GetModel name (manager w') = Some p)
  /\ no_empty_binding (models_ MLManager_Instance)
  /\ (forall regs w',
        no_empty_binding (models_ (manager w)) ->
        register_all regs w = Some w' ->
        no_empty_binding (models_ (manager w'))
        /\ forall n, n ∈ GetAvailableModels (manager w') ->
                     is_Some (GetModel n (manager w'))).
Proof.
  intros Ho. split; [|split; [|split; [|split; [|split; [|split]]]]].
  - intros n. apply elem_of_GetAvailableModels.
  - apply NoDup_fst_map_to_list.
  - unfold GetAvailableModels. rewrite length_fmap. apply length_map_to_list.
  - intros n Hn. apply elem_of_GetAvailableModels. unfold IsModelLoaded in Hn.
    destruct (models_ (manager w) !! n); [eauto|discriminate].
  - destruct (RegisterModel_live name p obj w Ho) as (w' & Hr & _ & Hm & _).
    exists w'. split; [exact Hr|]. split.
    + intros n. rewrite !elem_of_GetAvailableModels, Hm.
      destruct (decide (name = n)) as [->|Hne].
      * rewrite lookup_insert_eq. split; eauto.
      * rewrite lookup_insert_ne by exact Hne. split; [auto|].
        intros [->|H]; [congruence|exact H].
    + apply GetModel_Some. rewrite Hm. apply lookup_insert_eq.
  - intros n. simpl. by rewrite lookup_empty.
  - intros regs w' Hinv Hregs.
    pose proof (register_all_no_empty_binding regs w w' Hinv Hregs) as Hinv'.
    split; [exact Hinv'|].
    intros n Hn. apply elem_of_GetAvailableModels in Hn. destruct Hn as [[q|] Hq].
    + exists q. by apply GetModel_Some.
    + by destruct (Hinv' n).
Qed.

Lemma GetAvailableModels_lists_bound_names_witness :
  (objects registered_world !! 0 = Some (SuperPointDetector SuperPoint.new)
   /\ no_empty_binding (models_ (manager registered_world))
   /\ register_all [("features"%string, Some 0); ("nothing"%string, None)]
        registered_world
      = Some aliased_registry)
  /\ (forall n, n ∈ GetAvailableModels (manager aliased_registry) ->
                is_Some (GetModel n (manager aliased_registry)))
  /\ "features"%string ∈ GetAvailableModels (manager aliased_registry).
Proof.
  assert (H1 : objects registered_world !! 0 = Some (SuperPointDetector SuperPoint.new))
    by reflexivity.
  assert (H3 : register_all [("features"%string, Some 0); ("nothing"%string, None)]
                 registered_world = Some aliased_registry) by reflexivity.
  pose proof (GetAvailableModels_lists_bound_names "x" registered_world 0 _ H1)
    as (_ & _ & _ & _ & _ & Hempty & Hall).
  assert (H2 : no_empty_binding (models_ (manager registered_world))).
  { exact (register_all_no_empty_binding
             [("superpoint"%string, Some 0); ("superglue"%string, Some 1)]
             fresh_world registered_world Hempty eq_refl). }
  split; [auto|]. split; [exact (proj2 (Hall _ _ H2 H3))|].
  apply elem_of_GetAvailableModels. exists (Some 0). reflexivity.
Defined.

(** X8. [SetDefaultDevice] accepts CPU and CUDA and nothing else: for
    OPENCL and VULKAN the manager is left exactly as it was, so the default
    device is always CPU or CUDA once it was; no call changes a binding. *)
Theorem SetDefaultDevice_accepts_only_listed (device : MLDevice) (m : MLManager) :
  (device = CPU \/ device = CUDA ->
     GetDefaultDevice (SetDefaultDevice device m) = device)
  /\ (device = OPENCL \/ device = VULKAN ->
        IsDeviceAvailable device m = false /\ SetDefaultDevice device m = m)
  /\ models_ (SetDefaultDevice device m) = models_ m
  /\ model_type_map_ (SetDefaultDevice device m) = model_type_map_ m
  /\ (GetDefaultDevice m = CPU \/ GetDefaultDevice m = CUDA ->
        GetDefaultDevice (SetDefaultDevice device m) = CPU
        \/ GetDefaultDevice (SetDefaultDevice device m) = CUDA).
Proof.
  split; [|split; [|split; [|split]]].
  - intros [-> | ->]; reflexivity.
  - intros [-> | ->]; split; reflexivity.
  - destruct device; reflexivity.
  - destruct device; reflexivity.
  - intros H. destruct device; simpl; auto.
Qed.

Lemma SetDefaultDevice_accepts_only_listed_witness :
  IsDeviceAvailable VULKAN MLManager_Instance = false
  /\ SetDefaultDevice VULKAN MLManager_Instance = MLManager_Instance.
Proof.
  exact (proj1 (proj2 (SetDefaultDevice_accepts_only_listed VULKAN MLManager_Instance))
           (or_intror eq_refl)).
Defined.

(** ** Lifecycle: failure, configuration and restart *)

Lemma SuperPoint_Load_throws `{P : Platform} config self e s' :
  SuperPoint.Load config self = (Throws e, s') ->
  SuperPoint.loaded_ self = false
  /\ SuperPoint.loaded_ s' = false
  /\ SuperPoint.init_calls s' = SuperPoint.init_calls self
  /\ SuperPoint.model_ptr_ s' = SuperPoint.model_ptr_ self
  /\ SuperPoint.backend_ s' = backend config
  /\ SuperPoint.device_ s' = device config.
Proof.
  unfold SuperPoint.Load. destruct (SuperPoint.loaded_ self) eqn:El; [discriminate|].
  destruct (SuperPoint.store_parameters _ _) as [[[]|e'] c]; simpl;
    intros [= <- <-]; simpl; repeat split; auto.
Qed.

Lemma DISK_Load_throws `{P : Platform} config self e s' :
  DISK.Load config self = (Throws e, s') ->
  DISK.loaded_ self = false
  /\ DISK.loaded_ s' = false
  /\ DISK.init_calls s' = DISK.init_calls self
  /\ DISK.model_ptr_ s' = DISK.model_ptr_ self
  /\ DISK.backend_ s' = backend config
  /\ DISK.device_ s' = device config.
Proof.
  unfold DISK.Load. destruct (DISK.loaded_ self) eqn:El; [discriminate|].
  destruct (DISK.store_parameters _ _) as [[[]|e'] c]; simpl;
    intros [= <- <-]; simpl; repeat split; auto.
Qed.

Lemma LoFTR_Load_throws `{P : Platform} config self e s' :
  LoFTR.Load config self = (Throws e, s') ->
  LoFTR.loaded_ self = false
  /\ LoFTR.loaded_ s' = false
  /\ LoFTR.init_calls s' = LoFTR.init_calls self
  /\ LoFTR.model_ptr_ s' = LoFTR.model_ptr_ self
  /\ LoFTR.backend_ s' = backend config
  /\ LoFTR.device_ s' = device config.
Proof.
  unfold LoFTR.Load. destruct (LoFTR.loaded_ self) eqn:El; [discriminate|].
  destruct (LoFTR.store_parameters _ _) as [[[]|e'] c]; simpl;
    intros [= <- <-]; simpl; repeat split; auto.
Qed.

Lemma SuperGlue_Load_never_throws config self e s' :
  SuperGlue.Load config self <> (Throws e, s').
Proof. unfold SuperGlue.Load. destruct (SuperGlue.loaded_ self); discriminate. Qed.

(** X9. When [Load] ends by an exception the model was unloaded and stays
    unloaded, the initialization has not run and the model keeps its type,
    but [backend_] and [device_] already hold the values of the failed
    configuration; a later [Load] with parameters that convert succeeds. *)
Theorem Load_exception_state `{P : Platform} config model e m' :
  Model_Load config model = (Throws e, m') ->
  Model_IsLoaded model = false
  /\ Model_IsLoaded m' = false
  /\ Model_init_calls m' = Model_init_calls model
  /\ Model_GetType m' = Model_GetType model
  /\ Model_GetBackend m' = backend config
  /\ Model_GetDevice m' = device config
  /\ (forall config2, well_formed_parameters config2 ->
        exists m2, Model_Load config2 m' = (Normal true, m2)
                   /\ Model_IsLoaded m2 = true).
Proof.
  intros HL.
  assert (Hrec : forall config2, well_formed_parameters config2 ->
            exists m2, Model_Load config2 m' = (Normal true, m2)
                       /\ Model_IsLoaded m2 = true).
  { intros config2 Hwf.
    destruct (Model_Load_succeeds config2 m' (or_introl Hwf)) as (m2 & H1 & H2 & _).
    eauto. }
  destruct model as [d|m|m|d]; simpl in HL.
  - destruct (SuperPoint.Load config d) as [r d'] eqn:E. injection HL as -> <-.
    destruct (SuperPoint_Load_throws _ _ _ _ E) as (H1 & H2 & H3 & H4 & H5 & H6).
    simpl. unfold SuperPoint.IsLoaded. repeat split; auto.
  - destruct (SuperGlue.Load config m) as [r m1] eqn:E. injection HL as -> <-.
    exfalso. exact (SuperGlue_Load_never_throws _ _ _ _ E).
  - destruct (LoFTR.Load config m) as [r m1] eqn:E. injection HL as -> <-.
    destruct (LoFTR_Load_throws _ _ _ _ E) as (H1 & H2 & H3 & H4 & H5 & H6).
    simpl. unfold LoFTR.IsLoaded. repeat split; auto.
  - destruct (DISK.Load config d) as [r d'] eqn:E. injection HL as -> <-.
    destruct (DISK_Load_throws _ _ _ _ E) as (H1 & H2 & H3 & H4 & H5 & H6).
    simpl. unfold DISK.IsLoaded. repeat split; auto.
Qed.

Lemma Load_exception_state_witness :
  exists m',
    @Model_Load reference_platform half_malformed_config
      (SuperPointDetector SuperPoint.new) = (Throws invalid_argument, m')
    /\ Model_IsLoaded m' = false
    /\ Model_GetBackend m' = ONNX
    /\ Model_GetDevice m' = CUDA.
Proof.
  eexists. split; [reflexivity|].
  pose proof (@Load_exception_state reference_platform half_malformed_config
                (SuperPointDetector SuperPoint.new) invalid_argument _ eq_refl)
    as (_ & H2 & _ & _ & H5 & H6 & _).
  auto.
Defined.

(** X10. A successful [Load] of an unloaded SuperPoint, DISK or LoFTR
    model stores the backend and device of the configuration; SuperGlue's
    [Load] does not read its configuration, so its backend and device stay
    what they were; [Load] of a loaded model changes nothing at all. *)
Theorem Load_backend_and_device `{P : Platform} config model m1 :
  Model_Load config model = (Normal true, m1) ->
  (Model_IsLoaded model = true -> m1 = model)
  /\ (Model_IsLoaded model = false ->
        match model with
        | SuperGlueMatcher _ =>
            Model_GetBackend m1 = Model_GetBackend model
            /\ Model_GetDevice m1 = Model_GetDevice model
            /\ Model_same_config m1 model
        | _ =>
            Model_GetBackend m1 = backend config
            /\ Model_GetDevice m1 = device config
        end).
Proof.
  intros HL. destruct model as [d|m|m|d]; simpl in *.
  - unfold SuperPoint.Load, SuperPoint.IsLoaded in *.
    destruct (SuperPoint.loaded_ d) eqn:El.
    + injection HL as <-. split; [reflexivity|discriminate].
    + split; [discriminate|intros _].
      destruct (SuperPoint.store_parameters _ _) as [[[]|e'] c]; simpl in HL;
        [|discriminate]. injection HL as <-. simpl. auto.
  - unfold SuperGlue.Load, SuperGlue.IsLoaded in *.
    destruct (SuperGlue.loaded_ m) eqn:El.
    + injection HL as <-. split; [reflexivity|discriminate].
    + split; [discriminate|intros _]. injection HL as <-. simpl. auto.
  - unfold LoFTR.Load, LoFTR.IsLoaded in *.
    destruct (LoFTR.loaded_ m) eqn:El.
    + injection HL as <-. split; [reflexivity|discriminate].
    + split; [discriminate|intros _].
      destruct (LoFTR.store_parameters _ _) as [[[]|e'] c]; simpl in HL;
        [|discriminate]. injection HL as <-. simpl. auto.
  - unfold DISK.Load, DISK.IsLoaded in *.
    destruct (DISK.loaded_ d) eqn:El.
    + injection HL as <-. split; [reflexivity|discriminate].
    + split; [discriminate|intros _].
      destruct (DISK.store_parameters _ _) as [[[]|e'] c]; simpl in HL;
        [|discriminate]. injection HL as <-. simpl. auto.
Qed.

Lemma Load_backend_and_device_witness :
  exists m1,
    @Model_Load reference_platform half_malformed_config
      (SuperGlueMatcher SuperGlue.new) = (Normal true, m1)
    /\ Model_GetBackend m1 = PYTORCH
    /\ Model_GetDevice m1 = CPU.
Proof.
  eexists. split; [reflexivity|].
  pose proof (proj2 (@Load_backend_and_device reference_platform half_malformed_config
                       (SuperGlueMatcher SuperGlue.new) _ eq_refl) eq_refl)
    as (H1 & H2 & _).
  auto.
Defined.

Lemma parameter_absent key params :
  key ∉ params.*1 -> parameter key params = None.
Proof.
  induction params as [|[k v] rest IH]; simpl; [reflexivity|].
  intros Hnotin. apply not_elem_of_cons in Hnotin. destruct Hnotin as [Hne Hrest].
  destruct (String.eqb_spec k key) as [->|_]; [congruence|by apply IH].
Qed.

Lemma SuperPoint_store_parameters_unread `{P : Platform} params : forall c c',
  SuperPoint.store_parameters params c = (Normal tt, c') ->
  SuperPoint.remove_borders c' = SuperPoint.remove_borders c
  /\ SuperPoint.border_margin c' = SuperPoint.border_margin c
  /\ SuperPoint.use_nms c' = SuperPoint.use_nms c
  /\ SuperPoint.compute_descriptors c' = SuperPoint.compute_descriptors c
  /\ SuperPoint.descriptor_dim c' = SuperPoint.descriptor_dim c
  /\ SuperPoint.descriptor_threshold c' = SuperPoint.descriptor_threshold c.
Proof.
  induction params as [|[key value] rest IH]; intros c c'; simpl.
  - intros [= <-]. repeat split.
  - repeat match goal with
           | |- context [String.eqb key ?lit] => destruct (String.eqb key lit)
           | |- context [stoi value] => destruct (stoi value); [|discriminate]
           | |- context [stof value] => destruct (stof value); [|discriminate]
           end;
      intros H; apply IH in H; exact H.
Qed.

(** What the parameter loop of SuperPoint's [Load] leaves in one of the
    three fields it can write. *)
Lemma SuperPoint_store_parameters_written `{P : Platform} params : forall c c',
  NoDup (params.*1) ->
  SuperPoint.store_parameters params c = (Normal tt, c') ->
  match parameter "max_keypoints" params with
  | Some s => stoi s = Normal (SuperPoint.max_keypoints c')
  | None => SuperPoint.max_keypoints c' = SuperPoint.max_keypoints c
  end
  /\ match parameter "keypoint_threshold" params with
     | Some s => stof s = Normal (SuperPoint.keypoint_threshold c')
     | None => SuperPoint.keypoint_threshold c' = SuperPoint.keypoint_threshold c
     end
  /\ match parameter "nms_radius" params with
     | Some s => stof s = Normal (SuperPoint.nms_radius c')
     | None => SuperPoint.nms_radius c' = SuperPoint.nms_radius c
     end.
Proof.
  induction params as [|[key value] rest IH]; intros c c' Hnd; simpl.
  - intros [= <-]. repeat split.
  - apply NoDup_cons in Hnd. destruct Hnd as [Hfresh Hnd]. simpl in Hfresh.
    destruct (String.eqb_spec key "max_keypoints") as [->|H1].
    { destruct (stoi value) as [v|] eqn:Ev; [|discriminate].
      intros H. destruct (IH _ _ Hnd H) as (Ha & Hb & Hc).
      rewrite (parameter_absent _ _ Hfresh) in Ha. simpl in *.
      rewrite Ha. auto. }
    destruct (String.eqb_spec key "keypoint_threshold") as [->|H2].
    { destruct (stof value) as [v|] eqn:Ev; [|discriminate].
      intros H. destruct (IH _ _ Hnd H) as (Ha & Hb & Hc).
      rewrite (parameter_absent _ _ Hfresh) in Hb. simpl in *.
      rewrite Hb. auto. }
    destruct (String.eqb_spec key "nms_radius") as [->|H3].
    { destruct (stof value) as [v|] eqn:Ev; [|discriminate].
      intros H. destruct (IH _ _ Hnd H) as (Ha & Hb & Hc).
      rewrite (parameter_absent _ _ Hfresh) in Hc. simpl in *.
      rewrite Hc. auto. }
    intros H. exact (IH _ _ Hnd H).
Qed.

(** X11. After a successful [Load] of an unloaded SuperPoint detector
    whose parameter keys are distinct, [GetConfig] holds for each of
    "max_keypoints", "keypoint_threshold" and "nms_radius" the converted
    value of that parameter when it is present and the former value when
    it is not; the six other fields are never written. *)
Theorem SuperPoint_Load_applies_parameters `{P : Platform} config self s1 :
  SuperPoint.loaded_ self = false ->
  NoDup ((parameters config).*1) ->
  SuperPoint.Load config self = (Normal true, s1) ->
  let c := SuperPoint.config_ self in
  let c' := SuperPoint.config_ s1 in
  match parameter "max_keypoints" (parameters config) with
  | Some s => stoi s = Normal (SuperPoint.max_keypoints c')
  | None => SuperPoint.max_keypoints c' = SuperPoint.max_keypoints c
  end
  /\ match parameter "keypoint_threshold" (parameters config) with
     | Some s => stof s = Normal (SuperPoint.keypoint_threshold c')
     | None => SuperPoint.keypoint_threshold c' = SuperPoint.keypoint_threshold c
     end
  /\ match parameter "nms_radius" (parameters config) with
     | Some s => stof s = Normal (SuperPoint.nms_radius c')
     | None => SuperPoint.nms_radius c' = SuperPoint.nms_radius c
     end
  /\ SuperPoint.remove_borders c' = SuperPoint.remove_borders c
  /\ SuperPoint.border_margin c' = SuperPoint.border_margin c
  /\ SuperPoint.use_nms c' = SuperPoint.use_nms c
  /\ SuperPoint.compute_descriptors c' = SuperPoint.compute_descriptors c
  /\ SuperPoint.descriptor_dim c' = SuperPoint.descriptor_dim c
  /\ SuperPoint.descriptor_threshold c' = SuperPoint.descriptor_threshold c.
Proof.
  intros Hl Hnd. unfold SuperPoint.Load. rewrite Hl.
  destruct (SuperPoint.store_parameters (parameters config) (SuperPoint.config_ self))
    as [[[]|e] c1] eqn:E; simpl; [|discriminate].
  intros [= <-]. simpl.
  destruct (SuperPoint_store_parameters_written _ _ _ Hnd E) as (Ha & Hb & Hc).
  pose proof (SuperPoint_store_parameters_unread _ _ _ E) as Hu.
  split; [exact Ha|]. split; [exact Hb|]. split; [exact Hc|exact Hu].
Qed.

Lemma SuperPoint_Load_applies_parameters_witness :
  (SuperPoint.loaded_ SuperPoint.new = false
   /\ NoDup ((parameters numeric_config).*1))
  /\ exists s1,
      @SuperPoint.Load reference_platform numeric_config SuperPoint.new
      = (Normal true, s1)
      /\ SuperPoint.max_keypoints (SuperPoint.config_ s1) = 512%Z
      /\ SuperPoint.border_margin (SuperPoint.config_ s1) = 4%Z.
Proof.
  assert (Hnd : NoDup ((parameters numeric_config).*1)).
  { apply (bool_decide_unpack _). vm_compute. reflexivity. }
  split; [split; [reflexivity|exact Hnd]|].
  eexists. split; [reflexivity|].
  pose proof (@SuperPoint_Load_applies_parameters reference_platform numeric_config
                SuperPoint.new _ eq_refl Hnd eq_refl) as (Ha & _ & _ & _ & Hm & _).
  split; [|exact Hm].
  change (Normal 512%Z
          = Normal (SuperPoint.max_keypoints
                      (SuperPoint.config_
                         (@SuperPoint.Load reference_platform numeric_config
                            SuperPoint.new).2))) in Ha.
  exact (f_equal (fun o => match o with Normal v => v | Throws _ => 0%Z end)
           (eq_sym Ha)).
Defined.

Lemma foreign_key_tests key :
  int_parameter key = false -> float_parameter key = false ->
  String.eqb key "max_keypoints" = false
  /\ String.eqb key "descriptor_dim" = false
  /\ String.eqb key "keypoint_threshold" = false
  /\ String.eqb key "nms_radius" = false
  /\ String.eqb key "match_threshold" = false
  /\ String.eqb key "coarse_threshold" = false
  /\ String.eqb key "fine_threshold" = false.
Proof.
  unfold int_parameter, float_parameter. rewrite !orb_false_iff. tauto.
Qed.

Lemma store_parameters_foreign `{P : Platform} params :
  Forall (fun kv : string * string =>
            int_parameter kv.1 = false /\ float_parameter kv.1 = false) params ->
  (forall c, SuperPoint.store_parameters params c = (Normal tt, c))
  /\ (forall c, DISK.store_parameters params c = (Normal tt, c))
  /\ (forall c, LoFTR.store_parameters params c = (Normal tt, c)).
Proof.
  induction 1 as [|[key value] rest [Hi Hf] _ (IH1 & IH2 & IH3)]; [by repeat split|].
  simpl in Hi, Hf.
  destruct (foreign_key_tests key Hi Hf) as (E1 & E2 & E3 & E4 & E5 & E6 & E7).
  repeat split; intros c; simpl; rewrite ?E1, ?E2, ?E3, ?E4, ?E5, ?E6, ?E7; auto.
Qed.

(** X12. Parameters under keys no model reads are ignored, whatever their
    values: [Load] of an unloaded model with only such parameters never
    converts a value, returns true and leaves the stored configuration as
    it was. *)
Theorem Load_ignores_foreign_keys `{P : Platform} config model :
  Forall (fun kv : string * string =>
            int_parameter kv.1 = false /\ float_parameter kv.1 = false)
         (parameters config) ->
  Model_IsLoaded model = false ->
  exists m1,
    Model_Load config model = (Normal true, m1)
    /\ Model_IsLoaded m1 = true
    /\ Model_same_config m1 model
    /\ Model_init_calls m1 = S (Model_init_calls model).
Proof.
  intros Hforeign Hl.
  destruct (store_parameters_foreign _ Hforeign) as (H1 & H2 & H3).
  destruct model as [d|m|m|d]; simpl in *.
  - unfold SuperPoint.Load, SuperPoint.IsLoaded in *. rewrite Hl, H1. simpl.
    eexists. split; [reflexivity|]. simpl. auto.
  - unfold SuperGlue.Load, SuperGlue.IsLoaded in *. rewrite Hl.
    eexists. split; [reflexivity|]. simpl. auto.
  - unfold LoFTR.Load, LoFTR.IsLoaded in *. rewrite Hl, H3. simpl.
    eexists. split; [reflexivity|]. simpl. auto.
  - unfold DISK.Load, DISK.IsLoaded in *. rewrite Hl, H2. simpl.
    eexists. split; [reflexivity|]. simpl. auto.
Qed.

Lemma Load_ignores_foreign_keys_witness :
  (Forall (fun kv : string * string =>
             int_parameter kv.1 = false /\ float_parameter kv.1 = false)
          (parameters foreign_config)
   /\ Model_IsLoaded (DISKDetector DISK.new) = false)
  /\ exists m1,
      @Model_Load reference_platform foreign_config (DISKDetector DISK.new)
      = (Normal true, m1)
      /\ Model_IsLoaded m1 = true
      /\ Model_same_config m1 (DISKDetector DISK.new)
      /\ Model_init_calls m1 = 1.
Proof.
  assert (H : Forall (fun kv : string * string =>
                        int_parameter kv.1 = false /\ float_parameter kv.1 = false)
                     (parameters foreign_config)).
  { repeat constructor. }
  split; [split; [exact H|reflexivity]|].
  exact (@Load_ignores_foreign_keys reference_platform foreign_config
           (DISKDetector DISK.new) H eq_refl).
Defined.

Lemma Model_Load_true_loaded `{P : Platform} config model m1 :
  Model_Load config model = (Normal true, m1) -> Model_IsLoaded m1 = true.
Proof.
  intros HL. destruct model as [d|m|m|d]; simpl in *.
  - unfold SuperPoint.Load in HL. destruct (SuperPoint.loaded_ d) eqn:El.
    + injection HL as <-. exact El.
    + destruct (SuperPoint.store_parameters _ _) as [[[]|e'] c]; simpl in HL;
        [|discriminate]. by injection HL as <-.
  - unfold SuperGlue.Load in HL. destruct (SuperGlue.loaded_ m) eqn:El.
    + injection HL as <-. exact El.
    + by injection HL as <-.
  - unfold LoFTR.Load in HL. destruct (LoFTR.loaded_ m) eqn:El.
    + injection HL as <-. exact El.
    + destruct (LoFTR.store_parameters _ _) as [[[]|e'] c]; simpl in HL;
        [|discriminate]. by injection HL as <-.
  - unfold DISK.Load in HL. destruct (DISK.loaded_ d) eqn:El.
    + injection HL as <-. exact El.
    + destruct (DISK.store_parameters _ _) as [[[]|e'] c]; simpl in HL;
        [|discriminate]. by injection HL as <-.
Qed.

(** X13. [Unload] keeps the stored configuration, and a [Load] that
    carries no parameters keeps it too: after Load, Unload and a second
    Load without parameters the model is loaded with the configuration the
    first Load left (its overrides are still in force), and the
    initialization has run once more. *)
Theorem configuration_survives_restart `{P : Platform} config config2 model m1 :
  Model_Load config model = (Normal true, m1) ->
  parameters config2 = [] ->
  Model_IsLoaded (Model_Unload m1) = false
  /\ Model_same_config (Model_Unload m1) m1
  /\ exists m3,
       Model_Load config2 (Model_Unload m1) = (Normal true, m3)
       /\ Model_IsLoaded m3 = true
       /\ Model_same_config m3 m1
       /\ Model_init_calls m3 = S (Model_init_calls m1).
Proof.
  intros HL Hnil. pose proof (Model_Load_true_loaded _ _ _ HL) as Hl1.
  split; [apply Model_Unload_not_loaded|].
  clear HL. destruct m1 as [d|m|m|d]; simpl in *.
  - unfold SuperPoint.IsLoaded in Hl1.
    unfold SuperPoint.Load, SuperPoint.Unload. rewrite Hl1, Hnil. simpl.
    split; [reflexivity|]. eexists. split; [reflexivity|]. simpl. auto.
  - unfold SuperGlue.IsLoaded in Hl1.
    unfold SuperGlue.Load, SuperGlue.Unload. rewrite Hl1. simpl.
    split; [reflexivity|]. eexists. split; [reflexivity|]. simpl. auto.
  - unfold LoFTR.IsLoaded in Hl1.
    unfold LoFTR.Load, LoFTR.Unload. rewrite Hl1, Hnil. simpl.
    split; [reflexivity|]. eexists. split; [reflexivity|]. simpl. auto.
  - unfold DISK.IsLoaded in Hl1.
    unfold DISK.Load, DISK.Unload. rewrite Hl1, Hnil. simpl.
    split; [reflexivity|]. eexists. split; [reflexivity|]. simpl. auto.
Qed.

Lemma configuration_survives_restart_witness :
  exists m1 m3,
    @Model_Load reference_platform numeric_config (SuperPointDetector SuperPoint.new)
    = (Normal true, m1)
    /\ @Model_Load reference_platform (config_with []) (Model_Unload m1)
       = (Normal true, m3)
    /\ Model_same_config m3 m1
    /\ Model_init_calls m3 = S (Model_init_calls m1).
Proof.
  eexists.
  destruct (@configuration_survives_restart reference_platform numeric_config
              (config_with []) (SuperPointDetector SuperPoint.new) _ eq_refl eq_refl)
    as (_ & _ & m3 & H1 & _ & H3 & H4).
  exists m3. split; [reflexivity|]. auto.
Defined.

(** ** [FilterKeypoints]: what comes out, when, and how many *)






Lemma conforming_indices_valid (P : Platform) scores n :
  std_sort_conforms P ->
  Forall (fun i => i < n) (std_sort (by_score_desc scores) (seq 0 n)).
Proof.
  intros Hconf. rewrite <- (conforming_sort_perm P scores (seq 0 n) Hconf).
  apply Forall_forall. intros i Hi. apply elem_of_seq in Hi. lia.
Qed.



Lemma gather_count_conforming (P : Platform) scores fk num :
  std_sort_conforms P ->
  exists res,
    gather fk (std_sort (by_score_desc scores) (seq 0 (length fk))) num = Some res
    /\ length res = Nat.min num (length fk).
Proof.
  intros Hconf.
  destruct (gather_total fk (std_sort (by_score_desc scores) (seq 0 (length fk))) num)
    as (res & Hres & _); [by apply conforming_indices_valid|].
  exists res. split; [exact Hres|].
  rewrite (gather_length _ _ _ _ Hres).
  by rewrite <- (Permutation_length (conforming_sort_perm P scores _ Hconf)), length_seq.
Qed.





(** X18. SuperPoint's selection under a conforming [std::sort]: the
    result lists survivors at distinct positions, [min(max_keypoints,
    survivors)] of them for a non-negative cap, in an order in which no
    later one scores higher than an earlier one, and no survivor that was
    left out scores higher than one that was taken. *)
Theorem SuperPoint_FilterKeypoints_keeps_best (P : Platform)
    (keypoints : list FeatureKeypoint) (scores : list Q)
    (config : SuperPoint.Config) :
  std_sort_conforms P ->
  length keypoints <= length scores ->
  let sv := survivors (SuperPoint.keypoint_threshold config)
              (SuperPoint.remove_borders config)
              (SuperPoint.border_margin config) 640 480 keypoints scores in
  exists idx res,
    SuperPoint.FilterKeypoints keypoints scores config = Some res
    /\ Forall2 (fun i kp => sv.*1 !! i = Some kp) idx res
    /\ NoDup idx
    /\ length res
       = Z.to_nat (Z.min (size_t_of_int (SuperPoint.max_keypoints config))
                         (Z.of_nat (length sv)))
    /\ (forall a b i j, a < b -> idx !! a = Some i -> idx !! b = Some j ->
          (score_at (sv.*2) j <= score_at (sv.*2) i)%Q)
    /\ (forall i j, i ∈ idx -> j < length sv -> j ∉ idx ->
          (score_at (sv.*2) j <= score_at (sv.*2) i)%Q).
Proof.
  intros Hconf Hlen sv.
  destruct (SuperPoint_FilterKeypoints_top P keypoints scores config Hconf Hlen)
    as (idx & res & H1 & H2 & H3 & H4 & H5 & H6).
  exists idx, res. fold sv in H2, H4, H5, H6.
  repeat (split; [assumption|]). split; [|exact H6].
  intros a b i j Hab Ha Hb. apply Qlt_bool_ge. exact (H5 a b i j Hab Ha Hb).
Qed.

Lemma SuperPoint_FilterKeypoints_keeps_best_witness :
  (std_sort_conforms reference_platform
   /\ length three_keypoints <= length three_scores)
  /\ exists (idx : list nat) res,
      @SuperPoint.FilterKeypoints reference_platform three_keypoints three_scores
        superpoint_best = Some res
      /\ NoDup idx
      /\ length res = 1.
Proof.
  assert (H1 : length three_keypoints <= length three_scores) by (simpl; lia).
  split; [split; [exact reference_platform_conforms|exact H1]|].
  destruct (SuperPoint_FilterKeypoints_keeps_best reference_platform three_keypoints
              three_scores superpoint_best reference_platform_conforms H1)
    as (idx & res & Hr & _ & Hnd & Hn & _).
  exists idx, res. split; [exact Hr|]. split; [exact Hnd|]. exact Hn.
Defined.

Lemma filter_all {A} (f : A -> bool) (l : list A) :
  Forall (fun a => f a = true) l -> List.filter f l = l.
Proof.
  induction 1 as [|a l Ha _ IH]; simpl; [reflexivity|]. by rewrite Ha, IH.
Qed.

(** X19. DISK's misplaced score lookup is harmless when the first loop
    drops nothing: if every keypoint passes the threshold and border test
    and the two vectors have one length, DISK's [FilterKeypoints] returns
    what SuperPoint's returns for the same thresholds, margin and cap. *)
Theorem DISK_agrees_when_nothing_filtered `{P : Platform}
    (keypoints : list FeatureKeypoint) (scores : list Q)
    (sc : SuperPoint.Config) (dc : DISK.Config) :
  same_filter sc dc ->
  length keypoints = length scores ->
  Forall (fun p => accepts (DISK.keypoint_threshold dc) (DISK.remove_borders dc)
                     (DISK.border_margin dc) 640 480 p = true)
         (zip keypoints scores) ->
  DISK.FilterKeypoints keypoints scores dc
  = SuperPoint.FilterKeypoints keypoints scores sc.
Proof.
  intros (Ht & Hb & Hm & Hk) Hlen Hall.
  unfold DISK.FilterKeypoints, SuperPoint.FilterKeypoints.
  rewrite (DISK_filter_from_survivors dc keypoints scores) by lia.
  rewrite (SuperPoint_filter_from_survivors sc keypoints scores) by lia.
  rewrite Ht, Hb, Hm, Hk. unfold survivors. rewrite (filter_all _ _ Hall). simpl.
  rewrite fst_zip by lia. rewrite snd_zip by lia. reflexivity.
Qed.

Lemma DISK_agrees_when_nothing_filtered_witness :
  (same_filter superpoint_best disk_best
   /\ length [keypoint_at 20 20; keypoint_at 30 30] = length [(6 # 10)%Q; (9 # 10)%Q]
   /\ Forall (fun p => accepts (DISK.keypoint_threshold disk_best)
                         (DISK.remove_borders disk_best)
                         (DISK.border_margin disk_best) 640 480 p = true)
        (zip [keypoint_at 20 20; keypoint_at 30 30] [(6 # 10)%Q; (9 # 10)%Q]))
  /\ @DISK.FilterKeypoints reference_platform [keypoint_at 20 20; keypoint_at 30 30]
       [(6 # 10)%Q; (9 # 10)%Q] disk_best
     = @SuperPoint.FilterKeypoints reference_platform
         [keypoint_at 20 20; keypoint_at 30 30] [(6 # 10)%Q; (9 # 10)%Q]
         superpoint_best.
Proof.
  assert (H1 : same_filter superpoint_best disk_best) by (repeat split).
  assert (H2 : length [keypoint_at 20 20; keypoint_at 30 30]
               = length [(6 # 10)%Q; (9 # 10)%Q]) by reflexivity.
  assert (H3 : Forall (fun p => accepts (DISK.keypoint_threshold disk_best)
                         (DISK.remove_borders disk_best)
                         (DISK.border_margin disk_best) 640 480 p = true)
        (zip [keypoint_at 20 20; keypoint_at 30 30] [(6 # 10)%Q; (9 # 10)%Q]))
    by (repeat constructor).
  split; [auto|].
  exact (@DISK_agrees_when_nothing_filtered reference_platform _ _ _ _ H1 H2 H3).
Defined.

(** ** [Detect] *)


Lemma survivors_from_input threshold borders margin w h keypoints scores kp :
  kp ∈ (survivors threshold borders margin w h keypoints scores).*1 ->
  kp ∈ keypoints /\ (borders = true -> inside_border margin w h kp).
Proof.
  intros Hkp. apply list_elem_of_fmap in Hkp. destruct Hkp as ([k s] & -> & Hp).
  split.
  - unfold survivors in Hp. apply list_elem_of_In, filter_In in Hp.
    destruct Hp as [Hz _]. apply list_elem_of_In in Hz.
    by apply elem_of_zip_l in Hz.
  - apply survivors_inside in Hp. apply Hp.
Qed.

Lemma survivors_length_le threshold borders margin w h keypoints scores :
  length (survivors threshold borders margin w h keypoints scores) <= length keypoints.
Proof.
  unfold survivors. etrans; [apply List.filter_length_le|].
  rewrite length_zip_with. lia.
Qed.



(** X21. On a loaded DISK detector and under a conforming [std::sort],
    [Detect] is defined for every image and every [rand()]: keypoints,
    scores, descriptors and soft scores are parallel (the last two empty
    when descriptors are not requested), every keypoint is a point of the
    dense grid with the identity shape, there are no more keypoints than
    grid points, and [dense_descriptors] has [(width / 16) * (height / 16)]
    entries. *)
Theorem DISK_Detect_result (P : Platform) rnd image config self :
  std_sort_conforms P ->
  DISK.loaded_ self = true ->
  exists r,
    DISK.Detect rnd image config self = Some r
    /\ length (DISK.scores r) = length (DISK.keypoints r)
    /\ length (DISK.descriptors r)
       = (if DISK.compute_descriptors config then length (DISK.keypoints r) else 0)
    /\ length (DISK.soft_scores r) = length (DISK.descriptors r)
    /\ DISK.dense_keypoints r = dense_grid 16 image
    /\ length (DISK.dense_descriptors r)
       = Z.to_nat (Z.quot (Width image) 16 * Z.quot (Height image) 16)
    /\ length (DISK.keypoints r) <= length (DISK.dense_keypoints r)
    /\ forall kp, kp ∈ DISK.keypoints r ->
         (exists p, p ∈ dense_grid 16 image
            /\ kp = {| x := p.1; y := p.2; a11 := 1; a12 := 0; a21 := 0; a22 := 1 |})
         /\ (DISK.remove_borders config = true ->
             inside_border (DISK.border_margin config) 640 480 kp).
Proof.
  intros Hconf Hl.
  set (kps0 := List.map (fun p : Vector2f =>
                 {| x := p.1; y := p.2; a11 := 1; a12 := 0; a21 := 0; a22 := 1 |})
              (DISK.ExtractDenseKeypoints image config)).
  set (scores0 := List.map (fun i => dummy_score (1 # 2) (1 # 2) (rnd i))
              (seq 0 (length (DISK.ExtractDenseKeypoints image config)))).
  assert (Hlens : length kps0 <= length scores0).
  { unfold kps0, scores0. rewrite !length_map, length_seq. lia. }
  set (sv := survivors (DISK.keypoint_threshold config) (DISK.remove_borders config)
               (DISK.border_margin config) 640 480 kps0 scores0).
  assert (exists res, DISK.FilterKeypoints kps0 scores0 config = Some res
            /\ length res <= length sv
            /\ forall kp, kp ∈ res -> kp ∈ sv.*1) as (res & Hres & Hcount & Hsub).
  { unfold DISK.FilterKeypoints.
    rewrite (DISK_filter_from_survivors config kps0 scores0 Hlens). fold sv. simpl.
    match goal with
    | |- context [gather ?fk (std_sort (by_score_desc ?sc) _) ?num] =>
        destruct (gather_count_conforming P sc fk num Hconf) as (res & Hres & Hn)
    end.
    exists res. split; [exact Hres|]. split.
    - rewrite Hn. etrans; [apply Nat.le_min_r|]. by rewrite length_fmap.
    - intros kp. apply (gather_elem _ _ _ _ Hres). }
  destruct (DISK_Detect_keypoints P rnd image config self res Hl Hres) as (r & Hr & Hk).
  exists r. split; [exact Hr|].
  unfold DISK.Detect in Hr. rewrite Hl in Hr. simpl in Hr.
  fold kps0 scores0 in Hr. rewrite Hres in Hr. simpl in Hr.
  injection Hr as <-. simpl.
  assert (Hsame : (if DISK.use_nms config
                   then DISK.ApplySoftNMS res scores0 config else res) = res)
    by (by destruct (DISK.use_nms config)).
  rewrite !Hsame.
  pose proof (survivors_length_le (DISK.keypoint_threshold config)
                (DISK.remove_borders config) (DISK.border_margin config)
                640 480 kps0 scores0) as Hsv. fold sv in Hsv.
  split; [apply length_map|]. split.
  { destruct (DISK.compute_descriptors config); [|reflexivity].
    unfold DISK.NormalizeDescriptors. by rewrite !length_map, length_seq. }
  split; [unfold DISK.ComputeSoftScores; apply length_map|].
  split; [reflexivity|]. split.
  { unfold DISK.ExtractDenseDescriptors. by rewrite length_map, length_seq. }
  split.
  { etrans; [exact Hcount|]. unfold kps0 in Hsv. rewrite length_map in Hsv.
    exact Hsv. }
  intros kp Hkp. apply Hsub, survivors_from_input in Hkp. destruct Hkp as [Hin Hbox].
  split; [|exact Hbox].
  unfold kps0 in Hin. apply list_elem_of_In, in_map_iff in Hin.
  destruct Hin as (p & <- & Hp). exists p. split; [|reflexivity].
  by apply list_elem_of_In.
Qed.

Lemma DISK_Detect_result_witness :
  (std_sort_conforms reference_platform /\ DISK.loaded_ loaded_disk = true)
  /\ exists r,
      @DISK.Detect reference_platform zero_stream tiny_image DISK.default_config
        loaded_disk = Some r
      /\ length (DISK.scores r) = length (DISK.keypoints r)
      /\ length (DISK.descriptors r) = length (DISK.keypoints r)
      /\ length (DISK.dense_descriptors r) = 0.
Proof.
  split; [split; [exact reference_platform_conforms|reflexivity]|].
  destruct (DISK_Detect_result reference_platform zero_stream tiny_image
              DISK.default_config loaded_disk reference_platform_conforms eq_refl)
    as (r & Hr & H1 & H2 & _ & _ & H5 & _).
  exists r. auto.
Defined.

(** ** The dense grid *)





(** ** [Match] *)

Lemma LoFTR_threshold_from_sound config scores ms : forall i fm fs,
  LoFTR.threshold_from i ms scores config = Some (fm, fs) ->
  fm `sublist_of` ms
  /\ length fm = length fs
  /\ Forall (fun s => (LoFTR.match_threshold config <= s)%Q) fs.
Proof.
  induction ms as [|m rest IH]; intros i fm fs; simpl.
  - intros [= <- <-]. repeat constructor.
  - destruct (scores !! i) as [s|]; simpl; [|discriminate].
    destruct (LoFTR.threshold_from (S i) rest scores config) as [[fm' fs']|] eqn:E;
      simpl; [|discriminate].
    destruct (IH _ _ _ E) as (H1 & H2 & H3).
    destruct (Qge_bool s (LoFTR.match_threshold config)) eqn:Ht;
      intros [= <- <-]; (split; [by constructor|]); split; simpl; auto.
    constructor; [by apply Qge_bool_le|exact H3].
Qed.

Lemma LoFTR_threshold_from_total config scores ms : forall i,
  i + length ms <= length scores ->
  is_Some (LoFTR.threshold_from i ms scores config).
Proof.
  induction ms as [|m rest IH]; intros i Hlen; simpl in *; [eauto|].
  destruct (lookup_lt_is_Some_2 scores i ltac:(lia)) as [s Hs]. rewrite Hs. simpl.
  destruct (IH (S i) ltac:(lia)) as [[fm fs] ->]. simpl.
  destruct (Qge_bool s _); eauto.
Qed.

(** X23. On a loaded LoFTR matcher [Match] is defined for every pair of
    images, every configuration and every [rand()].  The two result
    vectors have one length, which [num_matches] reports; every pair is
    (i, i) with i a valid position in both keypoint sets; no index occurs
    twice on either side; every returned score reaches [match_threshold];
    [match_ratio] is [num_matches] over the size of the first set, or 0 for
    an empty first set; [mutual_matches] is never filled. *)
Theorem LoFTR_Match_result rnd image1 image2 config self :
  LoFTR.loaded_ self = true ->
  exists r,
    LoFTR.Match rnd image1 image2 config self = Some r
    /\ LoFTR.keypoints1 r = LoFTR.ExtractDenseKeypoints image1 config
    /\ LoFTR.keypoints2 r = LoFTR.ExtractDenseKeypoints image2 config
    /\ length (LoFTR.match_scores r) = length (LoFTR.matches r)
    /\ LoFTR.num_matches r = Z.of_nat (length (LoFTR.matches r))
    /\ (forall a b, (a, b) ∈ LoFTR.matches r ->
          a = b /\ (0 <= a < Z.of_nat (length (LoFTR.keypoints1 r)))%Z
          /\ (0 <= b < Z.of_nat (length (LoFTR.keypoints2 r)))%Z)
    /\ NoDup ((LoFTR.matches r).*1)
    /\ NoDup ((LoFTR.matches r).*2)
    /\ Forall (fun s => (LoFTR.match_threshold config <= s)%Q) (LoFTR.match_scores r)
    /\ LoFTR.match_ratio r
       = (if 0 <? length (LoFTR.keypoints1 r)
          then (inject_Z (LoFTR.num_matches r)
                / inject_Z (Z.of_nat (length (LoFTR.keypoints1 r))))%Q
          else 0%Q)
    /\ LoFTR.mutual_matches r = [].
Proof.
  intros Hl. unfold LoFTR.Match. rewrite Hl. simpl.
  set (kps1 := LoFTR.ExtractDenseKeypoints image1 config).
  set (kps2 := LoFTR.ExtractDenseKeypoints image2 config).
  set (num := Nat.min (length kps1) (length kps2)).
  fold (diagonal num).
  set (scores0 := List.map (fun i => dummy_score (8 # 10) (2 # 10) (rnd i)) (seq 0 num)).
  assert (Hs0 : length scores0 = num) by (unfold scores0; by rewrite length_map, length_seq).
  assert (exists matches1,
            (if LoFTR.use_mutual_check config
             then LoFTR.ApplyMutualCheck (diagonal num) scores0 config
             else Some (diagonal num)) = Some matches1
            /\ matches1 `sublist_of` diagonal num) as (matches1 & Hm1 & Hsub1).
  { destruct (LoFTR.use_mutual_check config); [|by eexists].
    rewrite ApplyMutualCheck_is_threshold by (rewrite diagonal_length; lia).
    eexists. split; [reflexivity|].
    eapply LoFTR_mutual_from_sublist.
    apply (LoFTR_mutual_from_eq config scores0 (diagonal num) 0).
    rewrite diagonal_length. lia. }
  rewrite Hm1. simpl.
  destruct (LoFTR_threshold_from_total config scores0 matches1 0) as [[fm fs] Hth].
  { apply sublist_length in Hsub1. rewrite diagonal_length in Hsub1. lia. }
  rewrite Hth. simpl.
  destruct (LoFTR_threshold_from_sound _ _ _ _ _ _ Hth) as (Hsub2 & Hlen & Hall).
  assert (Hsub : fm `sublist_of` diagonal num) by (by etrans).
  eexists. split; [reflexivity|]. simpl.
  repeat (split; [done|]).
  split; [|split; [|split; [|split; done]]].
  - intros a b Hab. eapply elem_of_sublist in Hab; [|exact Hsub].
    apply diagonal_elem in Hab. destruct Hab as [-> Hb]. unfold num in Hb.
    split; [reflexivity|]. lia.
  - eapply sublist_NoDup;
      [exact (proj1 (diagonal_NoDup num))|by apply sublist_fmap_list].
  - eapply sublist_NoDup;
      [exact (proj2 (diagonal_NoDup num))|by apply sublist_fmap_list].
Qed.

Lemma LoFTR_Match_result_witness :
  LoFTR.loaded_ loaded_loftr = true
  /\ exists r,
      LoFTR.Match pair_stream strip_image strip_image strict_mutual loaded_loftr = Some r
      /\ length (LoFTR.match_scores r) = length (LoFTR.matches r)
      /\ NoDup ((LoFTR.matches r).*1).
Proof.
  split; [reflexivity|].
  destruct (LoFTR_Match_result pair_stream strip_image strip_image strict_mutual
              loaded_loftr eq_refl) as (r & Hr & _ & _ & H1 & _ & _ & H2 & _).
  exists r. auto.
Defined.

Lemma dummy_score_ge base scale r :
  (0 <= scale)%Q -> (0 <= r)%Z -> (base <= dummy_score base scale r)%Q.
Proof.
  intros Hscale Hr. unfold dummy_score.
  assert (0 <= scale * inject_Z (Z.rem r 100) / 100)%Q as Hnn.
  { unfold Qdiv. apply Qmult_le_0_compat; [apply Qmult_le_0_compat|].
    - exact Hscale.
    - change 0%Q with (inject_Z 0). rewrite <- Zle_Qle. apply Z.rem_nonneg; lia.
    - apply Qinv_le_0_compat. discriminate. }
  rewrite <- (Qplus_0_r base) at 1. by apply Qplus_le_r.
Qed.

Lemma LoFTR_mutual_from_all config scores ms : forall i,
  i + length ms <= length scores ->
  Forall (fun s => (LoFTR.mutual_threshold config <= s)%Q) scores ->
  LoFTR.mutual_from i ms scores config = Some ms.
Proof.
  induction ms as [|m rest IH]; intros i Hlen Hall; simpl in *; [reflexivity|].
  destruct (lookup_lt_is_Some_2 scores i ltac:(lia)) as [s Hs]. rewrite Hs. simpl.
  rewrite (IH (S i)) by (lia || assumption). simpl.
  rewrite Forall_forall in Hall.
  by rewrite (proj2 (Qge_bool_le s _) (Hall s (list_elem_of_lookup_2 _ _ _ Hs))).
Qed.

Lemma LoFTR_threshold_from_all config scores ms : forall i,
  i + length ms <= length scores ->
  Forall (fun s => (LoFTR.match_threshold config <= s)%Q) scores ->
  LoFTR.threshold_from i ms scores config
  = Some (ms, take (length ms) (drop i scores)).
Proof.
  induction ms as [|m rest IH]; intros i Hlen Hall; simpl in *; [reflexivity|].
  destruct (lookup_lt_is_Some_2 scores i ltac:(lia)) as [s Hs]. rewrite Hs. simpl.
  rewrite (IH (S i)) by (lia || assumption). simpl.
  rewrite (drop_S _ _ _ Hs). simpl.
  rewrite Forall_forall in Hall.
  by rewrite (proj2 (Qge_bool_le s _) (Hall s (list_elem_of_lookup_2 _ _ _ Hs))).
Qed.

(** X24. With a non-negative [rand()] every candidate score is at least
    0.8, so for [match_threshold <= 0.8], and [mutual_threshold <= 0.8]
    when the mutual check is on (the defaults are 0.2 and 0.8), LoFTR's
    [Match] drops nothing: it returns the pairs (0,0), ..., (n-1,n-1) for
    [n] the smaller keypoint count, each with its own score. *)
Theorem LoFTR_Match_keeps_all rnd image1 image2 config self :
  LoFTR.loaded_ self = true ->
  (forall k, (0 <= rnd k)%Z) ->
  (LoFTR.match_threshold config <= 8 # 10)%Q ->
  (LoFTR.use_mutual_check config = true ->
   (LoFTR.mutual_threshold config <= 8 # 10)%Q) ->
  let n := Nat.min (length (LoFTR.ExtractDenseKeypoints image1 config))
                   (length (LoFTR.ExtractDenseKeypoints image2 config)) in
  exists r,
    LoFTR.Match rnd image1 image2 config self = Some r
    /\ LoFTR.matches r = diagonal n
    /\ LoFTR.match_scores r
       = List.map (fun i => dummy_score (8 # 10) (2 # 10) (rnd i)) (seq 0 n)
    /\ LoFTR.num_matches r = Z.of_nat n.
Proof.
  intros Hl Hrnd Hmatch Hmutual n. unfold LoFTR.Match. rewrite Hl. simpl. fold n.
  fold (diagonal n).
  set (scores0 := List.map (fun i => dummy_score (8 # 10) (2 # 10) (rnd i)) (seq 0 n)).
  assert (Hs0 : length scores0 = n) by (unfold scores0; by rewrite length_map, length_seq).
  assert (Hge : Forall (fun s => (8 # 10 <= s)%Q) scores0).
  { apply Forall_forall. intros s Hs. unfold scores0 in Hs.
    apply list_elem_of_In, in_map_iff in Hs. destruct Hs as (i & <- & _).
    apply dummy_score_ge; [discriminate|apply Hrnd]. }
  assert ((if LoFTR.use_mutual_check config
           then LoFTR.ApplyMutualCheck (diagonal n) scores0 config
           else Some (diagonal n)) = Some (diagonal n)) as ->.
  { destruct (LoFTR.use_mutual_check config); [|reflexivity].
    apply LoFTR_mutual_from_all; [rewrite diagonal_length; lia|].
    eapply Forall_impl; [exact Hge|]. intros s Hs. simpl.
    eapply Qle_trans; [by apply Hmutual|exact Hs]. }
  assert (Hth : LoFTR.threshold_from 0 (diagonal n) scores0 config
                = Some (diagonal n, scores0)).
  { rewrite LoFTR_threshold_from_all.
    - rewrite diagonal_length, drop_0, take_ge by lia. reflexivity.
    - rewrite diagonal_length. lia.
    - eapply Forall_impl; [exact Hge|]. intros s Hs. simpl.
      eapply Qle_trans; [exact Hmatch|exact Hs]. }
  cbn [mbind option_bind]. rewrite Hth. cbn [mbind option_bind].
  eexists. split; [reflexivity|]. cbn [LoFTR.matches LoFTR.match_scores LoFTR.num_matches].
  rewrite diagonal_length. auto.
Qed.

Lemma LoFTR_Match_keeps_all_witness :
  (LoFTR.loaded_ loaded_loftr = true
   /\ (forall k, (0 <= pair_stream k)%Z)
   /\ (LoFTR.match_threshold LoFTR.default_config <= 8 # 10)%Q
   /\ (LoFTR.use_mutual_check LoFTR.default_config = true ->
       (LoFTR.mutual_threshold LoFTR.default_config <= 8 # 10)%Q))
  /\ exists r,
      LoFTR.Match pair_stream strip_image strip_image LoFTR.default_config loaded_loftr
      = Some r
      /\ LoFTR.matches r = [(0, 0)%Z; (1, 1)%Z]
      /\ LoFTR.num_matches r = 2%Z.
Proof.
  assert (H1 : forall k, (0 <= pair_stream k)%Z).
  { intros k. unfold pair_stream. do 2 (destruct k as [|k]; [lia|]). lia. }
  assert (H2 : (LoFTR.match_threshold LoFTR.default_config <= 8 # 10)%Q)
    by (vm_compute; discriminate).
  assert (H3 : LoFTR.use_mutual_check LoFTR.default_config = true ->
               (LoFTR.mutual_threshold LoFTR.default_config <= 8 # 10)%Q)
    by (intros _; vm_compute; discriminate).
  split; [auto|].
  destruct (LoFTR_Match_keeps_all pair_stream strip_image strip_image
              LoFTR.default_config loaded_loftr eq_refl H1 H2 H3)
    as (r & Hr & Hm & _ & Hn).
  exists r. auto.
Defined.

Lemma SuperGlue_Match_empty keypoints1 descriptors1 keypoints2 descriptors2 config self :
  SuperGlue.loaded_ self = false \/ keypoints1 = [] \/ keypoints2 = []
  \/ descriptors1 = [] \/ descriptors2 = [] ->
  SuperGlue.Match keypoints1 descriptors1 keypoints2 descriptors2 config self
  = SuperGlue.empty_result.
Proof.
  unfold SuperGlue.Match. destruct (SuperGlue.loaded_ self); simpl; [|reflexivity].
  intros [H|[->|[->|[->| ->]]]]; [discriminate|reflexivity|..];
    rewrite ?orb_true_r; reflexivity.
Qed.

Lemma SuperGlue_Match_pairs keypoints1 descriptors1 keypoints2 descriptors2 config self :
  SuperGlue.loaded_ self = true ->
  keypoints1 <> [] -> keypoints2 <> [] -> descriptors1 <> [] -> descriptors2 <> [] ->
  SuperGlue.Match keypoints1 descriptors1 keypoints2 descriptors2 config self
  = {| SuperGlue.matches := diagonal (Nat.min (length keypoints1) (length keypoints2));
       SuperGlue.match_scores := [];
       SuperGlue.mutual_matches := [];
       SuperGlue.num_matches := 0;
       SuperGlue.match_ratio := 0 |}
  /\ 0 < Nat.min (length keypoints1) (length keypoints2).
Proof.
  intros Hl H1 H2 H3 H4. unfold SuperGlue.Match. rewrite Hl.
  destruct keypoints1, keypoints2, descriptors1, descriptors2; try congruence.
  split; [reflexivity|simpl; lia].
Qed.

Lemma list_empty_dec {A} (l : list A) : l = [] \/ l <> [].
Proof. destruct l; [by left|by right]. Qed.

(** X25. SuperGlue's [Match] returns the empty result exactly when the
    matcher is not loaded or one of the four inputs is empty; otherwise
    [matches] is (0,0), ..., (n-1,n-1) for [n] the smaller keypoint count.
    In every case [num_matches] and [match_ratio] are 0 and the score and
    mutual vectors are empty: the counters are never written, so
    [num_matches] differs from the number of pairs whenever pairs are
    returned. *)
Theorem SuperGlue_Match_result
    (keypoints1 keypoints2 : list FeatureKeypoint)
    (descriptors1 descriptors2 : list VectorXf)
    (config : SuperGlue.Config) (self : SuperGlue.Matcher) :
  let r := SuperGlue.Match keypoints1 descriptors1 keypoints2 descriptors2 config self in
  (r = SuperGlue.empty_result
   <-> SuperGlue.loaded_ self = false \/ keypoints1 = [] \/ keypoints2 = []
       \/ descriptors1 = [] \/ descriptors2 = [])
  /\ (r <> SuperGlue.empty_result ->
      SuperGlue.matches r = diagonal (Nat.min (length keypoints1) (length keypoints2))
      /\ SuperGlue.num_matches r <> Z.of_nat (length (SuperGlue.matches r)))
  /\ SuperGlue.num_matches r = 0%Z
  /\ SuperGlue.match_ratio r = 0%Q
  /\ SuperGlue.match_scores r = []
  /\ SuperGlue.mutual_matches r = []
  /\ (forall a b, (a, b) ∈ SuperGlue.matches r ->
        a = b /\ (0 <= a < Z.of_nat (length keypoints1))%Z
        /\ (0 <= b < Z.of_nat (length keypoints2))%Z).
Proof.
  intros r. subst r.
  destruct (SuperGlue.loaded_ self) eqn:Hl;
    [destruct (list_empty_dec keypoints1) as [H1|H1];
     [|destruct (list_empty_dec keypoints2) as [H2|H2];
       [|destruct (list_empty_dec descriptors1) as [H3|H3];
         [|destruct (list_empty_dec descriptors2) as [H4|H4]]]]|].
  all: try (rewrite SuperGlue_Match_empty by (rewrite ?Hl; tauto);
            split; [split; [intros _; rewrite ?Hl; tauto|reflexivity]|];
            split; [congruence|];
            do 4 (split; [reflexivity|]);
            intros a b Hab; by apply elem_of_nil in Hab).
  destruct (SuperGlue_Match_pairs keypoints1 descriptors1 keypoints2 descriptors2
              config self Hl H1 H2 H3 H4) as [-> Hn].
  split; [|split].
  - split.
    + intros Heq. apply (f_equal SuperGlue.matches) in Heq. simpl in Heq.
      apply (f_equal length) in Heq. rewrite diagonal_length in Heq. simpl in Heq. lia.
    + intros [H|[H|[H|[H|H]]]]; congruence.
  - intros _. simpl. rewrite diagonal_length. split; [reflexivity|lia].
  - simpl. do 4 (split; [reflexivity|]).
    intros a b Hab. apply diagonal_elem in Hab. lia.
Qed.

Lemma SuperGlue_Match_result_witness :
  SuperGlue.matches
    (SuperGlue.Match [edge_keypoint; centre_keypoint] [unit_descriptor]
       [edge_keypoint; centre_keypoint] [unit_descriptor]
       SuperGlue.default_config loaded_superglue)
  = diagonal 2
  /\ SuperGlue.num_matches
       (SuperGlue.Match [edge_keypoint; centre_keypoint] [unit_descriptor]
          [edge_keypoint; centre_keypoint] [unit_descriptor]
          SuperGlue.default_config loaded_superglue) = 0%Z.
Proof.
  pose proof (SuperGlue_Match_result [edge_keypoint; centre_keypoint]
                [edge_keypoint; centre_keypoint] [unit_descriptor] [unit_descriptor]
                SuperGlue.default_config loaded_superglue) as (_ & Hp & Hn & _).
  split; [|exact Hn].
  apply Hp. intros Heq. apply (f_equal SuperGlue.matches) in Heq. discriminate.
Defined.

(** ** Descriptors *)

(** X26. [ComputeSoftScores] returns one score per descriptor: 0 for a
    descriptor whose norm is below [soft_threshold], the norm itself
    otherwise; so every soft score is 0 or at least the threshold, and for
    the empty descriptor vector the result is empty.  The norm is the
    [float] that [norm()] returns, whatever the platform computes. *)
Theorem ComputeSoftScores_contract (P : Platform)
    (descriptors : list VectorXf) (config : DISK.Config) (k : nat) (desc : VectorXf) :
  descriptors !! k = Some desc ->
  length (DISK.ComputeSoftScores descriptors config) = length descriptors
  /\ ((Eigen_norm desc < Q2R (DISK.soft_threshold config))%R ->
      DISK.ComputeSoftScores descriptors config !! k = Some 0%R)
  /\ ((Q2R (DISK.soft_threshold config) <= Eigen_norm desc)%R ->
      DISK.ComputeSoftScores descriptors config !! k = Some (Eigen_norm desc))
  /\ (forall s, s ∈ DISK.ComputeSoftScores descriptors config ->
        s = 0%R \/ (Q2R (DISK.soft_threshold config) <= s)%R)
  /\ DISK.ComputeSoftScores [] config = [].
Proof.
  intros Hk. unfold DISK.ComputeSoftScores.
  split; [apply length_map|]. rewrite lookup_map, Hk. simpl.
  split; [|split; [|split; [|reflexivity]]].
  - intros Hlt. by destruct (Rlt_dec (Eigen_norm desc) _).
  - intros Hge. destruct (Rlt_dec (Eigen_norm desc) _) as [Hlt|_]; [lra|reflexivity].
  - intros s Hs. apply list_elem_of_In, in_map_iff in Hs. destruct Hs as (d & <- & _).
    destruct (Rlt_dec (Eigen_norm d) _) as [Hlt|Hnlt]; [by left|right; lra].
Qed.

Lemma ComputeSoftScores_contract_witness :
  sample_descriptors !! 1 = Some [0%R; 0%R]
  /\ length (@DISK.ComputeSoftScores reference_platform sample_descriptors
               DISK.default_config) = 2.
Proof.
  assert (H : sample_descriptors !! 1 = Some [0%R; 0%R]) by reflexivity.
  split; [exact H|].
  exact (proj1 (ComputeSoftScores_contract reference_platform sample_descriptors
                  DISK.default_config 1 _ H)).
Defined.

(** ** Degenerate inputs *)

Lemma conforming_sort_nil (P : Platform) scores :
  std_sort_conforms P -> std_sort (by_score_desc scores) [] = [].
Proof.
  intros Hconf. apply Permutation_nil. by apply conforming_sort_perm.
Qed.

(** X28. A model that is not loaded (never loaded, or unloaded again)
    answers [Detect] and [Match] with the empty result without looking at
    its input.  A loaded SuperPoint detector asked for no keypoints
    ([max_keypoints <= 0]) returns a result with empty vectors and never
    calls [rand()]; asked for at least one keypoint on an image of width
    or height 0 it computes [rand() % 0]: the behaviour is undefined, and no
    [catch] intercepts it. *)
Theorem Detect_Match_degenerate (P : Platform) rnd image image2 :
  std_sort_conforms P ->
  (forall config self, SuperPoint.Detect rnd image config (SuperPoint.Unload self)
                       = Some SuperPoint.empty_result)
  /\ (forall config self, DISK.Detect rnd image config (DISK.Unload self)
                          = Some DISK.empty_result)
  /\ (forall config self, LoFTR.Match rnd image image2 config (LoFTR.Unload self)
                          = Some LoFTR.empty_result)
  /\ (forall k1 d1 k2 d2 config self,
        SuperGlue.Match k1 d1 k2 d2 config (SuperGlue.Unload self)
        = SuperGlue.empty_result)
  /\ (forall config self,
        SuperPoint.loaded_ self = true ->
        (SuperPoint.max_keypoints config <= 0)%Z ->
        exists r, SuperPoint.Detect rnd image config self = Some r
          /\ SuperPoint.keypoints r = [] /\ SuperPoint.scores r = []
          /\ SuperPoint.descriptors r = [])
  /\ (forall config self,
        SuperPoint.loaded_ self = true ->
        (1 <= SuperPoint.max_keypoints config)%Z ->
        Width image = 0%Z \/ Height image = 0%Z ->
        SuperPoint.Detect rnd image config self = None).
Proof.
  intros Hconf.
  split; [|split; [|split; [|split; [|split]]]].
  - intros config self. unfold SuperPoint.Detect, SuperPoint.Unload.
    by destruct (SuperPoint.loaded_ self) eqn:E; simpl; rewrite ?E.
  - intros config self. unfold DISK.Detect, DISK.Unload.
    by destruct (DISK.loaded_ self) eqn:E; simpl; rewrite ?E.
  - intros config self. unfold LoFTR.Match, LoFTR.Unload.
    by destruct (LoFTR.loaded_ self) eqn:E; simpl; rewrite ?E.
  - intros k1 d1 k2 d2 config self. unfold SuperGlue.Match, SuperGlue.Unload.
    by destruct (SuperGlue.loaded_ self) eqn:E; simpl; rewrite ?E.
  - intros config self Hl Hmax. unfold SuperPoint.Detect. rewrite Hl. simpl.
    replace (Z.to_nat (Z.min (SuperPoint.max_keypoints config) 100)) with 0 by lia.
    simpl. unfold SuperPoint.FilterKeypoints. simpl.
    rewrite (conforming_sort_nil P [] Hconf). unfold gather. rewrite take_nil.
    simpl. eexists. split; [reflexivity|]. simpl.
    destruct (SuperPoint.use_nms config), (SuperPoint.compute_descriptors config);
      auto.
  - intros config self Hl Hmax Hzero. unfold SuperPoint.Detect. rewrite Hl. simpl.
    assert (exists m, Z.to_nat (Z.min (SuperPoint.max_keypoints config) 100) = S m)
      as [m ->] by (exists (Z.to_nat (Z.min (SuperPoint.max_keypoints config) 100) - 1);
                    lia).
    assert (SuperPoint.dummy_keypoint rnd (Width image) (Height image) 0 = None) as Hn.
    { unfold SuperPoint.dummy_keypoint.
      destruct Hzero as [-> | ->]; simpl; rewrite ?orb_true_r; reflexivity. }
    simpl. by rewrite Hn.
Qed.

Lemma Detect_Match_degenerate_witness :
  std_sort_conforms reference_platform
  /\ SuperPoint.loaded_ loaded_superpoint = true
  /\ (1 <= SuperPoint.max_keypoints one_keypoint)%Z
  /\ (Width empty_image = 0%Z \/ Height empty_image = 0%Z)
  /\ @SuperPoint.Detect reference_platform zero_stream empty_image one_keypoint
       loaded_superpoint = None.
Proof.
  assert (H1 : (1 <= SuperPoint.max_keypoints one_keypoint)%Z) by (vm_compute; discriminate).
  assert (H2 : Width empty_image = 0%Z \/ Height empty_image = 0%Z) by (by left).
  split; [exact reference_platform_conforms|]. split; [reflexivity|].
  split; [exact H1|]. split; [exact H2|].
  exact (proj2 (proj2 (proj2 (proj2 (proj2
           (Detect_Match_degenerate reference_platform zero_stream empty_image
              empty_image reference_platform_conforms)))))
           one_keypoint loaded_superpoint eq_refl H1 H2).
Defined.

(** ** The tensor side: [PostprocessOutput] and [PreprocessImage] *)

Lemma placeholder_count_capped v :
  (INT_MIN <= v <= INT_MAX)%Z -> Tensor.placeholder_count v = Tensor.capped_count v.
Proof.
  unfold Tensor.placeholder_count, Tensor.capped_count, size_t_of_int, INT_MIN, INT_MAX.
  intros Hv. rewrite (Z.mod_small 1000) by lia.
  destruct (0 <=? v)%Z eqn:E0; simpl.
  - apply Z.leb_le in E0. rewrite Z.mod_small by lia.
    destruct (v <=? 1000)%Z eqn:E1; [apply Z.leb_le in E1|apply Z.leb_gt in E1]; lia.
  - apply Z.leb_gt in E0.
    rewrite <- (Z.mod_unique v (2 ^ 64) (-1) (v + 2 ^ 64)) by lia. lia.
Qed.

Lemma LoFTR_dummy_score_below_one r :
  (0 <= r)%Z -> (dummy_score (7 # 10) (3 # 10) r < 1)%Q.
Proof.
  intros Hr. unfold dummy_score.
  assert (Hrem : (0 <= Z.rem r 100 < 100)%Z) by (apply Z.rem_bound_pos; lia).
  revert Hrem. generalize (Z.rem r 100). intros k Hk.
  unfold Qlt, Qplus, Qmult, Qdiv, Qinv, inject_Z. simpl. lia.
Qed.

(** X29. The placeholder [PostprocessOutput] of DISK and LoFTR never reads
    the output tensor and returns true.  For an [int] cap it produces
    [max_keypoints] entries when [0 <= max_keypoints <= 1000] and 1000
    otherwise, a negative cap included.  DISK writes keypoints that, for a
    non-negative [rand()], are pixels of a 640 x 480 image with the identity
    shape, and descriptors parallel to them (none when not requested);
    LoFTR writes the pairs (i, i) and parallel scores in [0.7, 1).  The
    other fields of the result, [num_matches] among them, are not written. *)
Theorem PostprocessOutput_placeholder (P : Platform) (rnd : nat -> Z) :
  (forall k, (0 <= rnd k)%Z) ->
  (forall tensor config result ok out,
      (INT_MIN <= DISK.max_keypoints config <= INT_MAX)%Z ->
      Tensor.DISK_PostprocessOutput rnd tensor config result = (ok, out) ->
      ok = true
      /\ Tensor.DISK_PostprocessOutput rnd [] config result = (ok, out)
      /\ length (DISK.keypoints out) = Tensor.capped_count (DISK.max_keypoints config)
      /\ Forall (pixel_of_image 640 480) (DISK.keypoints out)
      /\ length (DISK.descriptors out)
         = (if DISK.compute_descriptors config then length (DISK.keypoints out) else 0)
      /\ DISK.scores out = DISK.scores result
      /\ DISK.soft_scores out = DISK.soft_scores result
      /\ DISK.dense_keypoints out = DISK.dense_keypoints result
      /\ DISK.dense_descriptors out = DISK.dense_descriptors result)
  /\ (forall tensor config result ok out,
        (INT_MIN <= LoFTR.max_keypoints config <= INT_MAX)%Z ->
        Tensor.LoFTR_PostprocessOutput rnd tensor config result = (ok, out) ->
        ok = true
        /\ Tensor.LoFTR_PostprocessOutput rnd [] config result = (ok, out)
        /\ LoFTR.matches out
           = diagonal (Tensor.capped_count (LoFTR.max_keypoints config))
        /\ length (LoFTR.match_scores out) = length (LoFTR.matches out)
        /\ Forall (fun s => (7 # 10 <= s)%Q /\ (s < 1)%Q) (LoFTR.match_scores out)
        /\ LoFTR.num_matches out = LoFTR.num_matches result
        /\ LoFTR.match_ratio out = LoFTR.match_ratio result
        /\ LoFTR.mutual_matches out = LoFTR.mutual_matches result
        /\ LoFTR.keypoints1 out = LoFTR.keypoints1 result
        /\ LoFTR.keypoints2 out = LoFTR.keypoints2 result).
Proof.
  intros Hrnd. split.
  - intros tensor config result ok out Hmax Hout.
    unfold Tensor.DISK_PostprocessOutput in *.
    rewrite placeholder_count_capped in * by exact Hmax.
    injection Hout as <- <-. cbn [DISK.keypoints DISK.descriptors DISK.scores
      DISK.soft_scores DISK.dense_keypoints DISK.dense_descriptors].
    split; [reflexivity|]. split; [reflexivity|].
    split; [by rewrite length_map, length_seq|].
    split.
    { apply Forall_forall. intros kp Hkp.
      apply list_elem_of_In, in_map_iff in Hkp. destruct Hkp as (i & <- & _).
      exists (Z.rem (rnd (2 * i)) 640), (Z.rem (rnd (2 * i + 1)) 480).
      split; [apply Z.rem_bound_pos; [apply Hrnd|lia]|].
      split; [apply Z.rem_bound_pos; [apply Hrnd|lia]|]. reflexivity. }
    split; [|auto].
    destruct (DISK.compute_descriptors config); [|reflexivity].
    by rewrite !length_map, !length_seq.
  - intros tensor config result ok out Hmax Hout.
    unfold Tensor.LoFTR_PostprocessOutput in *.
    rewrite placeholder_count_capped in * by exact Hmax.
    injection Hout as <- <-. cbn [LoFTR.matches LoFTR.match_scores LoFTR.num_matches
      LoFTR.match_ratio LoFTR.mutual_matches LoFTR.keypoints1 LoFTR.keypoints2].
    split; [reflexivity|]. split; [reflexivity|]. split; [reflexivity|].
    split; [by rewrite !length_map|].
    split; [|auto 6].
    apply Forall_forall. intros s Hs.
    apply list_elem_of_In, in_map_iff in Hs. destruct Hs as (i & <- & _).
    split; [apply dummy_score_ge; [discriminate|apply Hrnd]|].
    apply LoFTR_dummy_score_below_one, Hrnd.
Qed.

Lemma PostprocessOutput_placeholder_witness :
  (forall k, (0 <= zero_stream k)%Z)
  /\ (INT_MIN <= LoFTR.max_keypoints LoFTR.default_config <= INT_MAX)%Z
  /\ LoFTR.matches
       (Tensor.LoFTR_PostprocessOutput zero_stream [] LoFTR.default_config
          LoFTR.empty_result).2
     = diagonal (Tensor.capped_count (LoFTR.max_keypoints LoFTR.default_config))
  /\ LoFTR.num_matches
       (Tensor.LoFTR_PostprocessOutput zero_stream [] LoFTR.default_config
          LoFTR.empty_result).2
     = 0%Z.
Proof.
  assert (H0 : forall k, (0 <= zero_stream k)%Z) by (intros k; unfold zero_stream; lia).
  assert (H1 : (INT_MIN <= LoFTR.max_keypoints LoFTR.default_config <= INT_MAX)%Z)
    by (vm_compute; split; discriminate).
  pose proof (proj2 (PostprocessOutput_placeholder reference_platform zero_stream H0)
                [] LoFTR.default_config LoFTR.empty_result _ _ H1
                (surjective_pairing _)) as H.
  split; [exact H0|]. split; [exact H1|].
  split; [exact (proj1 (proj2 (proj2 H)))|].
  exact (proj1 (proj2 (proj2 (proj2 (proj2 (proj2 H)))))).
Defined.

Lemma for_each_invariant {S : Type} (Inv : nat -> S -> Prop)
    (body : nat -> S -> option S) : forall n a s,
  Inv a s ->
  (forall i s, a <= i < a + n -> Inv i s ->
               exists s', body i s = Some s' /\ Inv (Datatypes.S i) s') ->
  exists s', Tensor.for_each body (seq a n) s = Some s' /\ Inv (a + n) s'.
Proof.
  induction n as [|n IH]; intros a s HI Hstep; simpl.
  - exists s. by rewrite Nat.add_0_r.
  - destruct (Hstep a s) as (s1 & -> & HI1); [lia|exact HI|]. simpl.
    destruct (IH (Datatypes.S a) s1 HI1) as (s2 & Hs2 & HI2).
    { intros i s' Hi. apply Hstep. lia. }
    exists s2. split; [exact Hs2|].
    by replace (a + Datatypes.S n) with (Datatypes.S a + n) by lia.
Qed.

Lemma store_in_range (i : nat) c v :
  i < length v -> Tensor.store (Z.of_nat i) c v = Some (<[i := c]> v).
Proof.
  intros Hi. unfold Tensor.store.
  replace (0 <=? Z.of_nat i)%Z with true by (symmetry; apply Z.leb_le; lia).
  replace (Z.of_nat i <? Z.of_nat (length v))%Z with true
    by (symmetry; apply Z.ltb_lt; lia).
  simpl. by rewrite Nat2Z.id.
Qed.

Lemma write_pixel_in_range (D : Tensor.PixelData) image (w y x : nat) t :
  3 * (y * w + x) + 2 < length t ->
  exists t',
    Tensor.write_pixel image (Z.of_nat w) (Z.of_nat y) (Z.of_nat x) t = Some t'
    /\ length t' = length t
    /\ Tensor.holds_pixel t' (y * w + x)
         (Tensor.GetPixel image (Z.of_nat x) (Z.of_nat y))
    /\ forall j, j < 3 * (y * w + x) -> t' !! j = t !! j.
Proof.
  intros Hlen. unfold Tensor.write_pixel, Tensor.holds_pixel.
  replace ((Z.of_nat y * Z.of_nat w + Z.of_nat x) * 3)%Z
    with (Z.of_nat (3 * (y * w + x))) by lia.
  replace (Z.of_nat (3 * (y * w + x)) + 1)%Z
    with (Z.of_nat (3 * (y * w + x) + 1)) by lia.
  replace (Z.of_nat (3 * (y * w + x)) + 2)%Z
    with (Z.of_nat (3 * (y * w + x) + 2)) by lia.
  generalize dependent (3 * (y * w + x)). intros k Hlen.
  rewrite store_in_range by lia. simpl.
  rewrite store_in_range by (rewrite length_insert; lia). simpl.
  rewrite store_in_range by (rewrite !length_insert; lia).
  eexists. split; [reflexivity|].
  split; [by rewrite !length_insert|].
  split; [split; [|split]|].
  - rewrite !list_lookup_insert_ne by lia.
    rewrite list_lookup_insert, decide_True by lia. reflexivity.
  - rewrite list_lookup_insert_ne by lia.
    rewrite list_lookup_insert, decide_True by (rewrite ?length_insert; lia).
    reflexivity.
  - rewrite list_lookup_insert, decide_True by (rewrite ?length_insert; lia).
    reflexivity.
  - intros j Hj. by rewrite !list_lookup_insert_ne by lia.
Qed.

Lemma pixel_number_lt (w y x y' x' : nat) :
  x' < w -> y' < y \/ (y' = y /\ x' < x) -> y' * w + x' < y * w + x.
Proof. intros Hx [Hy | [-> Hlt]]; nia. Qed.

Lemma pixel_number_bound (w h y x : nat) :
  x < w -> y < h -> y * w + x < w * h.
Proof. intros Hx Hy. nia. Qed.

(** The two loops never store out of range, and leave the three channels of
    every pixel at the entries of its number. *)
Lemma fill_pixels_spec (D : Tensor.PixelData) image (w h : nat) t0 :
  Width image = Z.of_nat w -> Height image = Z.of_nat h ->
  length t0 = 3 * (w * h) ->
  exists t,
    Tensor.fill_pixels image t0 = Some t
    /\ length t = 3 * (w * h)
    /\ forall y x, y < h -> x < w ->
         Tensor.holds_pixel t (y * w + x)
           (Tensor.GetPixel image (Z.of_nat x) (Z.of_nat y)).
Proof.
  intros Hw Hh Hlen. unfold Tensor.fill_pixels. rewrite Hw, Hh, !Nat2Z.id.
  destruct (for_each_invariant
              (fun y t => length t = 3 * (w * h)
                          /\ forall y' x', y' < y -> x' < w ->
                               Tensor.holds_pixel t (y' * w + x')
                                 (Tensor.GetPixel image (Z.of_nat x') (Z.of_nat y')))
              (fun y t =>
                 Tensor.for_each
                   (fun x t => Tensor.write_pixel image (Z.of_nat w) (Z.of_nat y)
                                 (Z.of_nat x) t)
                   (seq 0 w) t)
              h 0 t0) as (t & Ht & Hl & Hall).
  - split; [exact Hlen|]. intros; lia.
  - intros y s Hy [Hls Hs].
    destruct (for_each_invariant
                (fun x t => length t = 3 * (w * h)
                            /\ forall y' x', x' < w -> y' < y \/ (y' = y /\ x' < x) ->
                                 Tensor.holds_pixel t (y' * w + x')
                                   (Tensor.GetPixel image (Z.of_nat x') (Z.of_nat y')))
                (fun x t => Tensor.write_pixel image (Z.of_nat w) (Z.of_nat y)
                              (Z.of_nat x) t)
                w 0 s) as (s' & Hs' & Hls' & Hall').
    + split; [exact Hls|]. intros y' x' Hx' [Hlt | [_ Hlt]]; [by apply Hs|lia].
    + intros x t Hx [Hlt Ht].
      pose proof (pixel_number_bound w h y x ltac:(lia) ltac:(lia)) as Hp.
      destruct (write_pixel_in_range D image w y x t ltac:(lia))
        as (t' & Hw' & Hlt' & Hnew & Hold).
      exists t'. split; [exact Hw'|]. split; [lia|].
      intros y' x' Hx' Hlex.
      destruct (decide (y' = y /\ x' = x)) as [[-> ->] | Hne]; [exact Hnew|].
      assert (Hprev : y' < y \/ (y' = y /\ x' < x)) by lia.
      pose proof (pixel_number_lt w y x y' x' Hx' Hprev) as Hpl.
      destruct (Ht y' x' Hx' Hprev) as (H1 & H2 & H3).
      unfold Tensor.holds_pixel. rewrite !Hold by lia. auto.
    + exists s'. split; [exact Hs'|]. split; [exact Hls'|].
      intros y' x' Hy' Hx'. apply Hall'; [exact Hx'|]. simpl. lia.
  - exists t. split; [exact Ht|]. split; [exact Hl|].
    intros y x Hy Hx. by apply Hall.
Qed.

Lemma lookup_map_seq {B} (f : nat -> B) n i :
  i < n -> List.map f (seq 0 n) !! i = Some (f i).
Proof.
  intros Hi. rewrite lookup_map.
  by rewrite (proj2 (lookup_seq 0 n i i) (conj eq_refl Hi)).
Qed.

(** A tensor that holds every pixel at its number is the interleaved one. *)
Lemma interleaved_tensor_unique (D : Tensor.PixelData) image (w h : nat) t :
  Width image = Z.of_nat w -> Height image = Z.of_nat h ->
  length t = 3 * (w * h) ->
  (forall y x, y < h -> x < w ->
     Tensor.holds_pixel t (y * w + x)
       (Tensor.GetPixel image (Z.of_nat x) (Z.of_nat y))) ->
  t = Tensor.interleaved_tensor image.
Proof.
  intros Hw Hh Hlen Hall. apply list_eq. intros i.
  unfold Tensor.interleaved_tensor. rewrite Hw, Hh.
  replace (Z.to_nat (Z.of_nat w * Z.of_nat h * 3)) with (3 * (w * h)) by lia.
  destruct (decide (i < 3 * (w * h))) as [Hi | Hi].
  - rewrite lookup_map_seq by exact Hi.
    unfold Tensor.interleaved. rewrite Hw, Nat2Z.id.
    pose proof (Nat.div_mod_eq i 3) as Hi3.
    pose proof (Nat.mod_upper_bound i 3 ltac:(lia)) as Hc.
    assert (Hp : i / 3 < w * h) by (apply Nat.Div0.div_lt_upper_bound; lia).
    assert (Hwpos : 0 < w) by (destruct w; [simpl in Hp; lia|lia]).
    pose proof (Nat.div_mod_eq (i / 3) w) as Hpw.
    pose proof (Nat.mod_upper_bound (i / 3) w ltac:(lia)) as Hx.
    assert (Hy : i / 3 / w < h).
    { apply Nat.Div0.div_lt_upper_bound. lia. }
    destruct (Hall (i / 3 / w) (i / 3 mod w) Hy Hx) as (H0 & H1 & H2).
    replace (i / 3 / w * w + i / 3 mod w) with (i / 3) in H0, H1, H2 by lia.
    destruct (i mod 3) as [|[|[|c]]] eqn:Ec; [| | |lia]; simpl.
    + by replace (3 * (i / 3)) with i in H0 by lia.
    + by replace (3 * (i / 3) + 1) with i in H1 by lia.
    + by replace (3 * (i / 3) + 2) with i in H2 by lia.
  - rewrite (proj2 (lookup_ge_None t i)) by lia.
    symmetry. apply lookup_ge_None. rewrite length_map, length_seq. lia.
Qed.

Lemma length_resize n v : length (Tensor.resize n v) = n.
Proof.
  unfold Tensor.resize. rewrite length_app, length_take, length_replicate. lia.
Qed.

Lemma fill_resized (D : Tensor.PixelData) image t0 :
  Tensor.well_sized image ->
  Tensor.fill_pixels image (Tensor.resize_for image t0)
  = Some (Tensor.interleaved_tensor image)
  /\ forall y x, y < Z.to_nat (Height image) -> x < Z.to_nat (Width image) ->
       Tensor.holds_pixel (Tensor.interleaved_tensor image)
         (y * Z.to_nat (Width image) + x)
         (Tensor.GetPixel image (Z.of_nat x) (Z.of_nat y)).
Proof.
  intros (Hw & Hh & Hsize).
  assert (Hw' : Width image = Z.of_nat (Z.to_nat (Width image))) by lia.
  assert (Hh' : Height image = Z.of_nat (Z.to_nat (Height image))) by lia.
  assert (Hlen : length (Tensor.resize_for image t0)
                 = 3 * (Z.to_nat (Width image) * Z.to_nat (Height image))).
  { unfold Tensor.resize_for. rewrite length_resize.
    rewrite size_t_of_int_nonneg by (split; [nia|exact Hsize]). nia. }
  destruct (fill_pixels_spec D image _ _ _ Hw' Hh' Hlen) as (t & Ht & Hl & Hall).
  pose proof (interleaved_tensor_unique D image _ _ t Hw' Hh' Hl Hall) as Heq.
  subst t. split; [exact Ht|exact Hall].
Qed.

Lemma channel_over_255 v :
  (0 <= v <= 255)%Z -> (0 <= inject_Z v / 255)%Q /\ (inject_Z v / 255 <= 1)%Q.
Proof.
  intros Hv. unfold Qle, Qdiv, Qmult, Qinv, inject_Z. simpl. lia.
Qed.

(** X30. On a bitmap of non-negative dimensions whose [3 * width * height]
    is an [int], [PreprocessImage] never stores out of range and returns
    true with the interleaved tensor: [width * height * 3] entries, entry
    [(y * width + x) * 3 + c] holding channel [c] (red, green, blue) of the
    pixel [(x, y)] divided by 255.  The result does not depend on what the
    tensor held before; for 8-bit pixels every entry lies in [0, 1]; and
    LoFTR's [PreprocessImages] gives each of its two images this tensor. *)
Theorem PreprocessImage_layout (D : Tensor.PixelData) (image : Bitmap) :
  Tensor.well_sized image ->
  (forall previous,
      Tensor.DISK_PreprocessImage image previous
      = Some (true, Tensor.interleaved_tensor image))
  /\ length (Tensor.interleaved_tensor image)
     = Z.to_nat (Width image * Height image * 3)
  /\ (forall x y,
        (0 <= x < Width image)%Z -> (0 <= y < Height image)%Z ->
        Tensor.pixel_written image (Tensor.interleaved_tensor image) y x)
  /\ (Tensor.eight_bit image ->
      Forall (fun q => (0 <= q)%Q /\ (q <= 1)%Q) (Tensor.interleaved_tensor image))
  /\ (forall image2 previous1 previous2,
        Tensor.well_sized image2 ->
        Tensor.LoFTR_PreprocessImages image image2 previous1 previous2
        = Some (true, Tensor.interleaved_tensor image,
                Tensor.interleaved_tensor image2)).
Proof.
  intros Hsized. pose proof Hsized as (Hw & Hh & Hsize).
  split; [|split; [|split; [|split]]].
  - intros previous. unfold Tensor.DISK_PreprocessImage.
    by rewrite (proj1 (fill_resized D image previous Hsized)).
  - unfold Tensor.interleaved_tensor. by rewrite length_map, length_seq.
  - intros x y Hx Hy.
    destruct (proj2 (fill_resized D image [] Hsized) (Z.to_nat y) (Z.to_nat x)
                ltac:(lia) ltac:(lia)) as (H0 & H1 & H2).
    rewrite !Z2Nat.id in H0, H1, H2 by lia.
    unfold Tensor.pixel_written.
    replace (Z.to_nat ((y * Width image + x) * 3))
      with (3 * (Z.to_nat y * Z.to_nat (Width image) + Z.to_nat x)) by nia.
    auto.
  - intros Hbits. apply Forall_forall. intros q Hq.
    unfold Tensor.interleaved_tensor in Hq.
    apply list_elem_of_In, in_map_iff in Hq. destruct Hq as (i & <- & Hi).
    apply in_seq in Hi.
    assert (Hi' : i < 3 * (Z.to_nat (Width image) * Z.to_nat (Height image))) by nia.
    assert (Hp : i / 3 < Z.to_nat (Width image) * Z.to_nat (Height image))
      by (apply Nat.Div0.div_lt_upper_bound; lia).
    assert (Hwpos : 0 < Z.to_nat (Width image))
      by (destruct (Z.to_nat (Width image)); [simpl in Hp; lia|lia]).
    pose proof (Nat.mod_upper_bound (i / 3) (Z.to_nat (Width image)) ltac:(lia)) as Hx.
    assert (Hy : i / 3 / Z.to_nat (Width image) < Z.to_nat (Height image))
      by (apply Nat.Div0.div_lt_upper_bound; lia).
    unfold Tensor.interleaved.
    destruct (Hbits (Z.of_nat (i / 3 mod Z.to_nat (Width image)))
                    (Z.of_nat (i / 3 / Z.to_nat (Width image)))
                    ltac:(lia) ltac:(lia)) as (Hr & Hg & Hb).
    apply channel_over_255.
    destruct (i mod 3) as [|[|c]]; simpl; assumption.
  - intros image2 previous1 previous2 Hsized2. unfold Tensor.LoFTR_PreprocessImages.
    rewrite (proj1 (fill_resized D image previous1 Hsized)). simpl.
    by rewrite (proj1 (fill_resized D image2 previous2 Hsized2)).
Qed.

Lemma PreprocessImage_layout_witness :
  Tensor.well_sized Tensor.two_by_two
  /\ @Tensor.eight_bit Tensor.test_card Tensor.two_by_two
  /\ @Tensor.DISK_PreprocessImage Tensor.test_card Tensor.two_by_two [(1 # 2)%Q]
     = Some (true, @Tensor.interleaved_tensor Tensor.test_card Tensor.two_by_two)
  /\ Forall (fun q => (0 <= q)%Q /\ (q <= 1)%Q)
       (@Tensor.interleaved_tensor Tensor.test_card Tensor.two_by_two).
Proof.
  assert (H1 : Tensor.well_sized Tensor.two_by_two)
    by (unfold Tensor.well_sized, INT_MAX; simpl; lia).
  assert (H2 : @Tensor.eight_bit Tensor.test_card Tensor.two_by_two).
  { intros x y Hx Hy. simpl in *. lia. }
  pose proof (PreprocessImage_layout Tensor.test_card Tensor.two_by_two H1) as H.
  split; [exact H1|]. split; [exact H2|].
  split; [exact (proj1 H [(1 # 2)%Q])|].
  exact (proj1 (proj2 (proj2 (proj2 H))) H2).
Defined.
